(** * A software rasterizer: clipping, rasterization and PNG unfiltering

    Shallow embedding of [src/pipeline.cpp] and, from [src/png_image.cc],
    of the byte-order functions, the signature test and the scanline loop.

    - C++ [float] is IEEE-754 binary32 and [double] is binary64, both taken
      from the Standard Library's executable specification [SpecFloat]
      (round to nearest, ties to even; one NaN).
    - C++ [int] is [Z]. Signed overflow is undefined behaviour: the range is
      checked where a [float] is converted to [int] and where the face
      counter is advanced; the index of an access that is in range cannot
      overflow.
    - The arrays of [Payload] and of [Shader] are declared in headers that
      are not among the sources, so their capacity is unknown: they are maps
      from an index to a slot, and no capacity is imposed. A store past the
      end of the real arrays is undefined behaviour that the maps do not
      show: what is proved about the clipper holds for the runs that stay
      within the arrays.
    - [std::vector]s (z-buffer, framebuffer, the model's tables) and heap
      buffers are lists; an access out of range is undefined behaviour.
    - Undefined behaviour is a result of its own ([None], [Undefined],
      [Fault]), never a value.

    The definitions come first, the lemmas and theorems after them. *)

From Stdlib Require Import ZArith Lia Bool.
From Stdlib Require Import Floats.SpecFloat.
From stdpp Require Import base list option functions.

Open Scope Z_scope.

(** ** Binary32 and binary64 arithmetic *)

Module Float.

Definition float := spec_float.

Definition prec32 : Z := 24.
Definition emax32 : Z := 128.
Definition prec64 : Z := 53.
Definition emax64 : Z := 1024.

Definition fadd : float -> float -> float := SFadd prec32 emax32.
Definition fsub : float -> float -> float := SFsub prec32 emax32.
Definition fmul : float -> float -> float := SFmul prec32 emax32.
Definition fdiv : float -> float -> float := SFdiv prec32 emax32.
Definition fneg : float -> float := SFopp.

(** The four comparisons of C++; each is false when an operand is NaN. *)
Definition flt (a b : float) : bool := SFltb a b.
Definition fle (a b : float) : bool := SFleb a b.
Definition fgt (a b : float) : bool := SFltb b a.
Definition fge (a b : float) : bool := SFleb b a.

(** [(float) n] for an [int] n. *)
Definition float_of_int (n : Z) : float := binary_normalize prec32 emax32 n 0 false.

(** The binary32 value nearest to [m * 2 ^ e]. *)
Definition float_of_dyadic (m e : Z) : float := binary_normalize prec32 emax32 m e false.

(** [std::min] and [std::max] as the standard defines them:
    [min(a, b) = (b < a) ? b : a] and [max(a, b) = (a < b) ? b : a]. *)
Definition fmin (a b : float) : float := if flt b a then b else a.
Definition fmax (a b : float) : float := if flt a b then b else a.

Definition is_nan (a : float) : bool :=
  match a with S754_nan => true | _ => false end.

Definition is_zero (a : float) : bool :=
  match a with S754_zero _ => true | _ => false end.

(** binary64, for the sub-expressions the source evaluates in [double]. *)
Definition dmul : float -> float -> float := SFmul prec64 emax64.
Definition double_of_int (n : Z) : float := binary_normalize prec64 emax64 n 0 false.
Definition double_half : float := binary_normalize prec64 emax64 1 (-1) false.

(** Widening is exact, narrowing rounds. *)
Definition double_of_float (a : float) : float :=
  match a with
  | S754_finite s m e => binary_round prec64 emax64 s m e
  | _ => a
  end.
Definition float_of_double (a : float) : float :=
  match a with
  | S754_finite s m e => binary_round prec32 emax32 s m e
  | _ => a
  end.

(** [(float) (n + 0.5)]: the sum is exact in binary64 for a 32-bit n, so
    the result is n + 1/2 rounded once to binary32. *)
Definition float_of_int_plus_half (n : Z) : float :=
  binary_normalize prec32 emax32 (2 * n + 1) (-1) false.

Definition INT_MIN : Z := - 2 ^ 31.
Definition INT_MAX : Z := 2 ^ 31 - 1.
Definition in_int (n : Z) : bool := (INT_MIN <=? n) && (n <=? INT_MAX).
Definition as_int (n : Z) : option Z := if in_int n then Some n else None.

Definition signed (s : bool) (m : positive) : Z := if s then Z.neg m else Z.pos m.

(** [(int) a]: truncation toward zero; undefined for NaN, infinities and
    values outside the range of [int]. *)
Definition int_of_float (a : float) : option Z :=
  match a with
  | S754_zero _ => Some 0
  | S754_finite s m e =>
      as_int (if 0 <=? e then signed s m * 2 ^ e
              else Z.quot (signed s m) (2 ^ (- e)))
  | _ => None
  end.

(** [(int) std::ceil(a)]: the ceiling of a binary32 value is a binary32
    value, so the conversion sees the exact integer ceiling. *)
Definition int_of_ceil (a : float) : option Z :=
  match a with
  | S754_zero _ => Some 0
  | S754_finite s m e =>
      as_int (if 0 <=? e then signed s m * 2 ^ e
              else - ((- signed s m) / 2 ^ (- e)))
  | _ => None
  end.

(** Conversion of a [float] to an 8-bit unsigned framebuffer byte:
    truncation; undefined when the truncated value is not in 0..255. *)
Definition byte_of_float (a : float) : option Z :=
  match a with
  | S754_zero _ => Some 0
  | S754_finite s m e =>
      let t := if 0 <=? e then signed s m * 2 ^ e
               else Z.quot (signed s m) (2 ^ (- e)) in
      if (0 <=? t) && (t <=? 255) then Some t else None
  | _ => None
  end.

End Float.
Import Float.

(** ** Vectors *)

Record Vector2f := mkVector2f { v2_x : float; v2_y : float }.
Record Vector3f := mkVector3f { v3_x : float; v3_y : float; v3_z : float }.
Record Vector4f := mkVector4f { v4_x : float; v4_y : float; v4_z : float; v4_w : float }.

(** [color[i]] on a [Vector3f]. *)
Definition v3_get (v : Vector3f) (i : Z) : float :=
  if i =? 0 then v3_x v else if i =? 1 then v3_y v else v3_z v.

(** Modelled from the spec: [vectorInterpolate] is declared in util.hpp,
    which is not among the sources; section 3 of the specification gives
    [lerp(a, b, t) = a + t * (b - a)], applied to every component. *)
Definition lerp (a b t : float) : float := fadd a (fmul t (fsub b a)).

Class Interpolate (V : Type) := vectorInterpolate : V -> V -> float -> V.

#[export] Instance interpolate2 : Interpolate Vector2f := fun a b t =>
  mkVector2f (lerp (v2_x a) (v2_x b) t) (lerp (v2_y a) (v2_y b) t).
#[export] Instance interpolate3 : Interpolate Vector3f := fun a b t =>
  mkVector3f (lerp (v3_x a) (v3_x b) t) (lerp (v3_y a) (v3_y b) t)
             (lerp (v3_z a) (v3_z b) t).
#[export] Instance interpolate4 : Interpolate Vector4f := fun a b t =>
  mkVector4f (lerp (v4_x a) (v4_x b) t) (lerp (v4_y a) (v4_y b) t)
             (lerp (v4_z a) (v4_z b) t) (lerp (v4_w a) (v4_w b) t).

(** ** Loops *)

(** [for (i = lo; i < hi; i++) body], for a body that assigns neither [i]
    nor [hi]: [Z.to_nat (hi - lo)] iterations. *)
Fixpoint iterate {S : Type} (n : nat) (i : Z) (body : Z -> S -> S) (s : S) : S :=
  match n with
  | O => s
  | Datatypes.S n' => iterate n' (i + 1) body (body i s)
  end.

Definition for_loop {S : Type} (lo hi : Z) (body : Z -> S -> S) (s : S) : S :=
  iterate (Z.to_nat (hi - lo)) lo body s.

(** The same loop for a body that can run into undefined behaviour. *)
Fixpoint iterateM {S : Type} (n : nat) (i : Z) (body : Z -> S -> option S) (s : S)
  : option S :=
  match n with
  | O => Some s
  | Datatypes.S n' =>
      match body i s with
      | Some s' => iterateM n' (i + 1) body s'
      | None => None
      end
  end.

Definition for_loopM {S : Type} (lo hi : Z) (body : Z -> S -> option S) (s : S)
  : option S :=
  iterateM (Z.to_nat (hi - lo)) lo body s.

(** ** The clipper *)

(** Modelled from the spec: the enumeration [Plane] is declared in a header
    that is not among the sources; its members and their order are those of
    section 4.1 of the specification, numbered from 0 as a C++ enumeration
    is. The [default] branches of the two switches below belong to no
    member. *)
Inductive Plane := MINIMAL | RIGHT | LEFT | TOP | BOTTOM | NEAR | FAR.

Definition plane_index (p : Plane) : Z :=
  match p with
  | MINIMAL => 0 | RIGHT => 1 | LEFT => 2 | TOP => 3
  | BOTTOM => 4 | NEAR => 5 | FAR => 6
  end.

Definition all_planes : list Plane := [MINIMAL; RIGHT; LEFT; TOP; BOTTOM; NEAR; FAR].

(** The four attribute arrays of one side of the payload. *)
Record Streams := mkStreams {
  s_coords : Z -> Vector4f;
  s_world_coords : Z -> Vector4f;
  s_normals : Z -> Vector3f;
  s_uvs : Z -> Vector2f
}.

Record Payload := mkPayload {
  clipped_coords_a : Z -> Vector4f;
  clipped_world_coords_a : Z -> Vector4f;
  clipped_normals_a : Z -> Vector3f;
  clipped_uvs_a : Z -> Vector2f;
  clipped_coords_b : Z -> Vector4f;
  clipped_world_coords_b : Z -> Vector4f;
  clipped_normals_b : Z -> Vector3f;
  clipped_uvs_b : Z -> Vector2f;
  homo_coords : Z -> Vector4f
}.

Definition side_a (p : Payload) : Streams :=
  mkStreams (clipped_coords_a p) (clipped_world_coords_a p)
            (clipped_normals_a p) (clipped_uvs_a p).

Definition side_b (p : Payload) : Streams :=
  mkStreams (clipped_coords_b p) (clipped_world_coords_b p)
            (clipped_normals_b p) (clipped_uvs_b p).

Definition with_side_a (p : Payload) (s : Streams) : Payload :=
  mkPayload (s_coords s) (s_world_coords s) (s_normals s) (s_uvs s)
            (clipped_coords_b p) (clipped_world_coords_b p)
            (clipped_normals_b p) (clipped_uvs_b p) (homo_coords p).

Definition with_side_b (p : Payload) (s : Streams) : Payload :=
  mkPayload (clipped_coords_a p) (clipped_world_coords_a p)
            (clipped_normals_a p) (clipped_uvs_a p)
            (s_coords s) (s_world_coords s) (s_normals s) (s_uvs s)
            (homo_coords p).

(** [out_*[num] = ...] on the four arrays at once. *)
Definition store (out : Streams) (num : Z)
    (c : Vector4f) (w : Vector4f) (n : Vector3f) (u : Vector2f) : Streams :=
  mkStreams (<[num := c]> (s_coords out)) (<[num := w]> (s_world_coords out))
            (<[num := n]> (s_normals out)) (<[num := u]> (s_uvs out)).

Section Clipper.

(** The macro [MINIMAL_VAL] is defined in macro.hpp, which is not among
    the sources; it is a parameter of the clipper, taken as a [float]. *)
Variable MINIMAL_VAL : float.

Definition is_inside_plane (clip_plane : Plane) (vertex : Vector4f) : bool :=
  match clip_plane with
  | MINIMAL => fle (v4_w vertex) (fneg MINIMAL_VAL)
  | RIGHT => fge (v4_x vertex) (v4_w vertex)
  | LEFT => fle (v4_x vertex) (fneg (v4_w vertex))
  | TOP => fge (v4_y vertex) (v4_w vertex)
  | BOTTOM => fle (v4_y vertex) (fneg (v4_w vertex))
  | NEAR => fge (v4_z vertex) (v4_w vertex)
  | FAR => fle (v4_z vertex) (fneg (v4_w vertex))
  end.

Definition get_intersect_ratio (prev curv : Vector4f) (clip_plane : Plane) : float :=
  match clip_plane with
  | MINIMAL =>
      fdiv (fadd (v4_w prev) MINIMAL_VAL) (fsub (v4_w prev) (v4_w curv))
  | RIGHT =>
      fdiv (fsub (v4_w prev) (v4_x prev))
           (fsub (fsub (v4_w prev) (v4_x prev)) (fsub (v4_w curv) (v4_x curv)))
  | LEFT =>
      fdiv (fadd (v4_w prev) (v4_x prev))
           (fsub (fadd (v4_w prev) (v4_x prev)) (fadd (v4_w curv) (v4_x curv)))
  | TOP =>
      fdiv (fsub (v4_w prev) (v4_y prev))
           (fsub (fsub (v4_w prev) (v4_y prev)) (fsub (v4_w curv) (v4_y curv)))
  | BOTTOM =>
      fdiv (fadd (v4_w prev) (v4_y prev))
           (fsub (fadd (v4_w prev) (v4_y prev)) (fadd (v4_w curv) (v4_y curv)))
  | NEAR =>
      fdiv (fsub (v4_w prev) (v4_z prev))
           (fsub (fsub (v4_w prev) (v4_z prev)) (fsub (v4_w curv) (v4_z curv)))
  | FAR =>
      fdiv (fadd (v4_w prev) (v4_z prev))
           (fsub (fadd (v4_w prev) (v4_z prev)) (fadd (v4_w curv) (v4_z curv)))
  end.

(** One iteration of the edge loop of [clipWithPlane]; the state is
    [num] and the output arrays. *)
Definition clip_edge (clip_plane : Plane) (vertex_num : Z) (inp : Streams)
    (i : Z) (st : Z * Streams) : Z * Streams :=
  let v1 := i in
  let v2 := Z.rem (i + 1) vertex_num in
  let v1_inside := is_inside_plane clip_plane (s_coords inp v1) in
  let v2_inside := is_inside_plane clip_plane (s_coords inp v2) in
  let st1 :=
    if negb (eqb v1_inside v2_inside) then
      let ratio :=
        get_intersect_ratio (s_coords inp v1) (s_coords inp v2) clip_plane in
      (fst st + 1,
       store (snd st) (fst st)
         (vectorInterpolate (s_coords inp v1) (s_coords inp v2) ratio)
         (vectorInterpolate (s_world_coords inp v1) (s_world_coords inp v2) ratio)
         (vectorInterpolate (s_normals inp v1) (s_normals inp v2) ratio)
         (vectorInterpolate (s_uvs inp v1) (s_uvs inp v2) ratio))
    else st in
  if v2_inside then
    (fst st1 + 1,
     store (snd st1) (fst st1)
       (s_coords inp v2) (s_world_coords inp v2) (s_normals inp v2) (s_uvs inp v2))
  else st1.

(** [clipWithPlane]: planes of odd index read side b and write side a,
    the others read side a and write side b. *)
Definition clipWithPlane (clip_plane : Plane) (vertex_num : Z) (payload : Payload)
  : Z * Payload :=
  let is_odd := negb (Z.rem (plane_index clip_plane) 2 =? 0) in
  let inp := if is_odd then side_b payload else side_a payload in
  let out := if is_odd then side_a payload else side_b payload in
  let '(num, out') :=
    for_loop 0 vertex_num (clip_edge clip_plane vertex_num inp) (0, out) in
  (num, if is_odd then with_side_a payload out' else with_side_b payload out').

Definition homogeneous_clip (payload : Payload) : Z * Payload :=
  let num := 3 in
  let '(num, payload) := clipWithPlane MINIMAL num payload in
  let '(num, payload) := clipWithPlane RIGHT num payload in
  let '(num, payload) := clipWithPlane LEFT num payload in
  let '(num, payload) := clipWithPlane TOP num payload in
  let '(num, payload) := clipWithPlane BOTTOM num payload in
  let '(num, payload) := clipWithPlane NEAR num payload in
  clipWithPlane FAR num payload.

End Clipper.

(** ** Counting the vertices written by one plane

    [flags] gives the inside test of each input slot; the edge [i] adds one
    slot when the inside tests of its ends differ and one more when its
    second end is inside. *)

Fixpoint sumZ (n : nat) (i : Z) (g : Z -> Z) : Z :=
  match n with
  | O => 0
  | S n' => g i + sumZ n' (i + 1) g
  end.

Definition edge_count (flags : Z -> bool) (n i : Z) : Z :=
  Z.b2z (xorb (flags i) (flags (Z.rem (i + 1) n)))
  + Z.b2z (flags (Z.rem (i + 1) n)).

Definition inside_count (flags : Z -> bool) (n : nat) : Z :=
  sumZ n 0 (fun i => Z.b2z (flags i)).

Definition crossings (flags : Z -> bool) (n : nat) : Z :=
  sumZ n 0 (fun i => Z.b2z (xorb (flags i) (flags (Z.rem (i + 1) (Z.of_nat n))))).

(** The inside test of every slot of a side. *)
Definition inside_flags (MINIMAL_VAL : float) (p : Plane) (inp : Streams) : Z -> bool :=
  fun j => is_inside_plane MINIMAL_VAL p (s_coords inp j).

(** The side a plane reads and the side it writes. *)
Definition plane_is_odd (p : Plane) : bool := negb (Z.rem (plane_index p) 2 =? 0).

Definition read_side (p : Plane) (payload : Payload) : Streams :=
  if plane_is_odd p then side_b payload else side_a payload.

Definition write_side (p : Plane) (payload : Payload) : Streams :=
  if plane_is_odd p then side_a payload else side_b payload.

(** The clipper as the specification words it: the planes of [all_planes],
    one after the other, each on the count the previous one returned. *)
Definition clip_planes (MINIMAL_VAL : float) (planes : list Plane) (st : Z * Payload)
  : Z * Payload :=
  fold_left (fun st p => clipWithPlane MINIMAL_VAL p (fst st) (snd st)) planes st.

(** No pass of [planes], run from [st], meets more than two edges whose
    ends lie on different sides of its plane. *)
Fixpoint few_crossings (MINIMAL_VAL : float) (planes : list Plane) (st : Z * Payload)
  : Prop :=
  match planes with
  | [] => True
  | p :: rest =>
      crossings (inside_flags MINIMAL_VAL p (read_side p (snd st))) (Z.to_nat (fst st)) <= 2
      /\ few_crossings MINIMAL_VAL rest (clipWithPlane MINIMAL_VAL p (fst st) (snd st))
  end.

(** ** The plane table of the specification

    One row per plane, as section 4.1 of the specification prints it: the
    inside test of a vertex v, and the numerator and the denominator of the
    intersection ratio of an edge from p to c. *)
Record PlaneRow := mkPlaneRow {
  row_inside : Vector4f -> bool;
  row_numerator : Vector4f -> float;
  row_denominator : Vector4f -> Vector4f -> float
}.

Definition plane_table (epsilon : float) (plane : Plane) : PlaneRow :=
  match plane with
  | MINIMAL =>
      mkPlaneRow (fun v => fle (v4_w v) (fneg epsilon))
                 (fun p => fadd (v4_w p) epsilon)
                 (fun p c => fsub (v4_w p) (v4_w c))
  | RIGHT =>
      mkPlaneRow (fun v => fge (v4_x v) (v4_w v))
                 (fun p => fsub (v4_w p) (v4_x p))
                 (fun p c => fsub (fsub (v4_w p) (v4_x p)) (fsub (v4_w c) (v4_x c)))
  | LEFT =>
      mkPlaneRow (fun v => fle (v4_x v) (fneg (v4_w v)))
                 (fun p => fadd (v4_w p) (v4_x p))
                 (fun p c => fsub (fadd (v4_w p) (v4_x p)) (fadd (v4_w c) (v4_x c)))
  | TOP =>
      mkPlaneRow (fun v => fge (v4_y v) (v4_w v))
                 (fun p => fsub (v4_w p) (v4_y p))
                 (fun p c => fsub (fsub (v4_w p) (v4_y p)) (fsub (v4_w c) (v4_y c)))
  | BOTTOM =>
      mkPlaneRow (fun v => fle (v4_y v) (fneg (v4_w v)))
                 (fun p => fadd (v4_w p) (v4_y p))
                 (fun p c => fsub (fadd (v4_w p) (v4_y p)) (fadd (v4_w c) (v4_y c)))
  | NEAR =>
      mkPlaneRow (fun v => fge (v4_z v) (v4_w v))
                 (fun p => fsub (v4_w p) (v4_z p))
                 (fun p c => fsub (fsub (v4_w p) (v4_z p)) (fsub (v4_w c) (v4_z c)))
  | FAR =>
      mkPlaneRow (fun v => fle (v4_z v) (fneg (v4_w v)))
                 (fun p => fadd (v4_w p) (v4_z p))
                 (fun p c => fsub (fadd (v4_w p) (v4_z p)) (fadd (v4_w c) (v4_z c)))
  end.

(** ** Where an output vertex comes from *)

Section Provenance.

Variable MINIMAL_VAL : float.

(** The ends of an edge lie on different sides of a plane. *)
Definition crosses (p : Plane) (v1 v2 : Vector4f) : Prop :=
  is_inside_plane MINIMAL_VAL p v1 <> is_inside_plane MINIMAL_VAL p v2.

(** The position [clipWithPlane] writes for such an edge. *)
Definition cut_vertex (p : Plane) (v1 v2 : Vector4f) : Vector4f :=
  vectorInterpolate v1 v2 (get_intersect_ratio MINIMAL_VAL v1 v2 p).

(** What one pass can write: a copy of an input slot that is inside the
    plane, or the cut of an edge between two input slots. *)
Definition written_by (p : Plane) (inp : Z -> Vector4f) (n : Z) (v : Vector4f) : Prop :=
  (exists j, 0 <= j < n /\ v = inp j /\ is_inside_plane MINIMAL_VAL p v = true)
  \/ (exists i j, 0 <= i < n /\ 0 <= j < n /\ crosses p (inp i) (inp j)
                 /\ v = cut_vertex p (inp i) (inp j)).

(** A vertex that has been through the passes [planes]: either an input
    vertex inside every one of them, or the cut of an edge by one of them
    that is inside every later one. *)
Definition survives (input : Vector4f -> Prop) (planes : list Plane) (v : Vector4f) : Prop :=
  (input v /\ forall p, In p planes -> is_inside_plane MINIMAL_VAL p v = true)
  \/ (exists before p after v1 v2,
        planes = before ++ p :: after /\ crosses p v1 v2 /\ v = cut_vertex p v1 v2
        /\ forall q, In q after -> is_inside_plane MINIMAL_VAL q v = true).

End Provenance.

(** All four attributes of slot [i]. *)
Definition vertex_at (s : Streams) (i : Z) : Vector4f * Vector4f * Vector3f * Vector2f :=
  (s_coords s i, s_world_coords s i, s_normals s i, s_uvs s i).

(** ** Concrete inputs *)

(** Modelled from the spec: the value of the macro [MINIMAL_VAL] is not
    among the sources; the specification suggests 1e-5, here the nearest
    binary32 number. Only the concrete runs use it. *)
Definition MINIMAL_VAL_f32 : float := fdiv (float_of_int 1) (float_of_int 100000).

Definition zero2 : Vector2f := mkVector2f (float_of_int 0) (float_of_int 0).
Definition zero3 : Vector3f :=
  mkVector3f (float_of_int 0) (float_of_int 0) (float_of_int 0).
Definition zero4 : Vector4f :=
  mkVector4f (float_of_int 0) (float_of_int 0) (float_of_int 0) (float_of_int 0).

Definition zero_payload : Payload :=
  mkPayload (fun _ => zero4) (fun _ => zero4) (fun _ => zero3) (fun _ => zero2)
            (fun _ => zero4) (fun _ => zero4) (fun _ => zero3) (fun _ => zero2)
            (fun _ => zero4).

(** A payload whose side a holds the clip-space positions of a triangle. *)
Definition payload_of_triangle (v0 v1 v2 : Vector4f) : Payload :=
  with_side_a zero_payload
    (mkStreams (<[0 := v0]> (<[1 := v1]> (<[2 := v2]> (fun _ => zero4))))
               (fun _ => zero4) (fun _ => zero3) (fun _ => zero2)).

(** The first [n] positions of a side. *)
Definition polygon (s : Streams) (n : Z) : list Vector4f :=
  s_coords s <$> seqZ 0 n.

(** Scenario S1 as the specification writes it, with w = 1. *)
Definition s1_triangle : Payload :=
  payload_of_triangle
    (mkVector4f (float_of_dyadic (-1) (-1)) (float_of_dyadic (-1) (-1))
                (float_of_int 0) (float_of_int 1))
    (mkVector4f (float_of_dyadic 1 (-1)) (float_of_dyadic (-1) (-1))
                (float_of_int 0) (float_of_int 1))
    (mkVector4f (float_of_int 0) (float_of_dyadic 1 (-1))
                (float_of_int 0) (float_of_int 1)).

(** The same triangle with w = -1, in front of the MINIMAL plane. *)
Definition s1_triangle_neg_w : Payload :=
  payload_of_triangle
    (mkVector4f (float_of_dyadic (-1) (-1)) (float_of_dyadic (-1) (-1))
                (float_of_int 0) (float_of_int (-1)))
    (mkVector4f (float_of_dyadic 1 (-1)) (float_of_dyadic (-1) (-1))
                (float_of_int 0) (float_of_int (-1)))
    (mkVector4f (float_of_int 0) (float_of_dyadic 1 (-1))
                (float_of_int 0) (float_of_int (-1))).

(** A triangle with one vertex outside RIGHT: (-2, 0, 0, -2), (0, 0, 0, -2),
    (-2, 0, 0, -1). *)
Definition thirds_triangle : Payload :=
  payload_of_triangle
    (mkVector4f (float_of_int (-2)) (float_of_int 0) (float_of_int 0) (float_of_int (-2)))
    (mkVector4f (float_of_int 0) (float_of_int 0) (float_of_int 0) (float_of_int (-2)))
    (mkVector4f (float_of_int (-2)) (float_of_int 0) (float_of_int 0) (float_of_int (-1))).



(** ** The pipeline *)

(** [std::vector] access: an index out of range is undefined behaviour. *)
Definition vec_get {A : Type} (v : list A) (i : Z) : option A :=
  if 0 <=? i then v !! Z.to_nat i else None.

Definition vec_set {A : Type} (v : list A) (i : Z) (a : A) : option (list A) :=
  if (0 <=? i) && (i <? Z.of_nat (length v)) then Some (<[Z.to_nat i := a]> v)
  else None.

(** The per-triangle slots of a shader and its two functions, which read
    the slots. The class is declared in a header that is not among the
    sources; the members are those [prepareVertex] and [rasterize] use. *)
Record ShaderSlots := mkShaderSlots {
  sh_homo_coords : Z -> Vector4f;
  sh_world_coords : Z -> Vector4f;
  sh_normals : Z -> Vector3f;
  sh_uvs : Z -> Vector2f
}.

Record Shader := mkShader {
  slots : ShaderSlots;
  vertexShader : ShaderSlots -> Vector4f -> Vector4f;
  fragmentShader : ShaderSlots -> float -> float -> float -> float -> Vector3f
}.

Record VertexRef := mkVertexRef { vertex_index : Z; uv_index : Z; normal_index : Z }.

Record Face := mkFace { vertex : Z -> VertexRef }.

Record Model := mkModel {
  vertices : list Vector4f;
  normals : list Vector3f;
  uv_coords : list Vector2f;
  faces : list Face
}.

Record Pipeline := mkPipeline {
  width : Z;
  height : Z;
  zbuffer : list float;
  framebuffer : list Z
}.

(** [Pipeline::setColor]: three bytes, in the order the source writes them. *)
Definition setColor (pl : Pipeline) (x y : Z) (color : Vector3f) : option Pipeline :=
  let index := ((height pl - y - 1) * width pl + x) * 4 in
  r ← byte_of_float (v3_get color 0);
  fb ← vec_set (framebuffer pl) (index + 2) r;
  g ← byte_of_float (v3_get color 1);
  fb ← vec_set fb (index + 1) g;
  b ← byte_of_float (v3_get color 2);
  fb ← vec_set fb index b;
  Some (mkPipeline (width pl) (height pl) (zbuffer pl) fb).

Definition computeBarycentricCoords2D (x y : float) (v : Z -> Vector3f)
  : float * float * float :=
  let alpha :=
    fdiv (fsub (fadd (fadd (fmul x (fsub (v3_y (v 1)) (v3_y (v 2))))
                           (fmul (fsub (v3_x (v 2)) (v3_x (v 1))) y))
                     (fmul (v3_x (v 1)) (v3_y (v 2))))
               (fmul (v3_x (v 2)) (v3_y (v 1))))
         (fsub (fadd (fadd (fmul (v3_x (v 0)) (fsub (v3_y (v 1)) (v3_y (v 2))))
                           (fmul (fsub (v3_x (v 2)) (v3_x (v 1))) (v3_y (v 0))))
                     (fmul (v3_x (v 1)) (v3_y (v 2))))
               (fmul (v3_x (v 2)) (v3_y (v 1)))) in
  let beta :=
    fdiv (fsub (fadd (fadd (fmul x (fsub (v3_y (v 2)) (v3_y (v 0))))
                           (fmul (fsub (v3_x (v 0)) (v3_x (v 2))) y))
                     (fmul (v3_x (v 2)) (v3_y (v 0))))
               (fmul (v3_x (v 0)) (v3_y (v 2))))
         (fsub (fadd (fadd (fmul (v3_x (v 1)) (fsub (v3_y (v 2)) (v3_y (v 0))))
                           (fmul (fsub (v3_x (v 0)) (v3_x (v 2))) (v3_y (v 1))))
                     (fmul (v3_x (v 2)) (v3_y (v 0))))
               (fmul (v3_x (v 0)) (v3_y (v 2)))) in
  (alpha, beta, fsub (fsub (float_of_int 1) alpha) beta).

Definition inside_triangle (alpha beta gamma : float) : bool :=
  fgt alpha (float_of_int 0) && fgt beta (float_of_int 0) && fgt gamma (float_of_int 0).

(** The screen mapping of one vertex; the products are taken in binary64
    and the result is stored in a [float]. *)
Definition screen_coord (extent : Z) (c w : float) : float :=
  float_of_double
    (dmul (dmul double_half (double_of_int (extent - 1)))
          (double_of_float (fadd (fdiv c w) (float_of_int 1)))).

Definition screen_position (pl : Pipeline) (h : Vector4f) : Vector3f :=
  mkVector3f (screen_coord (width pl) (v4_x h) (v4_w h))
             (screen_coord (height pl) (v4_y h) (v4_w h))
             (fneg (v4_w h)).

Record Box := mkBox { x_min : Z; x_max : Z; y_min : Z; y_max : Z }.

(** One iteration of the loop over [screen_pos] that grows the box. *)
Definition grow_box (pos : Vector3f) (b : Box) : option Box :=
  cx ← int_of_ceil (v3_x pos);
  fx ← int_of_float (v3_x pos);
  cy ← int_of_ceil (v3_y pos);
  fy ← int_of_float (v3_y pos);
  Some (mkBox (Z.min (x_min b) fx) (Z.max (x_max b) cx)
              (Z.min (y_min b) fy) (Z.max (y_max b) cy)).

Definition bounding_box (pl : Pipeline) (screen_pos : Z -> Vector3f) : option Box :=
  b ← grow_box (screen_pos 0) (mkBox (width pl) 0 (height pl) 0);
  b ← grow_box (screen_pos 1) b;
  grow_box (screen_pos 2) b.

(** The perspective corrector of a pixel. *)
Definition corrector_of (payload : Payload) (alpha beta gamma : float) : float :=
  fdiv (float_of_int 1)
       (fadd (fadd (fdiv alpha (v4_w (homo_coords payload 0)))
                   (fdiv beta (v4_w (homo_coords payload 1))))
             (fdiv gamma (v4_w (homo_coords payload 2)))).

(** [color[i] = std::max(0.f, std::min(255.f, color[i]))] for the three
    channels. *)
Definition clamp_channel (c : float) : float :=
  fmax (float_of_int 0) (fmin (float_of_int 255) c).

Definition clamp_color (color : Vector3f) : Vector3f :=
  mkVector3f (clamp_channel (v3_x color)) (clamp_channel (v3_y color))
             (clamp_channel (v3_z color)).

Definition with_zbuffer (pl : Pipeline) (zb : list float) : Pipeline :=
  mkPipeline (width pl) (height pl) zb (framebuffer pl).

(** The body of the two pixel loops of [Pipeline::rasterize]. *)
Definition rasterize_pixel (payload : Payload) (shader : Shader)
    (screen_pos : Z -> Vector3f) (y x : Z) (pl : Pipeline) : option Pipeline :=
  let '(alpha, beta, gamma) :=
    computeBarycentricCoords2D (float_of_int_plus_half x) (float_of_int_plus_half y)
                               screen_pos in
  if inside_triangle alpha beta gamma then
    let index := y * width pl + x in
    let corrector := corrector_of payload alpha beta gamma in
    let z := fneg corrector in
    stored ← vec_get (zbuffer pl) index;
    if fgt stored z then
      zb ← vec_set (zbuffer pl) index z;
      let color := fragmentShader shader (slots shader) alpha beta gamma corrector in
      setColor (with_zbuffer pl zb) x y (clamp_color color)
    else Some pl
  else Some pl.

Definition rasterize (payload : Payload) (shader : Shader) (pl : Pipeline)
  : option Pipeline :=
  let screen_pos := fun i => screen_position pl (homo_coords payload i) in
  box ← bounding_box pl screen_pos;
  for_loopM (y_min box) (y_max box + 1)
    (fun y pl =>
       for_loopM (x_min box) (x_max box + 1)
         (fun x pl => rasterize_pixel payload shader screen_pos y x pl) pl)
    pl.

(** [prepareVertex]: the three slots of side b named by [tri_index] go to
    the shader, and their positions to [payload.homo_coords]. *)
Definition prepare_slot (tri_index : Z -> Z) (i : Z) (st : Payload * ShaderSlots)
  : Payload * ShaderSlots :=
  let '(payload, sh) := st in
  let sh :=
    mkShaderSlots (<[i := clipped_coords_b payload (tri_index i)]> (sh_homo_coords sh))
                  (<[i := clipped_world_coords_b payload (tri_index i)]> (sh_world_coords sh))
                  (<[i := clipped_normals_b payload (tri_index i)]> (sh_normals sh))
                  (<[i := clipped_uvs_b payload (tri_index i)]> (sh_uvs sh)) in
  (mkPayload (clipped_coords_a payload) (clipped_world_coords_a payload)
             (clipped_normals_a payload) (clipped_uvs_a payload)
             (clipped_coords_b payload) (clipped_world_coords_b payload)
             (clipped_normals_b payload) (clipped_uvs_b payload)
             (<[i := sh_homo_coords sh i]> (homo_coords payload)),
   sh).

Definition with_slots (shader : Shader) (sh : ShaderSlots) : Shader :=
  mkShader sh (vertexShader shader) (fragmentShader shader).

Definition prepareVertex (tri_index : Z -> Z) (payload : Payload) (shader : Shader)
  : Payload * Shader :=
  let '(payload, sh) := for_loop 0 3 (prepare_slot tri_index) (payload, slots shader) in
  (payload, with_slots shader sh).

(** The array [{a, b, c}]. *)
Definition array3 {A : Type} (a b c : A) : Z -> A :=
  fun i => if i =? 0 then a else if i =? 1 then b else c.

(** What the face loop carries from one face to the next: the payload, the
    driver's copy of the shader, and the pipeline's buffers. *)
Definition RenderState : Type := Payload * Shader * Pipeline.

(** The body of the fan loop: [prepareVertex({0, j, j + 1}, ...)] and
    [rasterize]. *)
Definition draw_triangle (tri : Z * Z * Z) (st : RenderState) : option RenderState :=
  let '(payload, shader, pl) := st in
  let '(a, b, c) := tri in
  let '(payload, shader) := prepareVertex (array3 a b c) payload shader in
  pl ← rasterize payload shader pl;
  Some (payload, shader, pl).

(** [for (int j = 1; j < vertex_num - 1; j++)]. *)
Definition render_fan (vertex_num : Z) (st : RenderState) : option RenderState :=
  for_loopM 1 (vertex_num - 1) (fun j st => draw_triangle (0, j, j + 1) st) st.

(** The loop that fills side a with the three vertices of a face. *)
Definition load_vertex (model : Model) (shader : Shader) (face : Face) (j : Z)
    (payload : Payload) : option Payload :=
  v ← vec_get (vertices model) (vertex_index (vertex face j));
  n ← vec_get (normals model) (normal_index (vertex face j));
  uv ← vec_get (uv_coords model) (uv_index (vertex face j));
  Some (mkPayload (<[j := vertexShader shader (slots shader) v]> (clipped_coords_a payload))
                  (<[j := v]> (clipped_world_coords_a payload))
                  (<[j := n]> (clipped_normals_a payload))
                  (<[j := uv]> (clipped_uvs_a payload))
                  (clipped_coords_b payload) (clipped_world_coords_b payload)
                  (clipped_normals_b payload) (clipped_uvs_b payload)
                  (homo_coords payload)).

Section Driver.

Variable MINIMAL_VAL : float.

(** The body of the face loop of [renderingTriangles] for face [i]. *)
Definition render_face (model : Model) (i : Z) (st : RenderState) : option RenderState :=
  let '(payload, shader, pl) := st in
  face ← vec_get (faces model) i;
  payload ← for_loopM 0 3 (load_vertex model shader face) payload;
  let '(vertex_num, payload) := homogeneous_clip MINIMAL_VAL payload in
  render_fan vertex_num (payload, shader, pl).

(** How a run of the face loop ends: it leaves the loop, it runs into
    undefined behaviour, or it is still in the loop when the fuel is spent. *)
Inductive Outcome :=
| Done (st : RenderState)
| Undefined
| OutOfFuel.

(** [for (int i = begin; i < end; i += interval)]; one unit of fuel per
    iteration. *)
Fixpoint face_loop (fuel : nat) (model : Model) (i last interval : Z) (st : RenderState)
  : Outcome :=
  if i <? last then
    match fuel with
    | O => OutOfFuel
    | S fuel' =>
        match render_face model i st with
        | Some st' =>
            match as_int (i + interval) with
            | Some i' => face_loop fuel' model i' last interval st'
            | None => Undefined
            end
        | None => Undefined
        end
    end
  else Done st.

(** [Pipeline::renderingTriangles]; the payload is a local variable, whose
    slots are written before they are read. *)
Definition renderingTriangles (fuel : nat) (pl : Pipeline)
    (first last interval : Z) (model : Model) (shader : Shader) : Outcome :=
  face_loop fuel model first last interval (zero_payload, shader, pl).

Definition renderingModel (fuel : nat) (pl : Pipeline) (model : Model) (shader : Shader)
  : Outcome :=
  renderingTriangles fuel pl 0 (Z.of_nat (length (faces model))) 1 model shader.

End Driver.

(** The sub-triangles of a fan over [n] slots: (0, j, j + 1) for
    j = 1, ..., n - 2. *)
Definition fan_triangles (n : Z) : list (Z * Z * Z) :=
  (fun j => (0, j, j + 1)) <$> seqZ 1 (n - 2).

(** The sub-triangles as the specification words them, with j up to
    n - 1 included. *)
Definition spec_fan_triangles (n : Z) : list (Z * Z * Z) :=
  (fun j => (0, j, j + 1)) <$> seqZ 1 (n - 1).

(** Running a list of steps from left to right, stopping at the first
    undefined one. *)
Fixpoint run_all {A S : Type} (step : A -> S -> option S) (l : list A) (s : S)
  : option S :=
  match l with
  | [] => Some s
  | a :: l' =>
      match step a s with
      | Some s' => run_all step l' s'
      | None => None
      end
  end.

(** The pixels of a box in the order the two loops visit them: rows from
    [y_min] to [y_max], and in a row the columns from [x_min] to [x_max]. *)
Definition box_pixels (b : Box) : list (Z * Z) :=
  y ← seqZ (y_min b) (y_max b + 1 - y_min b);
  (fun x => (y, x)) <$> seqZ (x_min b) (x_max b + 1 - x_min b).

(** A pipeline of 2 by 2 pixels with cleared buffers, and a colour. *)
Definition example_pipeline : Pipeline :=
  mkPipeline 2 2 (replicate 4 (float_of_int 1000)) (replicate 16 0).

Definition example_color : Vector3f :=
  mkVector3f (float_of_int 255) (float_of_int 128) (float_of_int 0).

(** A triangle that covers the centre of pixel (0, 0) of [example_pipeline]:
    (1, 1, 0, -1), (-1, 1, 0, -1), (0, -1, 0, -1); and a fourth position,
    (0, -1, 0.5, -1). *)
Definition example_v0 : Vector4f :=
  mkVector4f (float_of_int 1) (float_of_int 1) (float_of_int 0) (float_of_int (-1)).
Definition example_v1 : Vector4f :=
  mkVector4f (float_of_int (-1)) (float_of_int 1) (float_of_int 0) (float_of_int (-1)).
Definition example_v2 : Vector4f :=
  mkVector4f (float_of_int 0) (float_of_int (-1)) (float_of_int 0) (float_of_int (-1)).
Definition example_v3 : Vector4f :=
  mkVector4f (float_of_int 0) (float_of_int (-1)) (float_of_dyadic 1 (-1))
             (float_of_int (-1)).

(** A payload whose side b holds the four positions and whose
    [homo_coords] hold the first three. *)
Definition example_payload : Payload :=
  mkPayload (fun _ => zero4) (fun _ => zero4) (fun _ => zero3) (fun _ => zero2)
            (<[0 := example_v0]> (<[1 := example_v1]> (<[2 := example_v2]>
               (<[3 := example_v3]> (fun _ => zero4)))))
            (fun _ => zero4) (fun _ => zero3) (fun _ => zero2)
            (array3 example_v0 example_v1 example_v2).

(** A shader whose vertex stage is the identity and whose fragment stage
    returns (300, -5, 128) for every fragment. *)
Definition example_shader : Shader :=
  mkShader (mkShaderSlots (fun _ => zero4) (fun _ => zero4) (fun _ => zero3)
                          (fun _ => zero2))
           (fun _ v => v)
           (fun _ _ _ _ _ =>
              mkVector3f (float_of_int 300) (float_of_int (-5)) (float_of_int 128)).

Definition example_screen : Z -> Vector3f :=
  fun i => screen_position example_pipeline (homo_coords example_payload i).

Definition example_state : RenderState :=
  (example_payload, example_shader, example_pipeline).

(** A model with one face over three vertices. *)
Definition example_model : Model :=
  mkModel [example_v0; example_v1; example_v2] [zero3] [zero2]
          [mkFace (fun j => mkVertexRef j 0 0)].

(** ** The scanline loop of [PNGImage::readPNG]

    What follows the call of [uncompress]: [filtered] is the buffer the
    inflated stream was written to, one filter byte and [data_width] bytes
    per row. A byte is a [Z] in 0..255, a [std::uint32_t] a [Z] reduced
    modulo 2^32. *)

Inductive Result (A : Type) :=
| Ok (a : A)
| Failed
| Fault.
Arguments Ok {A} a.
Arguments Failed {A}.
Arguments Fault {A}.

#[export] Instance result_bind : MBind Result := fun A B k r =>
  match r with
  | Ok a => k a
  | Failed => Failed
  | Fault => Fault
  end.

Fixpoint iterateR {S : Type} (n : nat) (i : Z) (body : Z -> S -> Result S) (s : S)
  : Result S :=
  match n with
  | O => Ok s
  | Datatypes.S n' => s' ← body i s; iterateR n' (i + 1) body s'
  end.

Definition for_loopR {S : Type} (lo hi : Z) (body : Z -> S -> Result S) (s : S)
  : Result S :=
  iterateR (Z.to_nat (hi - lo)) lo body s.

Definition u8 (n : Z) : Z := n mod 256.
Definition u32 (n : Z) : Z := n mod 2 ^ 32.

(** Reading and writing a byte of a heap buffer; out of its bounds the
    behaviour is undefined. *)
Definition buf_get (buf : list Z) (i : Z) : Result Z :=
  match vec_get buf i with
  | Some b => Ok b
  | None => Fault
  end.

Definition buf_set (buf : list Z) (i : Z) (b : Z) : Result (list Z) :=
  match vec_set buf i b with
  | Some buf' => Ok buf'
  | None => Fault
  end.

(** [memcpy(data_.get() + data_begin, filtered_data.get() + filter_begin + 1,
    data_width)]. *)
Definition copy_row (filtered : list Z) (filter_begin data_begin data_width : Z)
    (data : list Z) : Result (list Z) :=
  for_loopR 0 data_width
    (fun t data =>
       b ← buf_get filtered (filter_begin + 1 + t);
       buf_set data (data_begin + t) b)
    data.

(** The choice the loop of filter 4 makes between the byte above and the
    byte to the left. *)
Definition paeth_choice (left up upleft : Z) : Z :=
  let v := Z.abs (left - upleft) in
  let h := Z.abs (up - upleft) in
  if v <? h then up else left.

(** The body of the loop over the rows, for row [i]. *)
Definition unfilter_row (bpp data_width : Z) (filtered : list Z) (i : Z)
    (data : list Z) : Result (list Z) :=
  let data_begin := u32 (i * data_width) in
  let filter_begin := u32 (i * (data_width + 1)) in
  data ← copy_row filtered filter_begin data_begin data_width data;
  filter ← buf_get filtered filter_begin;
  if filter =? 0 then Ok data
  else if filter =? 1 then
    for_loopR (u32 (data_begin + bpp)) (u32 (data_begin + data_width))
      (fun k data =>
         cur ← buf_get data k;
         left ← buf_get data (u32 (k - bpp));
         buf_set data k (u8 (cur + left)))
      data
  else if filter =? 2 then
    if i =? 0 then Failed
    else
      for_loopR data_begin (u32 (data_begin + data_width))
        (fun k data =>
           cur ← buf_get data k;
           up ← buf_get data (u32 (k - data_width));
           buf_set data k (u8 (cur + up)))
        data
  else if filter =? 3 then
    if i =? 0 then Failed
    else
      for_loopR (u32 (data_begin + bpp)) (u32 (data_begin + data_width))
        (fun k data =>
           cur ← buf_get data k;
           left ← buf_get data (u32 (k - bpp));
           up ← buf_get data (u32 (k - data_width));
           buf_set data k (u8 (cur + (left + up) / 2)))
        data
  else if filter =? 4 then
    if i =? 0 then Failed
    else
      for_loopR (u32 (data_begin + bpp)) (u32 (data_begin + data_width))
        (fun k data =>
           left ← buf_get data (u32 (k - bpp));
           upleft ← buf_get data (u32 (u32 (k - data_width) - bpp));
           up ← buf_get data (u32 (k - data_width));
           cur ← buf_get data k;
           buf_set data k (u8 (cur + paeth_choice left up upleft)))
        data
  else Failed.

(** The loop over the rows, on a fresh [data_] of
    [data_width * data_height] bytes; no byte of it is read before the row
    copy has written it. *)
Definition unfilter (true_color : bool) (image_width image_height : Z)
    (filtered : list Z) : Result (list Z) :=
  let bpp := if true_color then 3 else 4 in
  let data_width := u32 (image_width * bpp) in
  let data_height := image_height in
  for_loopR 0 data_height (unfilter_row bpp data_width filtered)
    (replicate (Z.to_nat (u32 (data_width * data_height))) 0).

(** ** The reconstruction functions of the PNG standard

    The five filter types the specification names, as the PNG standard
    defines their reversal: [x] is the filtered byte, [a] the reconstructed
    byte [bpp] places to the left, [b] the byte above and [c] the byte above
    [a]; a byte outside the image counts as 0. *)

Definition paeth_predictor (a b c : Z) : Z :=
  let p := a + b - c in
  let pa := Z.abs (p - a) in
  let pb := Z.abs (p - b) in
  let pc := Z.abs (p - c) in
  if (pa <=? pb) && (pa <=? pc) then a
  else if pb <=? pc then b
  else c.

Definition png_recon (filter x a b c : Z) : option Z :=
  if filter =? 0 then Some x
  else if filter =? 1 then Some (u8 (x + a))
  else if filter =? 2 then Some (u8 (x + b))
  else if filter =? 3 then Some (u8 (x + (a + b) / 2))
  else if filter =? 4 then Some (u8 (x + paeth_predictor a b c))
  else None.

(** Byte [t] of a row, 0 to the left of the row. *)
Definition row_byte (row : list Z) (t : Z) : Z :=
  match vec_get row t with
  | Some b => b
  | None => 0
  end.

(** One scanline, from left to right; [done] holds the bytes reconstructed
    so far. *)
Fixpoint png_recon_row (bpp filter : Z) (prior : list Z) (line : list Z)
    (done : list Z) : option (list Z) :=
  match line with
  | [] => Some done
  | x :: line' =>
      let t := Z.of_nat (length done) in
      match png_recon filter x (row_byte done (t - bpp)) (row_byte prior t)
                      (row_byte prior (t - bpp)) with
      | Some r => png_recon_row bpp filter prior line' (done ++ [r])
      | None => None
      end
  end.

(** The scanlines of an image, each a filter byte and its filtered bytes;
    the row above the first one is all zero. *)
Fixpoint png_unfilter (bpp : Z) (prior : list Z) (rows : list (Z * list Z))
  : option (list Z) :=
  match rows with
  | [] => Some []
  | (filter, line) :: rows' =>
      match png_recon_row bpp filter prior line [] with
      | Some row =>
          match png_unfilter bpp row rows' with
          | Some rest => Some (row ++ rest)
          | None => None
          end
      | None => None
      end
  end.

(** ** The order of the comparisons

    The comparisons of [SpecFloat] on the numbers that are not NaN, as a
    lexicographic order on a key: the sign class (-2 for -infinity, -1 for
    a negative number, 0 for both zeros, 1 for a positive number, 2 for
    +infinity), then the exponent and the mantissa, both negated for a
    negative number. *)

Definition order_key (a : float) : option (Z * Z * Z) :=
  match a with
  | S754_nan => None
  | S754_zero _ => Some (0, 0, 0)
  | S754_infinity s => Some (if s then -2 else 2, 0, 0)
  | S754_finite s m e => Some (if s then (-1, - e, Z.neg m) else (1, e, Z.pos m))
  end.

Definition key_lt (a b : Z * Z * Z) : Prop :=
  let '(a1, a2, a3) := a in
  let '(b1, b2, b3) := b in
  a1 < b1 \/ (a1 = b1 /\ (a2 < b2 \/ (a2 = b2 /\ a3 < b3))).

(** Zero or NaN: what the difference of a number and itself can be. *)
Definition zero_or_nan (a : float) : bool := is_zero a || is_nan a.

(** A binary32 number that is in the format: [valid_binary] of the
    Standard Library. *)
Definition float_valid (a : float) : Prop := valid_binary prec32 emax32 a = true.


(** ** The four attributes of an output slot *)

(** What [clipWithPlane] writes for the edge from slot [i] to slot [j]: the
    four attributes, each interpolated with the ratio of the positions. *)
Definition cut_slot (MINIMAL_VAL : float) (p : Plane) (inp : Streams) (i j : Z)
  : Vector4f * Vector4f * Vector3f * Vector2f :=
  let ratio := get_intersect_ratio MINIMAL_VAL (s_coords inp i) (s_coords inp j) p in
  (vectorInterpolate (s_coords inp i) (s_coords inp j) ratio,
   vectorInterpolate (s_world_coords inp i) (s_world_coords inp j) ratio,
   vectorInterpolate (s_normals inp i) (s_normals inp j) ratio,
   vectorInterpolate (s_uvs inp i) (s_uvs inp j) ratio).

(** Where the four attributes of an output slot come from: all four from
    one input slot that is inside the plane, or all four from the cut of
    the edge between an input slot and the next one. *)
Definition slot_source (MINIMAL_VAL : float) (p : Plane) (inp : Streams) (n : Z)
    (v : Vector4f * Vector4f * Vector3f * Vector2f) : Prop :=
  (exists j, 0 <= j < n /\ is_inside_plane MINIMAL_VAL p (s_coords inp j) = true
             /\ v = vertex_at inp j)
  \/ (exists i, 0 <= i < n
                /\ crosses MINIMAL_VAL p (s_coords inp i) (s_coords inp (Z.rem (i + 1) n))
                /\ v = cut_slot MINIMAL_VAL p inp i (Z.rem (i + 1) n)).

(** ** What a draw leaves alone *)

(** A depth entry after a draw: the entry before, or a smaller one. *)
Definition depth_le (new old : float) : Prop := new = old \/ flt new old = true.

(** The dimensions, the sizes of the two buffers and the fourth byte of
    every pixel are those of [pl], and no depth entry is larger. *)
Definition pipeline_kept (pl pl' : Pipeline) : Prop :=
  width pl' = width pl /\ height pl' = height pl
  /\ length (zbuffer pl') = length (zbuffer pl)
  /\ length (framebuffer pl') = length (framebuffer pl)
  /\ (forall j, j mod 4 = 3 -> vec_get (framebuffer pl') j = vec_get (framebuffer pl) j)
  /\ Forall2 depth_le (zbuffer pl') (zbuffer pl).

(** The two sides of the payload and the two functions of the shader are
    those of [st]. *)
Definition polygon_kept (st st' : RenderState) : Prop :=
  side_a (fst (fst st')) = side_a (fst (fst st))
  /\ side_b (fst (fst st')) = side_b (fst (fst st))
  /\ vertexShader (snd (fst st')) = vertexShader (snd (fst st))
  /\ fragmentShader (snd (fst st')) = fragmentShader (snd (fst st)).

(** The pipeline a run of the face loop ends with. *)
Definition final_pipeline (o : Outcome) : option Pipeline :=
  match o with
  | Done st => Some (snd st)
  | _ => None
  end.

(** The bounding box lies on the screen. *)
Definition box_on_screen (pl : Pipeline) (b : Box) : Prop :=
  0 <= x_min b /\ x_max b < width pl /\ 0 <= y_min b /\ y_max b < height pl.

(** The two buffers have the sizes the constructor [Pipeline::Pipeline]
    gives them: [width * height] and [4 * width * height]. *)
Definition buffers_sized (pl : Pipeline) : Prop :=
  Z.of_nat (length (zbuffer pl)) = width pl * height pl
  /\ Z.of_nat (length (framebuffer pl)) = 4 * width pl * height pl.

(** [example_pipeline] after the triangle of [example_payload] has been
    drawn with [example_shader]: pixel (0, 0) is covered. *)
Definition example_drawn : Pipeline :=
  mkPipeline 2 2
    [float_of_int 1; float_of_int 1000; float_of_int 1000; float_of_int 1000]
    [0; 0; 0; 0; 0; 0; 0; 0; 128; 0; 255; 0; 0; 0; 0; 0].

(** [example_state] after the sub-triangle (0, 1, 2) has been drawn. *)
Definition example_state_drawn : RenderState :=
  (fst (prepareVertex (array3 0 1 2) example_payload example_shader),
   snd (prepareVertex (array3 0 1 2) example_payload example_shader),
   example_drawn).

(** A payload whose three [homo_coords] are the same position. *)
Definition point_payload : Payload :=
  mkPayload (fun _ => zero4) (fun _ => zero4) (fun _ => zero3) (fun _ => zero2)
            (fun _ => zero4) (fun _ => zero4) (fun _ => zero3) (fun _ => zero2)
            (fun _ => example_v0).

(** ** Byte order in [png_image.cc] *)

Definition u64 (n : Z) : Z := n mod 2 ^ 64.

Definition kPngSign : Z := 0x89504e470d0a1a0a.

(** [reverseEndian(std::uint64_t)]; a left shift wraps at 64 bits. *)
Definition reverseEndian64 (val : Z) : Z :=
  let fmt1 := 0x00ff00ff00ff00ff in
  let fmt2 := 0x0000ffff0000ffff in
  let fmt3 := 0x00000000ffffffff in
  let val := Z.lor (u64 (Z.shiftl (Z.land val fmt1) 8))
                   (Z.shiftr (Z.land val (u64 (Z.shiftl fmt1 8))) 8) in
  let val := Z.lor (u64 (Z.shiftl (Z.land val fmt2) 16))
                   (Z.shiftr (Z.land val (u64 (Z.shiftl fmt2 16))) 16) in
  let val := Z.lor (u64 (Z.shiftl (Z.land val fmt3) 32))
                   (Z.shiftr (Z.land val (u64 (Z.shiftl fmt3 32))) 32) in
  val.

(** [reverseEndian(std::uint32_t)]; a left shift wraps at 32 bits. *)
Definition reverseEndian32 (val : Z) : Z :=
  let fmt1 := 0x00ff00ff in
  let fmt2 := 0x0000ffff in
  let val := Z.lor (u32 (Z.shiftl (Z.land val fmt1) 8))
                   (Z.shiftr (Z.land val (u32 (Z.shiftl fmt1 8))) 8) in
  let val := Z.lor (u32 (Z.shiftl (Z.land val fmt2) 16))
                   (Z.shiftr (Z.land val (u32 (Z.shiftl fmt2 16))) 16) in
  val.

Definition is_byte (b : Z) : Prop := 0 <= b < 256.

(** The value of an unsigned integer whose bytes in memory, from the lowest
    address, are [bytes]: [readPNG] reads the fields of the file into
    integers with [file.read], and the source assumes a little-endian
    host. *)
Definition le_word (bytes : list Z) : Z :=
  fold_right (fun b acc => b + 256 * acc) 0 bytes.

(** The value the same bytes denote in the byte order of the file, the
    most significant byte first. *)
Definition be_word (bytes : list Z) : Z :=
  fold_left (fun acc b => 256 * acc + b) bytes 0.

(** The test of [readPNG] on the first eight bytes of the file:
    [reverseEndian(sign) != kPngSign] fails it. *)
Definition signature_ok (bytes : list Z) : bool :=
  reverseEndian64 (le_word bytes) =? kPngSign.

(** The signature of a PNG file: 89 50 4E 47 0D 0A 1A 0A. *)
Definition png_signature : list Z := [0x89; 0x50; 0x4e; 0x47; 0x0d; 0x0a; 0x1a; 0x0a].

(** The shape of a buffer of bytes: its length, and the range of its
    elements. *)
Definition same_shape (len : nat) (data : list Z) : Prop :=
  length data = len /\ Forall is_byte data.

(** ** The scanlines of an image and the faces of a run *)

(** The inflated stream of an image: for each row its filter byte, then
    its filtered bytes. *)
Fixpoint scanlines (rows : list (Z * list Z)) : list Z :=
  match rows with
  | [] => []
  | (filter, line) :: rows' => filter :: line ++ scanlines rows'
  end.

(** A step of the scanline loop that fails or goes on with a state that
    satisfies [Inv]: it has not left a buffer. *)
Definition no_fault {T : Type} (Inv : T -> Prop) (r : Result T) : Prop :=
  r = Failed \/ exists s', r = Ok s' /\ Inv s'.

(** The face indices [first], [first + interval], ... below [last]. *)
Definition stride_faces (first last interval : Z) : list Z :=
  (fun k => first + k * interval) <$> seqZ 0 ((last - first + interval - 1) / interval).

(** * Properties *)

(** ** Sums over an index range *)


Lemma sumZ_ext n : forall i g h,
  (forall j, i <= j < i + Z.of_nat n -> g j = h j) ->
  sumZ n i g = sumZ n i h.
Proof.
  induction n as [|n IH]; intros i g h Hgh; simpl; [reflexivity|].
  rewrite (Hgh i) by lia. f_equal. apply IH. intros j Hj. apply Hgh. lia.
Qed.

Lemma sumZ_le n : forall i g h,
  (forall j, i <= j < i + Z.of_nat n -> g j <= h j) ->
  sumZ n i g <= sumZ n i h.
Proof.
  induction n as [|n IH]; intros i g h Hgh; simpl; [lia|].
  assert (g i <= h i) by (apply Hgh; lia).
  assert (sumZ n (i + 1) g <= sumZ n (i + 1) h)
    by (apply IH; intros j Hj; apply Hgh; lia).
  lia.
Qed.

Lemma sumZ_plus n : forall i g h,
  sumZ n i (fun j => g j + h j) = sumZ n i g + sumZ n i h.
Proof.
  induction n as [|n IH]; intros i g h; simpl; [reflexivity|]. rewrite IH. lia.
Qed.

Lemma sumZ_const n c : forall i, sumZ n i (fun _ => c) = Z.of_nat n * c.
Proof.
  induction n as [|n IH]; intros i; simpl sumZ; [lia|]. rewrite IH. lia.
Qed.

Lemma sumZ_snoc n : forall i g,
  sumZ (S n) i g = sumZ n i g + g (i + Z.of_nat n).
Proof.
  induction n as [|n IH]; intros i g.
  - simpl. replace (i + Z.of_nat 0) with i by lia. lia.
  - change (sumZ (S (S n)) i g) with (g i + sumZ (S n) (i + 1) g).
    rewrite IH. simpl sumZ at 2.
    replace (i + 1 + Z.of_nat n) with (i + Z.of_nat (S n)) by lia. lia.
Qed.

Lemma sumZ_shift n : forall i g,
  sumZ n i (fun j => g (j + 1)) = sumZ n (i + 1) g.
Proof.
  induction n as [|n IH]; intros i g; simpl; [reflexivity|]. now rewrite IH.
Qed.

Lemma sumZ_nonneg n : forall i g,
  (forall j, i <= j < i + Z.of_nat n -> 0 <= g j) -> 0 <= sumZ n i g.
Proof.
  intros i g Hg.
  assert (sumZ n i (fun _ => 0) <= sumZ n i g) by (apply sumZ_le; exact Hg).
  rewrite sumZ_const in H. lia.
Qed.

Lemma sumZ_zero_inv n : forall i g,
  (forall j, i <= j < i + Z.of_nat n -> 0 <= g j) ->
  sumZ n i g = 0 ->
  forall j, i <= j < i + Z.of_nat n -> g j = 0.
Proof.
  induction n as [|n IH]; intros i g Hg Hsum j Hj; [lia|].
  simpl in Hsum.
  assert (0 <= g i) by (apply Hg; lia).
  assert (0 <= sumZ n (i + 1) g)
    by (apply sumZ_nonneg; intros k Hk; apply Hg; lia).
  destruct (Z.eq_dec j i) as [->|Hne]; [lia|].
  apply (IH (i + 1) g); [intros k Hk; apply Hg; lia | lia | lia].
Qed.

(** A sum over the successors in a ring of [S k] slots visits every slot
    once. *)
Lemma sumZ_rotate k (h : Z -> Z) :
  sumZ (S k) 0 (fun i => h (Z.rem (i + 1) (Z.of_nat (S k)))) = sumZ (S k) 0 h.
Proof.
  rewrite sumZ_snoc.
  replace (0 + Z.of_nat k + 1) with (Z.of_nat (S k)) by lia.
  rewrite Z.rem_same by lia.
  rewrite (sumZ_ext k 0 _ (fun j => h (j + 1))).
  - rewrite sumZ_shift. simpl. lia.
  - intros j Hj. f_equal. apply Z.rem_small. lia.
Qed.

Lemma ring_count_split (flags : Z -> bool) (n : nat) :
  sumZ n 0 (edge_count flags (Z.of_nat n)) = crossings flags n + inside_count flags n.
Proof.
  unfold edge_count, crossings, inside_count. rewrite sumZ_plus. f_equal.
  destruct n as [|k]; [reflexivity|].
  apply (sumZ_rotate k (fun i => Z.b2z (flags i))).
Qed.

Lemma inside_count_range (flags : Z -> bool) (n : nat) : 0 <= inside_count flags n <= Z.of_nat n.
Proof.
  unfold inside_count. split.
  - apply sumZ_nonneg. intros j _. destruct (flags j); simpl; lia.
  - rewrite <- (Z.mul_1_r (Z.of_nat n)), <- (sumZ_const n 1 0).
    apply sumZ_le. intros j _. destruct (flags j); simpl; lia.
Qed.

Lemma crossings_nonneg (flags : Z -> bool) (n : nat) : 0 <= crossings flags n.
Proof.
  apply sumZ_nonneg. intros j _.
  destruct (xorb _ _); simpl; lia.
Qed.

(** Every crossing has an inside end and an outside end. *)
Lemma crossings_le_inside (flags : Z -> bool) (n : nat) : crossings flags n <= 2 * inside_count flags n.
Proof.
  destruct n as [|k]; [unfold crossings, inside_count; simpl; lia|].
  pose proof (sumZ_rotate k (fun i => Z.b2z (flags i))) as Hrot.
  unfold crossings, inside_count.
  set (nx := fun i => Z.rem (i + 1) (Z.of_nat (S k))) in *.
  assert (sumZ (S k) 0 (fun i => Z.b2z (xorb (flags i) (flags (nx i))))
          <= sumZ (S k) 0
               (fun i => Z.b2z (flags i) + Z.b2z (flags (nx i)))) as Hle.
  { apply sumZ_le. intros j _.
    destruct (flags j), (flags (nx j)); simpl; lia. }
  rewrite sumZ_plus in Hle. subst nx. cbv beta in Hle. rewrite Hrot in Hle. lia.
Qed.

Lemma sumZ_opp n : forall i g,
  sumZ n i (fun j => (-1) * g j) = (-1) * sumZ n i g.
Proof.
  induction n as [|n IH]; intros i g; simpl; [lia|]. rewrite IH. lia.
Qed.

Lemma crossings_le_outside (flags : Z -> bool) (n : nat) :
  crossings flags n <= 2 * (Z.of_nat n - inside_count flags n).
Proof.
  destruct n as [|k]; [unfold crossings, inside_count; simpl; lia|].
  pose proof (sumZ_rotate k (fun i => Z.b2z (flags i))) as Hrot.
  unfold crossings, inside_count.
  set (nx := fun i => Z.rem (i + 1) (Z.of_nat (S k))) in *.
  assert (sumZ (S k) 0 (fun i => Z.b2z (xorb (flags i) (flags (nx i))))
          <= sumZ (S k) 0
               (fun i => (2 + (-1) * Z.b2z (flags i))
                         + (-1) * Z.b2z (flags (nx i)))) as Hle.
  { apply sumZ_le. intros j _.
    destruct (flags j), (flags (nx j)); simpl; lia. }
  rewrite sumZ_plus in Hle.
  rewrite (sumZ_plus _ _ (fun _ => 2) (fun i => (-1) * Z.b2z (flags i))) in Hle.
  rewrite sumZ_const in Hle.
  rewrite (sumZ_opp _ _ (fun i => Z.b2z (flags i))) in Hle.
  rewrite (sumZ_opp _ _ (fun i => Z.b2z (flags (nx i)))) in Hle.
  subst nx. cbv beta in Hle. rewrite Hrot in Hle. lia.
Qed.

(** The crossings of a ring come in pairs: as many lead inside as outside. *)
Lemma crossings_even (flags : Z -> bool) (n : nat) :
  crossings flags n
  = 2 * sumZ n 0 (fun i => Z.b2z (negb (flags i)
                                  && flags (Z.rem (i + 1) (Z.of_nat n)))).
Proof.
  destruct n as [|k]; [reflexivity|].
  pose proof (sumZ_rotate k (fun i => Z.b2z (flags i))) as Hrot.
  unfold crossings.
  set (nx := fun i => Z.rem (i + 1) (Z.of_nat (S k))) in *.
  rewrite (sumZ_ext _ _ _
             (fun i => (Z.b2z (negb (flags i) && flags (nx i))
                        + Z.b2z (negb (flags i) && flags (nx i)))
                       + (Z.b2z (flags i) + (-1) * Z.b2z (flags (nx i))))).
  - rewrite !sumZ_plus.
    rewrite (sumZ_opp _ _ (fun i => Z.b2z (flags (nx i)))).
    subst nx. cbv beta. rewrite Hrot. lia.
  - intros j _. subst nx. cbv beta.
    destruct (flags j), (flags (Z.rem _ _)); simpl; lia.
Qed.

Lemma flags_constant (flags : Z -> bool) (n : nat) :
  (forall i, 0 <= i < Z.of_nat n - 1 -> flags i = flags (i + 1)) ->
  forall j : nat, (j < n)%nat -> flags (Z.of_nat j) = flags 0.
Proof.
  intros Hstep j. induction j as [|j IH]; intros Hj; [reflexivity|].
  rewrite <- IH by lia. rewrite (Hstep (Z.of_nat j)) by lia.
  f_equal. lia.
Qed.

Lemma inside_count_all (flags : Z -> bool) (n : nat) (b : bool) :
  (forall j, 0 <= j < Z.of_nat n -> flags j = b) ->
  inside_count flags n = Z.of_nat n * Z.b2z b.
Proof.
  intros Hall. unfold inside_count.
  rewrite (sumZ_ext _ _ _ (fun _ => Z.b2z b)).
  - apply sumZ_const.
  - intros j Hj. rewrite Hall by lia. reflexivity.
Qed.

(** A ring that has an inside and an outside slot is crossed at least twice. *)
Lemma crossings_mixed (flags : Z -> bool) (n : nat) :
  0 < inside_count flags n < Z.of_nat n -> 2 <= crossings flags n.
Proof.
  intros Hmixed.
  pose proof (crossings_even flags n) as Heven.
  pose proof (crossings_nonneg flags n) as Hpos.
  destruct (Z.eq_dec (crossings flags n) 0) as [Hzero|Hnz]; [exfalso|lia].
  assert (forall i, 0 <= i < Z.of_nat n - 1 -> flags i = flags (i + 1)) as Hstep.
  { intros i Hi.
    assert (Z.b2z (xorb (flags i) (flags (Z.rem (i + 1) (Z.of_nat n)))) = 0) as Hx.
    { apply (sumZ_zero_inv n 0
               (fun i => Z.b2z (xorb (flags i) (flags (Z.rem (i + 1) (Z.of_nat n)))))).
      - intros j _. destruct (xorb _ _); simpl; lia.
      - exact Hzero.
      - lia. }
    rewrite Z.rem_small in Hx by lia.
    destruct (flags i), (flags (i + 1)); simpl in Hx; congruence. }
  assert (forall j, 0 <= j < Z.of_nat n -> flags j = flags 0) as Hall.
  { intros j Hj. rewrite <- (Z2Nat.id j) by lia.
    apply (flags_constant flags n Hstep). lia. }
  rewrite (inside_count_all flags n (flags 0) Hall) in Hmixed.
  destruct (flags 0); simpl in Hmixed; lia.
Qed.

(** The number of slots one pass writes, from the number it reads. *)
Lemma ring_count_bounds (flags : Z -> bool) (n : nat) :
  let n' := sumZ n 0 (edge_count flags (Z.of_nat n)) in
  0 <= n' /\ 2 * n' <= 3 * Z.of_nat n /\
  (Z.of_nat n = 0 \/ 3 <= Z.of_nat n -> n' = 0 \/ 3 <= n').
Proof.
  intros n'. subst n'. rewrite ring_count_split.
  pose proof (inside_count_range flags n) as Hrange.
  pose proof (crossings_nonneg flags n) as Hpos.
  pose proof (crossings_le_inside flags n) as Hin.
  pose proof (crossings_le_outside flags n) as Hout.
  split; [lia|]. split; [lia|].
  intros Hn.
  destruct (Z.eq_dec (inside_count flags n) 0) as [H0|H0]; [left; lia|].
  destruct (Z.eq_dec (inside_count flags n) (Z.of_nat n)) as [Hfull|Hfull];
    [right; lia|].
  pose proof (crossings_mixed flags n) as Hmix. right. lia.
Qed.

(** ** The vertex count of the clipper *)

Section ClipperCount.

Variable MINIMAL_VAL : float.

Lemma fst_clip_edge p n inp i st :
  fst (clip_edge MINIMAL_VAL p n inp i st)
  = fst st + edge_count (inside_flags MINIMAL_VAL p inp) n i.
Proof.
  unfold clip_edge, edge_count, inside_flags.
  destruct (is_inside_plane MINIMAL_VAL p (s_coords inp i)),
           (is_inside_plane MINIMAL_VAL p (s_coords inp (Z.rem (i + 1) n)));
    cbn [fst snd negb eqb xorb Z.b2z]; lia.
Qed.

Lemma fst_iterate_clip_edge p n inp k : forall i st,
  fst (iterate k i (clip_edge MINIMAL_VAL p n inp) st)
  = fst st + sumZ k i (edge_count (inside_flags MINIMAL_VAL p inp) n).
Proof.
  induction k as [|k IH]; intros i st; simpl; [lia|].
  rewrite IH, fst_clip_edge. lia.
Qed.

Lemma clipWithPlane_fst p n payload :
  fst (clipWithPlane MINIMAL_VAL p n payload)
  = sumZ (Z.to_nat n) 0 (edge_count (inside_flags MINIMAL_VAL p (read_side p payload)) n).
Proof.
  unfold clipWithPlane, read_side, plane_is_odd, for_loop.
  destruct (iterate _ _ _ _) as [num out'] eqn:Hloop. cbn [fst].
  change num with (fst (num, out')). rewrite <- Hloop.
  rewrite fst_iterate_clip_edge. cbn [fst]. now rewrite Z.sub_0_r.
Qed.

(** One pass: the count stays 0 or at least 3, and grows by at most half. *)
Lemma clipWithPlane_count p n payload :
  0 <= n ->
  let n' := fst (clipWithPlane MINIMAL_VAL p n payload) in
  0 <= n' /\ 2 * n' <= 3 * n /\ (n = 0 \/ 3 <= n -> n' = 0 \/ 3 <= n').
Proof.
  intros Hn n'. subst n'. rewrite clipWithPlane_fst.
  pose proof (ring_count_bounds (inside_flags MINIMAL_VAL p (read_side p payload)) (Z.to_nat n)) as H.
  rewrite Z2Nat.id in H by lia. exact H.
Qed.

Lemma homogeneous_clip_planes payload :
  homogeneous_clip MINIMAL_VAL payload
  = clip_planes MINIMAL_VAL all_planes (3, payload).
Proof.
  unfold homogeneous_clip, clip_planes, all_planes. cbn [fold_left fst snd].
  repeat (destruct (clipWithPlane _ _ _ _) as [? ?]; cbn [fst snd]).
  reflexivity.
Qed.

Lemma clip_planes_count planes : forall st bound,
  0 <= fst st <= bound ->
  (fst st = 0 \/ 3 <= fst st) ->
  let n' := fst (clip_planes MINIMAL_VAL planes st) in
  (n' = 0 \/ 3 <= n') /\
  0 <= n' <= fold_left (fun b _ => 3 * b / 2) planes bound.
Proof.
  induction planes as [|p planes IH]; intros st bound Hrange Hshape; simpl.
  - split; [exact Hshape | exact Hrange].
  - pose proof (clipWithPlane_count p (fst st) (snd st) (proj1 Hrange))
      as (Hpos & Hgrow & Hkeep).
    apply IH; simpl.
    + split; [exact Hpos|]. apply Z.div_le_lower_bound; lia.
    + apply Hkeep, Hshape.
Qed.

End ClipperCount.

(** X21. The count the clipper returns is 0 or lies in 3..42: it is never 1
    and never 2, whatever the interpolation and [MINIMAL_VAL] are. One pass
    turns n slots into at most 3n/2, since every slot it writes is an inside
    slot or the cut of a crossing edge and the crossing edges come in pairs;
    so seven passes turn 3 slots into at most 42. *)
Theorem homogeneous_clip_count (MINIMAL_VAL : float) (payload : Payload) :
  let n := fst (homogeneous_clip MINIMAL_VAL payload) in
  n = 0 \/ 3 <= n <= 42.
Proof.
  intros n. subst n. rewrite homogeneous_clip_planes.
  pose proof (clip_planes_count MINIMAL_VAL all_planes (3, payload) 3) as H.
  cbn [fst] in H. specialize (H ltac:(lia) ltac:(lia)).
  destruct H as [[H0|H3] [_ Hup]]; [left; exact H0|right].
  split; [exact H3|]. exact Hup.
Qed.

(** ** Passes that meet at most two crossing edges *)

Lemma clipWithPlane_few_crossings (MINIMAL_VAL : float) p n payload :
  0 <= n ->
  crossings (inside_flags MINIMAL_VAL p (read_side p payload)) (Z.to_nat n) <= 2 ->
  fst (clipWithPlane MINIMAL_VAL p n payload) <= n + 1.
Proof.
  intros Hn Hc. rewrite clipWithPlane_fst.
  pose proof (ring_count_split (inside_flags MINIMAL_VAL p (read_side p payload))
                (Z.to_nat n)) as Hsplit.
  rewrite Z2Nat.id in Hsplit by lia. rewrite Hsplit.
  pose proof (inside_count_range (inside_flags MINIMAL_VAL p (read_side p payload))
                (Z.to_nat n)) as Hrange.
  pose proof (crossings_le_outside (inside_flags MINIMAL_VAL p (read_side p payload))
                (Z.to_nat n)) as Hout.
  rewrite Z2Nat.id in Hrange, Hout by lia. lia.
Qed.

Lemma clip_planes_few_crossings (MINIMAL_VAL : float) planes : forall st bound,
  0 <= fst st <= bound ->
  few_crossings MINIMAL_VAL planes st ->
  fst (clip_planes MINIMAL_VAL planes st) <= bound + Z.of_nat (length planes).
Proof.
  induction planes as [|p planes IH]; intros st bound Hrange Hfew.
  - cbn. lia.
  - destruct Hfew as [Hc Hrest].
    pose proof (clipWithPlane_count MINIMAL_VAL p (fst st) (snd st) (proj1 Hrange))
      as (Hpos & _ & _).
    pose proof (clipWithPlane_few_crossings MINIMAL_VAL p (fst st) (snd st)
                  (proj1 Hrange) Hc) as Hup.
    change (clip_planes MINIMAL_VAL (p :: planes) st)
      with (clip_planes MINIMAL_VAL planes (clipWithPlane MINIMAL_VAL p (fst st) (snd st))).
    specialize (IH _ (bound + 1) ltac:(split; [exact Hpos|lia]) Hrest).
    cbn [length]. lia.
Qed.

(** X22. When no pass meets more than two edges whose ends lie on different
    sides of its plane, each pass adds at most one slot, and the count the
    clipper returns is 0 or lies in 3..10. *)
Theorem homogeneous_clip_few_crossings (MINIMAL_VAL : float) (payload : Payload) :
  few_crossings MINIMAL_VAL all_planes (3, payload) ->
  let n := fst (homogeneous_clip MINIMAL_VAL payload) in
  n = 0 \/ 3 <= n <= 10.
Proof.
  intros Hfew n. subst n. rewrite homogeneous_clip_planes.
  pose proof (clip_planes_count MINIMAL_VAL all_planes (3, payload) 3) as H.
  cbn [fst] in H. specialize (H ltac:(lia) ltac:(lia)).
  pose proof (clip_planes_few_crossings MINIMAL_VAL all_planes (3, payload) 3
                ltac:(cbn [fst]; lia) Hfew) as Hup.
  change (Z.of_nat (length all_planes)) with 7 in Hup.
  destruct H as [[H0|H3] _]; [left; exact H0|right]. lia.
Qed.

(** ** The plane table *)

Lemma is_inside_plane_table MINIMAL_VAL plane v :
  is_inside_plane MINIMAL_VAL plane v = row_inside (plane_table MINIMAL_VAL plane) v.
Proof. destruct plane; reflexivity. Qed.

Lemma get_intersect_ratio_table MINIMAL_VAL plane p c :
  get_intersect_ratio MINIMAL_VAL p c plane
  = fdiv (row_numerator (plane_table MINIMAL_VAL plane) p)
         (row_denominator (plane_table MINIMAL_VAL plane) p c).
Proof. destruct plane; reflexivity. Qed.

(** C2. For each of the seven planes the inside test and the intersection
    ratio of the code are the expressions of the plane table, and the clipper
    runs the planes in the order MINIMAL, RIGHT, LEFT, TOP, BOTTOM, NEAR, FAR,
    each on the count the previous one returned. *)
Theorem plane_table_refined (MINIMAL_VAL : float) :
  (forall plane v,
      is_inside_plane MINIMAL_VAL plane v = row_inside (plane_table MINIMAL_VAL plane) v)
  /\ (forall plane p c,
        get_intersect_ratio MINIMAL_VAL p c plane
        = fdiv (row_numerator (plane_table MINIMAL_VAL plane) p)
               (row_denominator (plane_table MINIMAL_VAL plane) p c))
  /\ (forall payload,
        homogeneous_clip MINIMAL_VAL payload
        = clip_planes MINIMAL_VAL [MINIMAL; RIGHT; LEFT; TOP; BOTTOM; NEAR; FAR]
            (3, payload)).
Proof.
  split; [|split].
  - apply is_inside_plane_table.
  - apply get_intersect_ratio_table.
  - intros payload. apply homogeneous_clip_planes.
Qed.

(** ** What the passes write *)

Lemma store_keeps (P : Vector4f -> Prop) out num c w nn u :
  (forall k, 0 <= k < num -> P (s_coords out k)) ->
  P c ->
  forall k, 0 <= k < num + 1 -> P (s_coords (store out num c w nn u) k).
Proof.
  intros Hold Hc k Hk. unfold store. cbn [s_coords].
  destruct (decide (num = k)) as [->|Hne].
  - rewrite fn_lookup_insert. exact Hc.
  - rewrite fn_lookup_insert_ne by exact Hne. apply Hold. lia.
Qed.

Section ClipperProvenance.

Variable MINIMAL_VAL : float.

Lemma clip_edge_written p n inp i st :
  0 <= i < n ->
  0 <= fst st ->
  (forall k, 0 <= k < fst st ->
             written_by MINIMAL_VAL p (s_coords inp) n (s_coords (snd st) k)) ->
  forall k, 0 <= k < fst (clip_edge MINIMAL_VAL p n inp i st) ->
            written_by MINIMAL_VAL p (s_coords inp) n
              (s_coords (snd (clip_edge MINIMAL_VAL p n inp i st)) k).
Proof.
  intros Hi Hnum Hold.
  assert (0 <= Z.rem (i + 1) n < n) as Hv2 by (apply Z.rem_bound_pos; lia).
  assert (forall b, is_inside_plane MINIMAL_VAL p (s_coords inp (Z.rem (i + 1) n)) = b ->
                    b = true ->
                    written_by MINIMAL_VAL p (s_coords inp) n
                      (s_coords inp (Z.rem (i + 1) n))) as Hcopy.
  { intros b Hb ->. left. exists (Z.rem (i + 1) n). auto. }
  assert (is_inside_plane MINIMAL_VAL p (s_coords inp i)
          <> is_inside_plane MINIMAL_VAL p (s_coords inp (Z.rem (i + 1) n)) ->
          written_by MINIMAL_VAL p (s_coords inp) n
            (vectorInterpolate (s_coords inp i) (s_coords inp (Z.rem (i + 1) n))
               (get_intersect_ratio MINIMAL_VAL (s_coords inp i)
                  (s_coords inp (Z.rem (i + 1) n)) p))) as Hcut.
  { intros Hne. right. exists i, (Z.rem (i + 1) n). repeat split; auto; lia. }
  unfold clip_edge.
  destruct (is_inside_plane MINIMAL_VAL p (s_coords inp i)) eqn:E1,
           (is_inside_plane MINIMAL_VAL p (s_coords inp (Z.rem (i + 1) n))) eqn:E2;
    cbn [negb eqb fst snd].
  - apply store_keeps; [exact Hold | eapply Hcopy; eauto].
  - apply store_keeps; [exact Hold | apply Hcut; discriminate].
  - apply store_keeps; [|eapply Hcopy; eauto].
    apply store_keeps; [exact Hold | apply Hcut; discriminate].
  - exact Hold.
Qed.

Lemma iterate_clip_edge_written p n inp k : forall i st,
  0 <= i -> i + Z.of_nat k <= n ->
  0 <= fst st ->
  (forall j, 0 <= j < fst st ->
             written_by MINIMAL_VAL p (s_coords inp) n (s_coords (snd st) j)) ->
  forall j, 0 <= j < fst (iterate k i (clip_edge MINIMAL_VAL p n inp) st) ->
            written_by MINIMAL_VAL p (s_coords inp) n
              (s_coords (snd (iterate k i (clip_edge MINIMAL_VAL p n inp) st)) j).
Proof.
  induction k as [|k IH]; intros i st Hi Hend Hnum Hold; [exact Hold|].
  cbn [iterate]. apply IH; [lia | lia | | ].
  - rewrite fst_clip_edge. unfold edge_count, inside_flags.
    destruct (xorb _ _), (is_inside_plane _ _ _); cbn [Z.b2z]; lia.
  - apply clip_edge_written; [lia | exact Hnum | exact Hold].
Qed.

Lemma write_side_loop p n payload :
  write_side p (snd (clipWithPlane MINIMAL_VAL p n payload))
  = snd (for_loop 0 n (clip_edge MINIMAL_VAL p n (read_side p payload))
           (0, write_side p payload)).
Proof.
  unfold clipWithPlane, write_side, read_side, plane_is_odd.
  destruct (negb (Z.rem (plane_index p) 2 =? 0));
    destruct (for_loop _ _ _ _) as [num [c w nn u]]; reflexivity.
Qed.

Lemma fst_clipWithPlane_loop p n payload :
  fst (clipWithPlane MINIMAL_VAL p n payload)
  = fst (for_loop 0 n (clip_edge MINIMAL_VAL p n (read_side p payload))
           (0, write_side p payload)).
Proof.
  unfold clipWithPlane, write_side, read_side, plane_is_odd.
  destruct (negb (Z.rem (plane_index p) 2 =? 0));
    destruct (for_loop _ _ _ _) as [num out']; reflexivity.
Qed.

(** One pass: every slot it wrote holds a copy of an inside input slot or
    the cut of an edge. *)
Lemma clipWithPlane_written p n payload :
  forall k, 0 <= k < fst (clipWithPlane MINIMAL_VAL p n payload) ->
    written_by MINIMAL_VAL p (s_coords (read_side p payload)) n
      (s_coords (write_side p (snd (clipWithPlane MINIMAL_VAL p n payload))) k).
Proof.
  rewrite write_side_loop, fst_clipWithPlane_loop.
  unfold for_loop. rewrite Z.sub_0_r.
  destruct (Z.le_gt_cases 0 n) as [Hn|Hn].
  - apply iterate_clip_edge_written; cbn [fst snd]; lia.
  - replace (Z.to_nat n) with 0%nat by lia. cbn [iterate fst]. lia.
Qed.

Lemma survives_pass input done p inp n v :
  (forall j, 0 <= j < n -> survives MINIMAL_VAL input done (inp j)) ->
  written_by MINIMAL_VAL p inp n v ->
  survives MINIMAL_VAL input (done ++ [p]) v.
Proof.
  intros Hin [(j & Hj & -> & Hinside)|(i & j & Hi & Hj & Hcross & ->)].
  - destruct (Hin j Hj) as [[Hinput Hall]|(before & q & after & v1 & v2 & -> & Hc & Hv & Hall)].
    + left. split; [exact Hinput|]. intros q Hq.
      apply in_app_or in Hq as [Hq|[<-|[]]]; [apply Hall, Hq | exact Hinside].
    + right. exists before, q, (after ++ [p]), v1, v2.
      split; [now rewrite <- app_assoc|]. split; [exact Hc|]. split; [exact Hv|].
      intros r Hr. apply in_app_or in Hr as [Hr|[<-|[]]]; [apply Hall, Hr | exact Hinside].
  - right. exists done, p, [], (inp i), (inp j).
    split; [reflexivity|]. split; [exact Hcross|]. split; [reflexivity|].
    intros q [].
Qed.

Lemma clipWithPlane_survives input done p n payload :
  (forall j, 0 <= j < n ->
             survives MINIMAL_VAL input done (s_coords (read_side p payload) j)) ->
  forall k, 0 <= k < fst (clipWithPlane MINIMAL_VAL p n payload) ->
    survives MINIMAL_VAL input (done ++ [p])
      (s_coords (write_side p (snd (clipWithPlane MINIMAL_VAL p n payload))) k).
Proof.
  intros Hin k Hk.
  eapply survives_pass; [exact Hin|]. apply clipWithPlane_written, Hk.
Qed.

End ClipperProvenance.


(** One pass of the chain: from what holds of the slots a plane reads to
    what holds of the slots it wrote. *)
Ltac clip_pass H p done :=
  match goal with
  | |- context [clipWithPlane ?e p ?n ?pl] =>
      let r := fresh "r" in
      let H' := fresh "H" in
      pose proof (clipWithPlane_survives e _ done p n pl H) as H';
      set (r := clipWithPlane e p n pl) in *; clearbody r; clear H; rename H' into H
  end.

(** C5, as amended. Every position of the output polygon is either a
    position of the input triangle that satisfies the inside test of all
    seven planes, or the cut of an edge by one of the planes that satisfies
    the inside test of every plane processed after that one. The cut itself
    is not tested against the plane that made it, nor against the earlier
    ones. *)
Theorem clipped_vertices_survive (MINIMAL_VAL : float) (payload : Payload) :
  let r := homogeneous_clip MINIMAL_VAL payload in
  Forall (survives MINIMAL_VAL
            (fun v => exists j, 0 <= j < 3 /\ v = clipped_coords_a payload j)
            all_planes)
         (polygon (side_b (snd r)) (fst r)).
Proof.
  intros r. subst r. unfold polygon.
  rewrite Forall_fmap, Forall_seqZ. unfold compose.
  rewrite homogeneous_clip_planes. unfold clip_planes, all_planes.
  cbn [fold_left fst snd]. rewrite Z.add_0_l.
  set (input := fun v => exists j, 0 <= j < 3 /\ v = clipped_coords_a payload j).
  assert (forall j, 0 <= j < 3 ->
            survives MINIMAL_VAL input [] (s_coords (read_side MINIMAL payload) j)) as H.
  { intros j Hj. left. split; [exists j; split; [exact Hj|reflexivity] | intros p []]. }
  clip_pass H MINIMAL (@nil Plane).
  clip_pass H RIGHT [MINIMAL].
  clip_pass H LEFT [MINIMAL; RIGHT].
  clip_pass H TOP [MINIMAL; RIGHT; LEFT].
  clip_pass H BOTTOM [MINIMAL; RIGHT; LEFT; TOP].
  clip_pass H NEAR [MINIMAL; RIGHT; LEFT; TOP; BOTTOM].
  clip_pass H FAR [MINIMAL; RIGHT; LEFT; TOP; BOTTOM; NEAR].
  exact H.
Qed.

Lemma polygon_Forall (P : Vector4f -> Prop) (s : Streams) (n : Z) :
  Forall P (polygon s n) <-> forall k, 0 <= k < n -> P (s_coords s k).
Proof.
  unfold polygon. rewrite Forall_fmap, Forall_seqZ. unfold compose.
  split; intros H k Hk; apply H; lia.
Qed.

Lemma not_contained_at MINIMAL_VAL (r : Z * Payload) (k : Z) (p : Plane) :
  0 <= k < fst r ->
  is_inside_plane MINIMAL_VAL p (clipped_coords_b (snd r) k) = false ->
  ~ Forall (fun v => forall p, is_inside_plane MINIMAL_VAL p v = true)
           (polygon (side_b (snd r)) (fst r)).
Proof.
  intros Hk Hout Hall. rewrite polygon_Forall in Hall.
  specialize (Hall k Hk p). cbn [side_b s_coords] in Hall. congruence.
Qed.

Lemma thirds_triangle_count :
  fst (homogeneous_clip MINIMAL_VAL_f32 thirds_triangle) = 4.
Proof. vm_compute. reflexivity. Qed.

Lemma thirds_triangle_last :
  clipped_coords_b (snd (homogeneous_clip MINIMAL_VAL_f32 thirds_triangle)) 3
  = mkVector4f (S754_finite true 11184811 (-23)) (S754_zero false)
               (S754_zero false) (S754_finite true 11184810 (-23)).
Proof. vm_compute. reflexivity. Qed.

(** C5, the claim as stated fails: for the triangle (-2, 0, 0, -2),
    (0, 0, 0, -2), (-2, 0, 0, -1) the clipper returns four vertices, and the
    last one, the cut of the edge from the second to the third vertex by
    RIGHT at the ratio 2/3, has x = -11184811 * 2^-23 below
    w = -11184810 * 2^-23: it fails the inside test of RIGHT. *)
Lemma thirds_triangle_not_contained :
  let r := homogeneous_clip MINIMAL_VAL_f32 thirds_triangle in
  fst r = 4
  /\ clipped_coords_b (snd r) 3
     = mkVector4f (S754_finite true 11184811 (-23)) (S754_zero false)
                  (S754_zero false) (S754_finite true 11184810 (-23))
  /\ is_inside_plane MINIMAL_VAL_f32 RIGHT (clipped_coords_b (snd r) 3) = false
  /\ ~ Forall (fun v => forall p, is_inside_plane MINIMAL_VAL_f32 p v = true)
              (polygon (side_b (snd r)) (fst r)).
Proof.
  cbv zeta.
  assert (is_inside_plane MINIMAL_VAL_f32 RIGHT
            (clipped_coords_b (snd (homogeneous_clip MINIMAL_VAL_f32 thirds_triangle)) 3)
          = false) as Hout by (rewrite thirds_triangle_last; vm_compute; reflexivity).
  split; [exact thirds_triangle_count|]. split; [exact thirds_triangle_last|].
  split; [exact Hout|].
  apply (not_contained_at _ _ 3 RIGHT); [|exact Hout].
  rewrite thirds_triangle_count. lia.
Qed.

(** ** A triangle inside every plane *)

Section InsideTriangle.

Variable MINIMAL_VAL : float.

Lemma clip_edge_inside p n inp i st :
  is_inside_plane MINIMAL_VAL p (s_coords inp i) = true ->
  is_inside_plane MINIMAL_VAL p (s_coords inp (Z.rem (i + 1) n)) = true ->
  clip_edge MINIMAL_VAL p n inp i st
  = (fst st + 1,
     store (snd st) (fst st)
       (s_coords inp (Z.rem (i + 1) n)) (s_world_coords inp (Z.rem (i + 1) n))
       (s_normals inp (Z.rem (i + 1) n)) (s_uvs inp (Z.rem (i + 1) n))).
Proof. intros H1 H2. unfold clip_edge. rewrite H1, H2. reflexivity. Qed.

Lemma vertex_at_store out num c w nn u k :
  vertex_at (store out num c w nn u) k
  = if decide (num = k) then (c, w, nn, u) else vertex_at out k.
Proof.
  unfold vertex_at, store. cbn [s_coords s_world_coords s_normals s_uvs].
  destruct (decide (num = k)) as [->|Hne].
  - now rewrite !fn_lookup_insert.
  - now rewrite !fn_lookup_insert_ne by exact Hne.
Qed.

(** One pass over a triangle that is inside the plane: three slots, the
    input turned by one place. *)
Lemma clipWithPlane_inside_triangle p payload :
  (forall j, 0 <= j < 3 ->
             is_inside_plane MINIMAL_VAL p (s_coords (read_side p payload) j) = true) ->
  fst (clipWithPlane MINIMAL_VAL p 3 payload) = 3
  /\ forall k, 0 <= k < 3 ->
       vertex_at (write_side p (snd (clipWithPlane MINIMAL_VAL p 3 payload))) k
       = vertex_at (read_side p payload) (Z.rem (k + 1) 3).
Proof.
  intros Hin.
  rewrite write_side_loop, fst_clipWithPlane_loop.
  unfold for_loop. change (Z.to_nat (3 - 0)) with 3%nat. cbn [iterate].
  rewrite (clip_edge_inside p 3 _ 0) by (apply Hin; vm_compute; split; congruence).
  rewrite (clip_edge_inside p 3 _ (0 + 1)) by (apply Hin; vm_compute; split; congruence).
  rewrite (clip_edge_inside p 3 _ (0 + 1 + 1)) by (apply Hin; vm_compute; split; congruence).
  cbn [fst snd]. split; [reflexivity|].
  intros k Hk. rewrite !vertex_at_store.
  assert (k = 0 \/ k = 1 \/ k = 2) as [Hk0|[Hk1|Hk2]] by lia; subst k; reflexivity.
Qed.

Lemma pass_inside_triangle (input : Streams) i p n payload :
  (forall q j, 0 <= j < 3 -> is_inside_plane MINIMAL_VAL q (s_coords input j) = true) ->
  0 <= i ->
  n = 3 ->
  (forall k, 0 <= k < 3 ->
     vertex_at (read_side p payload) k = vertex_at input (Z.rem (k + i) 3)) ->
  fst (clipWithPlane MINIMAL_VAL p n payload) = 3
  /\ forall k, 0 <= k < 3 ->
       vertex_at (write_side p (snd (clipWithPlane MINIMAL_VAL p n payload))) k
       = vertex_at input (Z.rem (k + (i + 1)) 3).
Proof.
  intros Hin Hi -> Hread.
  destruct (clipWithPlane_inside_triangle p payload) as [Hn Hv].
  - intros j Hj. specialize (Hread j Hj). unfold vertex_at in Hread.
    injection Hread as -> _ _ _. apply Hin. apply Z.rem_bound_pos; lia.
  - split; [exact Hn|]. intros k Hk. rewrite (Hv k Hk).
    assert (0 <= Z.rem (k + 1) 3 < 3) as Hrem by (apply Z.rem_bound_pos; lia).
    rewrite Hread by exact Hrem. f_equal.
    rewrite (Z.rem_mod_nonneg (Z.rem (k + 1) 3 + i)) by lia.
    rewrite (Z.rem_mod_nonneg (k + 1)) by lia.
    rewrite (Z.rem_mod_nonneg (k + (i + 1))) by lia.
    rewrite Zplus_mod_idemp_l. f_equal. lia.
Qed.

End InsideTriangle.

Ltac triangle_pass Hin Hn Hv p i :=
  match goal with
  | |- context [clipWithPlane ?e p ?n ?pl] =>
      let r := fresh "r" in
      let Hn' := fresh "Hn" in
      let Hv' := fresh "Hv" in
      destruct (pass_inside_triangle e _ i p n pl Hin ltac:(lia) Hn Hv) as [Hn' Hv'];
      set (r := clipWithPlane e p n pl) in *; clearbody r; clear Hn Hv;
      rename Hn' into Hn; rename Hv' into Hv
  end.

(** C3, as amended. A triangle whose three positions satisfy the inside test
    of all seven planes comes out of the clipper with count 3 and with its
    three vertices unchanged in all four attributes; each pass turns the
    polygon by one place, so that after seven passes slot k of side b holds
    input vertex (k + 1) mod 3. *)
Theorem homogeneous_clip_inside_triangle (MINIMAL_VAL : float) (payload : Payload) :
  (forall p j, 0 <= j < 3 ->
     is_inside_plane MINIMAL_VAL p (clipped_coords_a payload j) = true) ->
  let r := homogeneous_clip MINIMAL_VAL payload in
  fst r = 3
  /\ forall k, 0 <= k < 3 ->
       vertex_at (side_b (snd r)) k = vertex_at (side_a payload) (Z.rem (k + 1) 3).
Proof.
  intros Hin r. subst r.
  rewrite homogeneous_clip_planes. unfold clip_planes, all_planes.
  cbn [fold_left fst snd].
  assert (3 = 3) as Hn by reflexivity.
  assert (forall k, 0 <= k < 3 ->
            vertex_at (read_side MINIMAL payload) k
            = vertex_at (side_a payload) (Z.rem (k + 0) 3)) as Hv.
  { intros k Hk. rewrite Z.add_0_r, Z.rem_small by lia. reflexivity. }
  change (forall q j, 0 <= j < 3 ->
            is_inside_plane MINIMAL_VAL q (s_coords (side_a payload) j) = true) in Hin.
  triangle_pass Hin Hn Hv MINIMAL 0.
  triangle_pass Hin Hn Hv RIGHT 1.
  triangle_pass Hin Hn Hv LEFT 2.
  triangle_pass Hin Hn Hv TOP 3.
  triangle_pass Hin Hn Hv BOTTOM 4.
  triangle_pass Hin Hn Hv NEAR 5.
  triangle_pass Hin Hn Hv FAR 6.
  split; [exact Hn|]. intros k Hk. refine (eq_trans (Hv k Hk) _). f_equal.
  assert (k = 0 \/ k = 1 \/ k = 2) as [Hk0|[Hk1|Hk2]] by lia; subst k; reflexivity.
Qed.

(** C3, a witness: scenario S1 with w = -1. *)
Lemma homogeneous_clip_inside_triangle_witness :
  let r := homogeneous_clip MINIMAL_VAL_f32 s1_triangle_neg_w in
  fst r = 3
  /\ forall k, 0 <= k < 3 ->
       vertex_at (side_b (snd r)) k
       = vertex_at (side_a s1_triangle_neg_w) (Z.rem (k + 1) 3).
Proof.
  apply homogeneous_clip_inside_triangle.
  intros p j Hj.
  assert (j = 0 \/ j = 1 \/ j = 2) as [Hj0|[Hj1|Hj2]] by lia; subst j;
    destruct p; vm_compute; reflexivity.
Defined.

(** C3, the claim as stated fails: with w = 1 the three vertices of
    scenario S1 fail the MINIMAL test, and the clipper returns 0. *)
Lemma s1_triangle_clipped_away :
  (forall j, 0 <= j < 3 ->
     is_inside_plane MINIMAL_VAL_f32 MINIMAL (clipped_coords_a s1_triangle j) = false)
  /\ fst (homogeneous_clip MINIMAL_VAL_f32 s1_triangle) = 0
  /\ fst (homogeneous_clip MINIMAL_VAL_f32 s1_triangle) <> 3.
Proof.
  assert (fst (homogeneous_clip MINIMAL_VAL_f32 s1_triangle) = 0) as H
    by (vm_compute; reflexivity).
  split; [|split; [exact H | rewrite H; lia]].
  intros j Hj.
  assert (j = 0 \/ j = 1 \/ j = 2) as [Hj0|[Hj1|Hj2]] by lia; subst j;
    vm_compute; reflexivity.
Qed.

(** ** The framebuffer *)

Lemma vec_set_Some {A : Type} (v : list A) (i : Z) (a : A) :
  0 <= i < Z.of_nat (length v) ->
  vec_set v i a = Some (<[Z.to_nat i := a]> v).
Proof.
  intros Hi. unfold vec_set.
  destruct (0 <=? i) eqn:E1; [|lia].
  destruct (i <? Z.of_nat (length v)) eqn:E2; [reflexivity|lia].
Qed.

Lemma vec_get_insert {A : Type} (v : list A) (i j : Z) (a : A) :
  0 <= i < Z.of_nat (length v) ->
  vec_get (<[Z.to_nat i := a]> v) j = if decide (i = j) then Some a else vec_get v j.
Proof.
  intros Hi. unfold vec_get.
  destruct (decide (i = j)) as [->|Hne].
  - destruct (0 <=? j) eqn:E; [|lia]. apply list_lookup_insert_eq. lia.
  - destruct (0 <=? j) eqn:E; [|reflexivity].
    apply list_lookup_insert_ne. lia.
Qed.

Lemma pixel_offset_range (w h x y : Z) :
  0 <= x < w -> 0 <= y < h ->
  0 <= ((h - y - 1) * w + x) * 4 /\ ((h - y - 1) * w + x) * 4 + 3 < 4 * w * h.
Proof. intros Hx Hy. split; nia. Qed.

(** C7. For an in-bounds pixel of a framebuffer of 4 * width * height bytes
    and a colour whose channels convert to the bytes r, g, b, [setColor]
    stores b, g, r at the offsets ((height - y - 1) * width + x) * 4 + 0, 1, 2,
    and every other byte of the framebuffer, the fourth byte of the pixel
    among them, keeps its value; the z-buffer and the dimensions are
    untouched. *)
Theorem setColor_layout (pl : Pipeline) (x y : Z) (color : Vector3f) (r g b : Z) :
  0 <= x < width pl ->
  0 <= y < height pl ->
  Z.of_nat (length (framebuffer pl)) = 4 * width pl * height pl ->
  byte_of_float (v3_get color 0) = Some r ->
  byte_of_float (v3_get color 1) = Some g ->
  byte_of_float (v3_get color 2) = Some b ->
  let index := ((height pl - y - 1) * width pl + x) * 4 in
  exists pl',
    setColor pl x y color = Some pl'
    /\ vec_get (framebuffer pl') index = Some b
    /\ vec_get (framebuffer pl') (index + 1) = Some g
    /\ vec_get (framebuffer pl') (index + 2) = Some r
    /\ vec_get (framebuffer pl') (index + 3) = vec_get (framebuffer pl) (index + 3)
    /\ (forall j, j <> index -> j <> index + 1 -> j <> index + 2 ->
          vec_get (framebuffer pl') j = vec_get (framebuffer pl) j)
    /\ length (framebuffer pl') = length (framebuffer pl)
    /\ zbuffer pl' = zbuffer pl /\ width pl' = width pl /\ height pl' = height pl.
Proof.
  intros Hx Hy Hlen Hr Hg Hb index.
  pose proof (pixel_offset_range (width pl) (height pl) x y Hx Hy) as [Hlo Hhi].
  fold index in Hlo, Hhi.
  unfold setColor. fold index. rewrite Hr, Hg, Hb. cbn [mbind option_bind].
  rewrite vec_set_Some by lia. cbn [mbind option_bind].
  rewrite vec_set_Some by (rewrite length_insert; lia). cbn [mbind option_bind].
  rewrite vec_set_Some by (rewrite !length_insert; lia). cbn [mbind option_bind].
  eexists. split; [reflexivity|]. cbn [framebuffer zbuffer width height].
  assert (forall j,
            vec_get (<[Z.to_nat index := b]>
                       (<[Z.to_nat (index + 1) := g]>
                          (<[Z.to_nat (index + 2) := r]> (framebuffer pl)))) j
            = if decide (index = j) then Some b
              else if decide (index + 1 = j) then Some g
              else if decide (index + 2 = j) then Some r
              else vec_get (framebuffer pl) j) as Hget.
  { intros j.
    rewrite vec_get_insert by (rewrite !length_insert; lia).
    destruct (decide (index = j)); [reflexivity|].
    rewrite vec_get_insert by (rewrite !length_insert; lia).
    destruct (decide (index + 1 = j)); [reflexivity|].
    rewrite vec_get_insert by lia. reflexivity. }
  repeat split.
  - rewrite Hget. destruct (decide (index = index)); [reflexivity|lia].
  - rewrite Hget. repeat (destruct (decide _); try lia). reflexivity.
  - rewrite Hget. repeat (destruct (decide _); try lia). reflexivity.
  - rewrite Hget. repeat (destruct (decide _); try lia). reflexivity.
  - intros j H0 H1 H2. rewrite Hget.
    repeat (destruct (decide _); try lia). reflexivity.
  - now rewrite !length_insert.
Qed.

(** ** The rasterizer *)

Lemma iterateM_run_all {S : Type} (body : Z -> S -> option S) n : forall i s,
  iterateM n i body s = run_all body (seqZ i (Z.of_nat n)) s.
Proof.
  induction n as [|n IH]; intros i s.
  - reflexivity.
  - rewrite seqZ_cons by lia. cbn [iterateM run_all].
    destruct (body i s) as [s'|]; [|reflexivity].
    rewrite IH. do 2 f_equal; lia.
Qed.

Lemma for_loopM_run_all {S : Type} (body : Z -> S -> option S) lo hi s :
  for_loopM lo hi body s = run_all body (seqZ lo (hi - lo)) s.
Proof.
  unfold for_loopM. rewrite iterateM_run_all.
  destruct (Z.le_gt_cases 0 (hi - lo)).
  - now rewrite Z2Nat.id.
  - replace (Z.to_nat (hi - lo)) with 0%nat by lia. now rewrite (seqZ_nil lo (hi - lo)) by lia.
Qed.

Lemma run_all_app {A S : Type} (step : A -> S -> option S) l1 : forall l2 s,
  run_all step (l1 ++ l2) s
  = match run_all step l1 s with Some s' => run_all step l2 s' | None => None end.
Proof.
  induction l1 as [|a l1 IH]; intros l2 s; cbn [app run_all]; [reflexivity|].
  destruct (step a s); [apply IH | reflexivity].
Qed.

Lemma run_all_fmap {A B S : Type} (f : A -> B) (step : B -> S -> option S) l :
  forall s, run_all step (f <$> l) s = run_all (fun a => step (f a)) l s.
Proof.
  induction l as [|a l IH]; intros s; cbn [fmap list_fmap run_all]; [reflexivity|].
  destruct (step (f a) s); [apply IH | reflexivity].
Qed.

Lemma run_all_ext {A S : Type} (f g : A -> S -> option S) l :
  (forall a s, f a s = g a s) -> forall s, run_all f l s = run_all g l s.
Proof.
  intros Hfg. induction l as [|a l IH]; intros s; cbn [run_all]; [reflexivity|].
  rewrite Hfg. destruct (g a s); [apply IH | reflexivity].
Qed.

Lemma run_all_nested {S : Type} (step : Z -> Z -> S -> option S) (xs : list Z) ys :
  forall s,
  run_all (fun y s => run_all (step y) xs s) ys s
  = run_all (fun p => step (fst p) (snd p)) (y ← ys; (fun x => (y, x)) <$> xs) s.
Proof.
  induction ys as [|y ys IH]; intros s; [reflexivity|].
  cbn [run_all mbind list_bind]. rewrite run_all_app, run_all_fmap. cbn [fst snd].
  destruct (run_all (step y) xs s); [apply IH | reflexivity].
Qed.

Lemma vec_get_range {A : Type} (v : list A) (i : Z) (a : A) :
  vec_get v i = Some a -> 0 <= i < Z.of_nat (length v).
Proof.
  unfold vec_get. destruct (0 <=? i) eqn:E; [|discriminate].
  intros H. apply lookup_lt_Some in H. lia.
Qed.

Lemma flt_fle (a b : float) : flt a b = true -> fle a b = true.
Proof.
  unfold flt, fle, SFltb, SFleb. destruct (SFcompare a b) as [[]|]; congruence.
Qed.

Lemma clamp_channel_range (c : float) :
  fle (float_of_int 0) (clamp_channel c) = true
  /\ fle (clamp_channel c) (float_of_int 255) = true.
Proof.
  unfold clamp_channel, fmax, fmin.
  destruct (flt c (float_of_int 255)) eqn:Hhi.
  - destruct (flt (float_of_int 0) c) eqn:Hlo.
    + split; apply flt_fle; assumption.
    + split; reflexivity.
  - split; reflexivity.
Qed.

(** ** The driver *)

(** C6, as amended. The fan loop draws the sub-triangles (0, j, j + 1) for
    j = 1, ..., n - 2, in this order, one call of [prepareVertex] and of
    [rasterize] for each: n - 2 calls when n is at least 3 and none
    otherwise; the body of the face loop runs this fan on the count and
    the payload the clipper returns. *)
Theorem render_fan_triangles (MINIMAL_VAL : float) (model : Model) (i n : Z)
    (st : RenderState) :
  render_fan n st = run_all draw_triangle (fan_triangles n) st
  /\ length (fan_triangles n) = Z.to_nat (n - 2)
  /\ (n < 3 -> render_fan n st = Some st)
  /\ render_face MINIMAL_VAL model i st
     = (face ← vec_get (faces model) i;
        payload ← for_loopM 0 3 (load_vertex model (snd (fst st)) face) (fst (fst st));
        run_all draw_triangle
          (fan_triangles (fst (homogeneous_clip MINIMAL_VAL payload)))
          (snd (homogeneous_clip MINIMAL_VAL payload), snd (fst st), snd st)).
Proof.
  assert (forall m s, render_fan m s = run_all draw_triangle (fan_triangles m) s) as Hfan.
  { intros m s. unfold render_fan, fan_triangles.
    rewrite for_loopM_run_all, run_all_fmap.
    replace (m - 1 - 1) with (m - 2) by lia. reflexivity. }
  split; [apply Hfan|]. split; [|split].
  - unfold fan_triangles. rewrite length_fmap, length_seqZ. reflexivity.
  - intros Hn. rewrite Hfan. unfold fan_triangles.
    rewrite seqZ_nil by lia. reflexivity.
  - unfold render_face. destruct st as [[payload shader] pl]. cbn [fst snd].
    destruct (vec_get (faces model) i) as [face|]; [|reflexivity].
    cbn [mbind option_bind].
    destruct (for_loopM 0 3 _ payload) as [payload'|]; [|reflexivity].
    cbn [mbind option_bind].
    destruct (homogeneous_clip MINIMAL_VAL payload') as [vertex_num payload''].
    cbn [fst snd]. apply Hfan.
Qed.

Lemma as_int_Some (n m : Z) : as_int n = Some m -> m = n.
Proof. unfold as_int. destruct (in_int n); congruence. Qed.

Lemma face_loop_leaves (MINIMAL_VAL : float) (model : Model) (last interval : Z) :
  1 <= interval ->
  forall fuel i st,
    (Z.to_nat (last - i) <= fuel)%nat ->
    face_loop MINIMAL_VAL fuel model i last interval st <> OutOfFuel.
Proof.
  intros Hstep fuel. induction fuel as [|fuel IH]; intros i st Hfuel.
  - cbn [face_loop]. destruct (i <? last) eqn:E; [lia|discriminate].
  - cbn [face_loop]. destruct (i <? last) eqn:E; [|discriminate].
    destruct (render_face MINIMAL_VAL model i st) as [st'|]; [|discriminate].
    destruct (as_int (i + interval)) as [i'|] eqn:Hi; [|discriminate].
    apply as_int_Some in Hi. subst i'. apply IH. lia.
Qed.

Lemma face_loop_stays (MINIMAL_VAL : float) (model : Model) (last interval : Z) :
  interval <= 0 ->
  forall fuel i st,
    i < last ->
    face_loop MINIMAL_VAL fuel model i last interval st = OutOfFuel
    \/ face_loop MINIMAL_VAL fuel model i last interval st = Undefined.
Proof.
  intros Hstep fuel. induction fuel as [|fuel IH]; intros i st Hi.
  - cbn [face_loop]. destruct (i <? last) eqn:E; [|lia]. now left.
  - cbn [face_loop]. destruct (i <? last) eqn:E; [|lia].
    destruct (render_face MINIMAL_VAL model i st) as [st'|]; [|now right].
    destruct (as_int (i + interval)) as [i'|] eqn:Hi'; [|now right].
    apply as_int_Some in Hi'. subst i'. apply IH. lia.
Qed.

(** C10. With [interval >= 1] the face loop leaves after at most
    [end - begin] iterations, whatever the model and the shader: with that
    much fuel or more the run is not cut short. With [interval <= 0] and
    [begin < end] the counter never reaches [end]: whatever the fuel, the run
    is still in the loop or has run into undefined behaviour, and it never
    returns. *)
Theorem renderingTriangles_termination (MINIMAL_VAL : float) (pl : Pipeline)
    (first last interval : Z) (model : Model) (shader : Shader) :
  (1 <= interval ->
   forall fuel, (Z.to_nat (last - first) <= fuel)%nat ->
     renderingTriangles MINIMAL_VAL fuel pl first last interval model shader
     <> OutOfFuel)
  /\ (interval <= 0 -> first < last ->
      forall fuel,
        (renderingTriangles MINIMAL_VAL fuel pl first last interval model shader
         = OutOfFuel
         \/ renderingTriangles MINIMAL_VAL fuel pl first last interval model shader
            = Undefined)
        /\ forall st,
             renderingTriangles MINIMAL_VAL fuel pl first last interval model shader
             <> Done st).
Proof.
  split.
  - intros Hstep fuel Hfuel. unfold renderingTriangles.
    apply face_loop_leaves; assumption.
  - intros Hstep Hlt fuel. unfold renderingTriangles.
    pose proof (face_loop_stays MINIMAL_VAL model last interval Hstep fuel first
                  (zero_payload, shader, pl) Hlt) as H.
    split; [exact H|]. intros st. destruct H as [-> | ->]; discriminate.
Qed.

(** C7, a witness: pixel (1, 0) of a 2 by 2 framebuffer and the colour
    (255, 128, 0); the offset is 12. *)
Lemma setColor_layout_witness :
  exists pl',
    setColor example_pipeline 1 0 example_color = Some pl'
    /\ vec_get (framebuffer pl') 12 = Some 0
    /\ vec_get (framebuffer pl') (12 + 1) = Some 128
    /\ vec_get (framebuffer pl') (12 + 2) = Some 255
    /\ vec_get (framebuffer pl') (12 + 3) = vec_get (framebuffer example_pipeline) (12 + 3)
    /\ (forall j, j <> 12 -> j <> 12 + 1 -> j <> 12 + 2 ->
          vec_get (framebuffer pl') j = vec_get (framebuffer example_pipeline) j)
    /\ length (framebuffer pl') = length (framebuffer example_pipeline)
    /\ zbuffer pl' = zbuffer example_pipeline
    /\ width pl' = width example_pipeline /\ height pl' = height example_pipeline.
Proof.
  apply (setColor_layout example_pipeline 1 0 example_color 255 128 0);
    first [reflexivity | cbn; lia].
Defined.

(** C6, a witness: a polygon of two slots draws nothing. *)
Lemma render_fan_triangles_witness :
  render_fan 2 example_state = Some example_state.
Proof.
  apply (render_fan_triangles MINIMAL_VAL_f32 example_model 0 2 example_state). lia.
Defined.

(** C6, the claim as stated fails: for a polygon of three slots the fan loop
    draws the one sub-triangle (0, 1, 2); with j up to n - 1 = 2 included
    there would be a second one, (0, 2, 3), whose third corner is slot 3,
    outside the polygon, and the payload would end with that slot in
    [homo_coords]. *)
Lemma render_fan_three :
  fan_triangles 3 = [(0, 1, 2)]
  /\ spec_fan_triangles 3 = [(0, 1, 2); (0, 2, 3)]
  /\ render_fan 3 example_state = draw_triangle (0, 1, 2) example_state
  /\ render_fan 3 example_state
     <> run_all draw_triangle (spec_fan_triangles 3) example_state.
Proof.
  split; [reflexivity|]. split; [reflexivity|]. split; [vm_compute; reflexivity|].
  set (last_z := fun r : option RenderState =>
                   match r with
                   | Some (payload, _, _) => v4_z (homo_coords payload 2)
                   | None => S754_nan
                   end).
  assert (last_z (render_fan 3 example_state) = S754_zero false) as Hcode
    by (vm_compute; reflexivity).
  assert (last_z (run_all draw_triangle (spec_fan_triangles 3) example_state)
          = S754_finite false 8388608 (-24)) as Hspec
    by (vm_compute; reflexivity).
  intros Heq. rewrite Heq in Hcode. rewrite Hcode in Hspec. discriminate Hspec.
Qed.

(** C10, a witness: one face, stride 1 and stride 0. *)
Lemma renderingTriangles_termination_witness :
  renderingTriangles MINIMAL_VAL_f32 1 example_pipeline 0 1 1 example_model example_shader
  <> OutOfFuel
  /\ (renderingTriangles MINIMAL_VAL_f32 7 example_pipeline 0 1 0 example_model
        example_shader = OutOfFuel
      \/ renderingTriangles MINIMAL_VAL_f32 7 example_pipeline 0 1 0 example_model
           example_shader = Undefined).
Proof.
  split.
  - apply (proj1 (renderingTriangles_termination MINIMAL_VAL_f32 example_pipeline
                    0 1 1 example_model example_shader)); [lia | cbn; lia].
  - apply (proj2 (renderingTriangles_termination MINIMAL_VAL_f32 example_pipeline
                    0 1 0 example_model example_shader)); lia.
Defined.

(** ** The scanline loop against the PNG standard *)

(** C9, the second half: a filter byte above 4 makes the loop fail, and so
    does a filter byte of 2, 3 or 4 on row 0. *)
Lemma unfilter_row_rejects (bpp data_width : Z) (filtered : list Z) (i : Z)
    (data data' : list Z) (filter : Z) :
  copy_row filtered (u32 (i * (data_width + 1))) (u32 (i * data_width)) data_width data
  = Ok data' ->
  buf_get filtered (u32 (i * (data_width + 1))) = Ok filter ->
  (filter < 0 \/ 4 < filter \/ (i = 0 /\ 2 <= filter <= 4)) ->
  unfilter_row bpp data_width filtered i data = Failed.
Proof.
  intros Hcopy Hfilter Hbad. unfold unfilter_row.
  rewrite Hcopy. cbn [mbind result_bind]. rewrite Hfilter. cbn [mbind result_bind].
  destruct (filter =? 0) eqn:E0; [lia|]. destruct (filter =? 1) eqn:E1; [lia|].
  destruct (filter =? 2) eqn:E2, (filter =? 3) eqn:E3, (filter =? 4) eqn:E4;
    try reflexivity;
    (destruct Hbad as [Hneg|[Hbig|[-> Hrow]]]; [lia | lia | reflexivity]).
Qed.

(** C9, the first half fails on the code: an image of one RGB pixel per row
    and two rows, the second with filter 4 (Paeth). The standard adds the
    byte above to each byte of the first pixel; the loop starts [bpp] bytes
    into the row and leaves the first pixel as it was filtered. Filter 3
    (Average) has the same start. *)
Lemma unfilter_first_pixel :
  unfilter true 1 2 [0; 10; 20; 30; 4; 1; 2; 3] = Ok [10; 20; 30; 1; 2; 3]
  /\ png_unfilter 3 [] [(0, [10; 20; 30]); (4, [1; 2; 3])]
     = Some [10; 20; 30; 11; 22; 33]
  /\ unfilter true 1 2 [0; 10; 20; 30; 3; 1; 2; 3] = Ok [10; 20; 30; 1; 2; 3]
  /\ png_unfilter 3 [] [(0, [10; 20; 30]); (3, [1; 2; 3])]
     = Some [10; 20; 30; 6; 12; 18].
Proof.
  split; [vm_compute; reflexivity|]. split; [vm_compute; reflexivity|].
  split; vm_compute; reflexivity.
Qed.

(** C9, the first half fails on the code a second way: the loop of filter 4
    chooses between the byte to the left and the byte above only, where the
    Paeth predictor of the standard can also choose the byte above-left. *)
Lemma paeth_choice_misses_upleft :
  paeth_choice 10 20 15 = 10 /\ paeth_predictor 10 20 15 = 15.
Proof. split; reflexivity. Qed.

(** * Further properties of the code *)

(** ** The order of the comparisons *)

Lemma SFcompare_key (a b : float) (ka kb : Z * Z * Z) :
  order_key a = Some ka -> order_key b = Some kb ->
  SFcompare a b
  = Some (match fst (fst ka) ?= fst (fst kb) with
          | Eq => match snd (fst ka) ?= snd (fst kb) with
                  | Eq => snd ka ?= snd kb
                  | c => c
                  end
          | c => c
          end).
Proof.
  destruct a as [sa|sa| |sa ma ea], b as [sb|sb| |sb mb eb]; cbn [order_key];
    intros Ha Hb; try discriminate;
    try destruct sa; try destruct sb; inversion Ha; inversion Hb; subst;
    cbn [SFcompare fst snd]; try reflexivity.
  change (-1 ?= -1) with Eq. cbv iota.
  rewrite Z.compare_opp, (Z.compare_antisym ea eb).
  destruct (ea ?= eb); reflexivity.
Qed.

Lemma key_lt_compare (ka kb : Z * Z * Z) :
  key_lt ka kb <->
  match fst (fst ka) ?= fst (fst kb) with
  | Eq => match snd (fst ka) ?= snd (fst kb) with
          | Eq => snd ka ?= snd kb
          | c => c
          end
  | c => c
  end = Lt.
Proof.
  destruct ka as [[a1 a2] a3], kb as [[b1 b2] b3]. cbn [fst snd key_lt].
  destruct (Z.compare_spec a1 b1); destruct (Z.compare_spec a2 b2);
    destruct (Z.compare_spec a3 b3); split; intros H'; try lia; try discriminate;
    try reflexivity.
Qed.

Lemma flt_key (a b : float) :
  flt a b = true <->
  exists ka kb, order_key a = Some ka /\ order_key b = Some kb /\ key_lt ka kb.
Proof.
  unfold flt, SFltb. split.
  - intros H.
    destruct (order_key a) as [ka|] eqn:Ha.
    2:{ destruct a; try discriminate. }
    destruct (order_key b) as [kb|] eqn:Hb.
    2:{ destruct b; try discriminate. destruct a; discriminate. }
    exists ka, kb. repeat split. apply key_lt_compare.
    rewrite (SFcompare_key a b ka kb Ha Hb) in H.
    destruct (match fst (fst ka) ?= fst (fst kb) with Eq => _ | _ => _ end);
      congruence.
  - intros (ka & kb & Ha & Hb & Hlt).
    rewrite (SFcompare_key a b ka kb Ha Hb).
    apply key_lt_compare in Hlt. rewrite Hlt. reflexivity.
Qed.

Lemma flt_trans (a b c : float) :
  flt a b = true -> flt b c = true -> flt a c = true.
Proof.
  rewrite !flt_key. intros (ka & kb & Ha & Hb & Hab) (kb' & kc & Hb' & Hc & Hbc).
  rewrite Hb in Hb'. inversion Hb'; subst kb'.
  exists ka, kc. repeat split; try assumption.
  destruct ka as [[a1 a2] a3], kb as [[b1 b2] b3], kc as [[c1 c2] c3].
  unfold key_lt in *. lia.
Qed.

(** ** What one pass writes, and where *)

Section ClipperFrame.

Variable MINIMAL_VAL : float.

Lemma clip_edge_frame p n inp i st :
  fst st <= fst (clip_edge MINIMAL_VAL p n inp i st)
  /\ forall k, k < fst st \/ fst (clip_edge MINIMAL_VAL p n inp i st) <= k ->
       vertex_at (snd (clip_edge MINIMAL_VAL p n inp i st)) k = vertex_at (snd st) k.
Proof.
  unfold clip_edge.
  destruct (is_inside_plane MINIMAL_VAL p (s_coords inp i));
    destruct (is_inside_plane MINIMAL_VAL p (s_coords inp (Z.rem (i + 1) n)));
    cbn [eqb negb fst snd]; (split; [lia|]); intros k Hk;
    rewrite ?vertex_at_store;
    repeat (destruct (decide _); [lia|]); reflexivity.
Qed.

Lemma iterate_clip_edge_frame p n inp k : forall i st,
  fst st <= fst (iterate k i (clip_edge MINIMAL_VAL p n inp) st)
  /\ forall j, j < fst st \/ fst (iterate k i (clip_edge MINIMAL_VAL p n inp) st) <= j ->
       vertex_at (snd (iterate k i (clip_edge MINIMAL_VAL p n inp) st)) j
       = vertex_at (snd st) j.
Proof.
  induction k as [|k IH]; intros i st; cbn [iterate].
  - split; [lia|reflexivity].
  - destruct (IH (i + 1) (clip_edge MINIMAL_VAL p n inp i st)) as [Hle Hk].
    destruct (clip_edge_frame p n inp i st) as [Hle1 Hk1].
    split; [lia|]. intros j Hj.
    rewrite Hk by lia. apply Hk1. lia.
Qed.

Lemma read_side_clipWithPlane p n payload :
  read_side p (snd (clipWithPlane MINIMAL_VAL p n payload)) = read_side p payload
  /\ homo_coords (snd (clipWithPlane MINIMAL_VAL p n payload)) = homo_coords payload.
Proof.
  unfold clipWithPlane, read_side, plane_is_odd.
  destruct (for_loop 0 n _ _) as [num out'].
  destruct (negb (Z.rem (plane_index p) 2 =? 0)); split; reflexivity.
Qed.

Lemma clip_edge_source p n inp i st :
  0 <= i < n ->
  0 <= fst st ->
  (forall k, 0 <= k < fst st ->
             slot_source MINIMAL_VAL p inp n (vertex_at (snd st) k)) ->
  forall k, 0 <= k < fst (clip_edge MINIMAL_VAL p n inp i st) ->
            slot_source MINIMAL_VAL p inp n
              (vertex_at (snd (clip_edge MINIMAL_VAL p n inp i st)) k).
Proof.
  intros Hi Hst Hinv.
  assert (Hrem : 0 <= Z.rem (i + 1) n < n).
  { pose proof (Z.rem_bound_pos (i + 1) n ltac:(lia) ltac:(lia)). lia. }
  assert (Hcut : forall b1 b2,
             is_inside_plane MINIMAL_VAL p (s_coords inp i) = b1 ->
             is_inside_plane MINIMAL_VAL p (s_coords inp (Z.rem (i + 1) n)) = b2 ->
             b1 <> b2 ->
             slot_source MINIMAL_VAL p inp n
               (cut_slot MINIMAL_VAL p inp i (Z.rem (i + 1) n))).
  { intros b1 b2 H1 H2 Hne. right. exists i. split; [lia|]. split; [|reflexivity].
    unfold crosses. congruence. }
  assert (Hcopy : is_inside_plane MINIMAL_VAL p (s_coords inp (Z.rem (i + 1) n)) = true ->
             slot_source MINIMAL_VAL p inp n (vertex_at inp (Z.rem (i + 1) n))).
  { intros H2. left. exists (Z.rem (i + 1) n). auto. }
  unfold clip_edge.
  destruct (is_inside_plane MINIMAL_VAL p (s_coords inp i)) eqn:E1;
    destruct (is_inside_plane MINIMAL_VAL p (s_coords inp (Z.rem (i + 1) n))) eqn:E2;
    cbn [eqb negb fst snd]; intros k Hk; rewrite ?vertex_at_store;
    repeat (destruct (decide _));
    try (apply Hinv; lia);
    try (apply Hcopy; reflexivity);
    try (apply (Hcut _ _ eq_refl eq_refl); discriminate).
Qed.

Lemma iterate_clip_edge_source p n inp k : forall i st,
  0 <= i -> i + Z.of_nat k <= n ->
  0 <= fst st ->
  (forall j, 0 <= j < fst st ->
             slot_source MINIMAL_VAL p inp n (vertex_at (snd st) j)) ->
  forall j, 0 <= j < fst (iterate k i (clip_edge MINIMAL_VAL p n inp) st) ->
            slot_source MINIMAL_VAL p inp n
              (vertex_at (snd (iterate k i (clip_edge MINIMAL_VAL p n inp) st)) j).
Proof.
  induction k as [|k IH]; intros i st Hi Hn Hst Hinv; cbn [iterate].
  - exact Hinv.
  - apply IH; try lia.
    + pose proof (clip_edge_frame p n inp i st) as [Hle _]. lia.
    + apply clip_edge_source; try lia. exact Hinv.
Qed.

End ClipperFrame.

(** X1. One pass of [clipWithPlane] writes the slots 0 .. count - 1 of the
    side it writes and nothing else: the count is not negative, the side it
    reads and [homo_coords] are as before, and every slot of the written
    side below 0 or from the count on keeps its four attributes. *)
Theorem clipWithPlane_frame (MINIMAL_VAL : float) (p : Plane) (n : Z) (payload : Payload) :
  let r := clipWithPlane MINIMAL_VAL p n payload in
  0 <= fst r
  /\ read_side p (snd r) = read_side p payload
  /\ homo_coords (snd r) = homo_coords payload
  /\ forall k, k < 0 \/ fst r <= k ->
       vertex_at (write_side p (snd r)) k = vertex_at (write_side p payload) k.
Proof.
  cbv zeta.
  destruct (read_side_clipWithPlane MINIMAL_VAL p n payload) as [Hr Hh].
  rewrite write_side_loop, fst_clipWithPlane_loop. unfold for_loop.
  destruct (iterate_clip_edge_frame MINIMAL_VAL p n (read_side p payload)
              (Z.to_nat (n - 0)) 0 (0, write_side p payload)) as [Hle Hk].
  cbn [fst snd] in Hle, Hk.
  repeat split; [exact Hle|exact Hr|exact Hh|exact Hk].
Qed.

(** X2. The four arrays stay parallel: in every output slot of a pass the
    position, the world position, the normal and the texture coordinate are
    those of one input slot that is inside the plane, or are all four
    interpolated, with the one ratio of the positions, on the edge from an
    input slot i to the slot (i + 1) % n, whose ends lie on different sides
    of the plane. *)
Theorem clipWithPlane_streams (MINIMAL_VAL : float) (p : Plane) (n : Z) (payload : Payload) :
  let r := clipWithPlane MINIMAL_VAL p n payload in
  Forall (fun k => slot_source MINIMAL_VAL p (read_side p payload) n
                     (vertex_at (write_side p (snd r)) k))
         (seqZ 0 (fst r)).
Proof.
  cbv zeta. apply Forall_seqZ. intros k Hk.
  revert Hk. rewrite write_side_loop, fst_clipWithPlane_loop. unfold for_loop. intros Hk.
  destruct (Z.le_gt_cases n 0) as [Hn|Hn].
  - replace (Z.to_nat (n - 0)) with 0%nat in Hk by lia. cbn [iterate fst] in Hk. lia.
  - apply iterate_clip_edge_source with (i := 0); cbn [fst snd]; try lia; exact Hk.
Qed.

(** ** The order of the comparisons, continued *)

Lemma fle_key (a b : float) :
  fle a b = true <->
  exists ka kb, order_key a = Some ka /\ order_key b = Some kb
                /\ (key_lt ka kb \/ ka = kb).
Proof.
  unfold fle, SFleb. split.
  - intros H.
    destruct (order_key a) as [ka|] eqn:Ha.
    2:{ destruct a; try discriminate. }
    destruct (order_key b) as [kb|] eqn:Hb.
    2:{ destruct b; try discriminate. destruct a; discriminate. }
    exists ka, kb. repeat split.
    rewrite (SFcompare_key a b ka kb Ha Hb) in H.
    destruct ka as [[a1 a2] a3], kb as [[b1 b2] b3]. cbn [fst snd key_lt] in *.
    destruct (Z.compare_spec a1 b1); destruct (Z.compare_spec a2 b2);
      destruct (Z.compare_spec a3 b3); try discriminate; subst;
      first [right; reflexivity | left; lia].
  - intros (ka & kb & Ha & Hb & Hle).
    rewrite (SFcompare_key a b ka kb Ha Hb).
    destruct Hle as [Hlt| ->].
    + apply key_lt_compare in Hlt. rewrite Hlt. reflexivity.
    + rewrite !Z.compare_refl. reflexivity.
Qed.

Lemma fle_flt_trans (a b c : float) :
  fle a b = true -> flt b c = true -> flt a c = true.
Proof.
  rewrite fle_key, !flt_key.
  intros (ka & kb & Ha & Hb & Hab) (kb' & kc & Hb' & Hc & Hbc).
  rewrite Hb in Hb'. inversion Hb'; subst kb'.
  exists ka, kc. repeat split; try assumption.
  destruct Hab as [Hab| ->]; [|exact Hbc].
  destruct ka as [[a1 a2] a3], kb as [[b1 b2] b3], kc as [[c1 c2] c3].
  unfold key_lt in *. lia.
Qed.

Lemma fle_not_nan (a b : float) :
  fle a b = true -> is_nan a = false /\ is_nan b = false.
Proof.
  destruct a, b; cbn; intros H; try discriminate; split; reflexivity.
Qed.

Lemma is_nan_fneg (a : float) : is_nan (fneg a) = is_nan a.
Proof. destruct a; reflexivity. Qed.

Lemma fneg_pos_flt (a : float) :
  flt (float_of_int 0) a = true -> flt (fneg a) (float_of_int 0) = true.
Proof. destruct a as [s|s| |s m e]; try destruct s; cbn; congruence. Qed.

(** ** Polygons that lie on one side of a plane *)

Section ClipperUniform.

Variable MINIMAL_VAL : float.

Lemma iterate_clip_edge_inside p n inp k : forall i st,
  (forall j, 0 <= j < n -> is_inside_plane MINIMAL_VAL p (s_coords inp j) = true) ->
  0 <= i -> i + Z.of_nat k <= n ->
  fst st = i ->
  fst (iterate k i (clip_edge MINIMAL_VAL p n inp) st) = i + Z.of_nat k
  /\ forall j, i <= j < i + Z.of_nat k ->
       vertex_at (snd (iterate k i (clip_edge MINIMAL_VAL p n inp) st)) j
       = vertex_at inp (Z.rem (j + 1) n).
Proof.
  induction k as [|k IH]; intros i st Hin Hi Hn Hst; cbn [iterate].
  - split; [lia|]. intros j Hj. lia.
  - assert (Hrem : 0 <= Z.rem (i + 1) n < n).
    { pose proof (Z.rem_bound_pos (i + 1) n ltac:(lia) ltac:(lia)). lia. }
    rewrite (clip_edge_inside MINIMAL_VAL p n inp i st) by (apply Hin; lia).
    set (st1 := (fst st + 1, _)).
    destruct (IH (i + 1) st1 Hin ltac:(lia) ltac:(lia)) as [Hfst Hslots].
    { subst st1. cbn [fst]. lia. }
    split; [lia|]. intros j Hj.
    destruct (decide (j = i)) as [->|Hne].
    + destruct (iterate_clip_edge_frame MINIMAL_VAL p n inp k (i + 1) st1) as [_ Hframe].
      rewrite Hframe by (left; subst st1; cbn [fst]; lia).
      subst st1. cbn [snd]. rewrite vertex_at_store, Hst.
      destruct (decide (i = i)); [reflexivity|congruence].
    + apply Hslots. lia.
Qed.

Lemma iterate_clip_edge_outside p n inp k : forall i st,
  (forall j, 0 <= j < n -> is_inside_plane MINIMAL_VAL p (s_coords inp j) = false) ->
  0 <= i -> i + Z.of_nat k <= n ->
  iterate k i (clip_edge MINIMAL_VAL p n inp) st = st.
Proof.
  induction k as [|k IH]; intros i st Hout Hi Hn; cbn [iterate]; [reflexivity|].
  assert (Hrem : 0 <= Z.rem (i + 1) n < n).
  { pose proof (Z.rem_bound_pos (i + 1) n ltac:(lia) ltac:(lia)). lia. }
  assert (Hstep : clip_edge MINIMAL_VAL p n inp i st = st).
  { unfold clip_edge. rewrite !Hout by lia. reflexivity. }
  rewrite Hstep. apply IH; [exact Hout|lia|lia].
Qed.

Lemma clipWithPlane_outside p n payload :
  (forall j, 0 <= j < n ->
     is_inside_plane MINIMAL_VAL p (s_coords (read_side p payload) j) = false) ->
  clipWithPlane MINIMAL_VAL p n payload = (0, payload).
Proof.
  intros Hout. unfold clipWithPlane, for_loop.
  fold (plane_is_odd p). fold (read_side p payload).
  destruct (Z.le_gt_cases n 0) as [Hn|Hn].
  - replace (Z.to_nat (n - 0)) with 0%nat by lia. cbn [iterate].
    destruct payload; destruct (plane_is_odd p); reflexivity.
  - rewrite iterate_clip_edge_outside by (try exact Hout; lia).
    destruct payload; destruct (plane_is_odd p); reflexivity.
Qed.

End ClipperUniform.

(** X3. A pass over a polygon of n slots that are all inside the plane
    returns n, and its output is the input turned by one place: slot k
    holds the four attributes of input slot (k + 1) % n. *)
Theorem clipWithPlane_all_inside (MINIMAL_VAL : float) (p : Plane) (n : Z)
    (payload : Payload) :
  0 <= n ->
  (forall j, 0 <= j < n ->
     is_inside_plane MINIMAL_VAL p (s_coords (read_side p payload) j) = true) ->
  let r := clipWithPlane MINIMAL_VAL p n payload in
  fst r = n
  /\ forall k, 0 <= k < n ->
       vertex_at (write_side p (snd r)) k
       = vertex_at (read_side p payload) (Z.rem (k + 1) n).
Proof.
  intros Hn Hin. cbv zeta.
  rewrite write_side_loop, fst_clipWithPlane_loop. unfold for_loop.
  destruct (iterate_clip_edge_inside MINIMAL_VAL p n (read_side p payload)
              (Z.to_nat (n - 0)) 0 (0, write_side p payload) Hin)
    as [Hfst Hslots]; try reflexivity; try lia.
  split; [lia|]. intros k Hk. apply Hslots. lia.
Qed.

(** X4. A pass over a polygon none of whose slots is inside the plane
    returns 0 and leaves the payload as it was; so does a pass over no
    slot at all (vertex_num <= 0). *)
Theorem clipWithPlane_all_outside (MINIMAL_VAL : float) (p : Plane) (n : Z)
    (payload : Payload) :
  (forall j, 0 <= j < n ->
     is_inside_plane MINIMAL_VAL p (s_coords (read_side p payload) j) = false) ->
  clipWithPlane MINIMAL_VAL p n payload = (0, payload).
Proof.
  intros Hout. unfold clipWithPlane, for_loop.
  fold (plane_is_odd p). fold (read_side p payload).
  destruct (Z.le_gt_cases n 0) as [Hn|Hn].
  - replace (Z.to_nat (n - 0)) with 0%nat by lia. cbn [iterate].
    destruct payload; destruct (plane_is_odd p); reflexivity.
  - rewrite iterate_clip_edge_outside by (try exact Hout; lia).
    destruct payload; destruct (plane_is_odd p); reflexivity.
Qed.

(** X5. A triangle whose three positions fail the test of MINIMAL, the
    first plane (w <= -MINIMAL_VAL is false: w too large, or NaN), is
    clipped away: [homogeneous_clip] returns 0 and the payload is as it
    was. *)
Theorem homogeneous_clip_behind_minimal (MINIMAL_VAL : float) (payload : Payload) :
  (forall j, 0 <= j < 3 ->
     fle (v4_w (clipped_coords_a payload j)) (fneg MINIMAL_VAL) = false) ->
  homogeneous_clip MINIMAL_VAL payload = (0, payload).
Proof.
  intros Hout. unfold homogeneous_clip.
  rewrite (clipWithPlane_outside MINIMAL_VAL MINIMAL 3 payload) by exact Hout.
  rewrite !(clipWithPlane_outside MINIMAL_VAL _ 0 payload) by (intros; lia).
  reflexivity.
Qed.

(** X6. A position that is inside all seven planes has no NaN
    coordinate, and when MINIMAL_VAL is greater than 0 its w is less than
    0, so the division by w in [rasterize] is not a division by zero for an
    input vertex that comes through the clipper. *)
Theorem inside_all_planes_no_nan (MINIMAL_VAL : float) (v : Vector4f) :
  (forall p, is_inside_plane MINIMAL_VAL p v = true) ->
  is_nan (v4_x v) = false /\ is_nan (v4_y v) = false
  /\ is_nan (v4_z v) = false /\ is_nan (v4_w v) = false
  /\ (flt (float_of_int 0) MINIMAL_VAL = true -> flt (v4_w v) (float_of_int 0) = true).
Proof.
  intros Hin.
  pose proof (Hin MINIMAL) as Hm. pose proof (Hin LEFT) as Hx.
  pose proof (Hin BOTTOM) as Hy. pose proof (Hin FAR) as Hz.
  cbn [is_inside_plane] in Hm, Hx, Hy, Hz.
  apply fle_not_nan in Hx, Hy, Hz.
  pose proof (fle_not_nan _ _ Hm) as Hw.
  repeat split; try tauto.
  intros Heps. apply (fle_flt_trans _ _ _ Hm). apply fneg_pos_flt, Heps.
Qed.

(** ** What a draw leaves alone *)

Lemma depth_le_refl (a : float) : depth_le a a.
Proof. left. reflexivity. Qed.

Lemma depth_le_trans (a b c : float) : depth_le a b -> depth_le b c -> depth_le a c.
Proof.
  intros [->|Hab] [->|Hbc]; unfold depth_le; auto.
  right. exact (flt_trans _ _ _ Hab Hbc).
Qed.

Lemma pipeline_kept_refl (pl : Pipeline) : pipeline_kept pl pl.
Proof.
  repeat split; try reflexivity.
  apply Forall2_same_length_lookup. split; [reflexivity|].
  intros i x y Hx Hy. rewrite Hx in Hy. inversion Hy. apply depth_le_refl.
Qed.

Lemma pipeline_kept_trans (a b c : Pipeline) :
  pipeline_kept a b -> pipeline_kept b c -> pipeline_kept a c.
Proof.
  intros (Hw1 & Hh1 & Hz1 & Hf1 & Ha1 & Hd1) (Hw2 & Hh2 & Hz2 & Hf2 & Ha2 & Hd2).
  repeat split; try congruence.
  - intros j Hj. rewrite Ha2, Ha1 by exact Hj. reflexivity.
  - revert Hd2 Hd1. generalize (zbuffer c) (zbuffer b) (zbuffer a).
    intros l3 l2. revert l3. induction l2 as [|y l2 IH]; intros l3 l1 H32 H21.
    + inversion H32; inversion H21; subst. constructor.
    + inversion H32; inversion H21; subst. constructor.
      * eapply depth_le_trans; eassumption.
      * apply IH; assumption.
Qed.

Lemma vec_set_inv {A : Type} (v v' : list A) (i : Z) (a : A) :
  vec_set v i a = Some v' ->
  0 <= i < Z.of_nat (length v) /\ v' = <[Z.to_nat i := a]> v.
Proof.
  unfold vec_set. destruct (0 <=? i) eqn:E1; destruct (i <? Z.of_nat (length v)) eqn:E2;
    cbn [andb]; intros H; inversion H. split; [lia|reflexivity].
Qed.

Lemma vec_set_get {A : Type} (v v' : list A) (i j : Z) (a : A) :
  vec_set v i a = Some v' ->
  length v' = length v
  /\ vec_get v' j = if decide (i = j) then Some a else vec_get v j.
Proof.
  intros H. apply vec_set_inv in H as [Hi ->]. split.
  - apply length_insert.
  - apply vec_get_insert. exact Hi.
Qed.

Lemma setColor_kept (pl pl' : Pipeline) (x y : Z) (color : Vector3f) :
  setColor pl x y color = Some pl' ->
  width pl' = width pl /\ height pl' = height pl /\ zbuffer pl' = zbuffer pl
  /\ length (framebuffer pl') = length (framebuffer pl)
  /\ forall j, j mod 4 = 3 -> vec_get (framebuffer pl') j = vec_get (framebuffer pl) j.
Proof.
  unfold setColor.
  set (index := ((height pl - y - 1) * width pl + x) * 4).
  assert (Hmod : index mod 4 = 0) by (subst index; apply Z.mod_mul; lia).
  destruct (byte_of_float (v3_get color 0)) as [r|]; [|discriminate].
  cbn [mbind option_bind].
  destruct (vec_set (framebuffer pl) (index + 2) r) as [fb1|] eqn:E1; [|discriminate].
  cbn [mbind option_bind].
  destruct (byte_of_float (v3_get color 1)) as [g|]; [|discriminate].
  cbn [mbind option_bind].
  destruct (vec_set fb1 (index + 1) g) as [fb2|] eqn:E2; [|discriminate].
  cbn [mbind option_bind].
  destruct (byte_of_float (v3_get color 2)) as [b|]; [|discriminate].
  cbn [mbind option_bind].
  destruct (vec_set fb2 index b) as [fb3|] eqn:E3; [|discriminate].
  cbn [mbind option_bind].
  intros H. inversion H; subst pl'. cbn [width height zbuffer framebuffer].
  repeat split.
  - destruct (vec_set_get _ _ _ 0 _ E1) as [L1 _].
    destruct (vec_set_get _ _ _ 0 _ E2) as [L2 _].
    destruct (vec_set_get _ _ _ 0 _ E3) as [L3 _]. congruence.
  - intros j Hj.
    destruct (vec_set_get _ _ _ j _ E1) as [_ G1].
    destruct (vec_set_get _ _ _ j _ E2) as [_ G2].
    destruct (vec_set_get _ _ _ j _ E3) as [_ G3].
    rewrite G3, G2, G1.
    assert (Hm1 : (index + 1) mod 4 = 1).
    { rewrite <- Zplus_mod_idemp_l, Hmod. reflexivity. }
    assert (Hm2 : (index + 2) mod 4 = 2).
    { rewrite <- Zplus_mod_idemp_l, Hmod. reflexivity. }
    repeat (destruct (decide _) as [<-|?]; [congruence|]). reflexivity.
Qed.

Lemma rasterize_pixel_kept (payload : Payload) (shader : Shader)
    (screen_pos : Z -> Vector3f) (y x : Z) (pl pl' : Pipeline) :
  rasterize_pixel payload shader screen_pos y x pl = Some pl' ->
  pipeline_kept pl pl'.
Proof.
  unfold rasterize_pixel.
  destruct (computeBarycentricCoords2D _ _ _) as [[alpha beta] gamma].
  destruct (inside_triangle alpha beta gamma).
  2:{ intros H; inversion H; apply pipeline_kept_refl. }
  destruct (vec_get (zbuffer pl) (y * width pl + x)) as [stored|] eqn:Eg; [|discriminate].
  cbn [mbind option_bind].
  destruct (fgt stored _) eqn:Egt.
  2:{ intros H; inversion H; apply pipeline_kept_refl. }
  destruct (vec_set (zbuffer pl) _ _) as [zb|] eqn:Es; [|discriminate].
  cbn [mbind option_bind].
  intros H. apply setColor_kept in H as (Hw & Hh & Hz & Hf & Ha).
  cbn [with_zbuffer width height zbuffer framebuffer] in *.
  apply vec_set_inv in Es as [Hi ->].
  repeat split; try assumption.
  - rewrite Hz. apply length_insert.
  - rewrite Hz. apply Forall2_same_length_lookup. split; [apply length_insert|].
    intros i a b Ha' Hb.
    destruct (decide (i = Z.to_nat (y * width pl + x))) as [->|Hne].
    + rewrite list_lookup_insert_eq in Ha' by lia. inversion Ha'; subst a.
      unfold vec_get in Eg. destruct (0 <=? y * width pl + x); [|discriminate].
      rewrite Eg in Hb. inversion Hb; subst b. right. exact Egt.
    + rewrite list_lookup_insert_ne in Ha' by congruence.
      rewrite Ha' in Hb. inversion Hb. apply depth_le_refl.
Qed.

Lemma run_all_kept {A S : Type} (R : S -> S -> Prop) (step : A -> S -> option S) :
  (forall s, R s s) ->
  (forall a b c, R a b -> R b c -> R a c) ->
  (forall a s s', step a s = Some s' -> R s s') ->
  forall l s s', run_all step l s = Some s' -> R s s'.
Proof.
  intros Hrefl Htrans Hstep. induction l as [|a l IH]; intros s s'; cbn [run_all].
  - intros H; inversion H. apply Hrefl.
  - destruct (step a s) as [s1|] eqn:E; [|discriminate].
    intros H. eapply Htrans; [eapply Hstep, E|apply IH, H].
Qed.

Lemma rasterize_Some_kept (payload : Payload) (shader : Shader) (pl pl' : Pipeline) :
  rasterize payload shader pl = Some pl' -> pipeline_kept pl pl'.
Proof.
  unfold rasterize.
  destruct (bounding_box pl _) as [box|]; [|discriminate]. cbn [mbind option_bind].
  rewrite for_loopM_run_all.
  apply (run_all_kept pipeline_kept); [apply pipeline_kept_refl|apply pipeline_kept_trans|].
  intros y s s'. rewrite for_loopM_run_all.
  apply (run_all_kept pipeline_kept); [apply pipeline_kept_refl|apply pipeline_kept_trans|].
  intros x s1 s1'. apply rasterize_pixel_kept.
Qed.

(** X7. A call of [rasterize] that returns leaves the dimensions and the
    sizes of both buffers as they were, never writes the fourth byte of a
    pixel (the offsets 3 mod 4 of the framebuffer), and never makes a depth
    entry larger: each entry is the one before or a smaller one. *)
Theorem rasterize_kept (payload : Payload) (shader : Shader) (pl pl' : Pipeline) :
  rasterize payload shader pl = Some pl' ->
  width pl' = width pl /\ height pl' = height pl
  /\ length (zbuffer pl') = length (zbuffer pl)
  /\ length (framebuffer pl') = length (framebuffer pl)
  /\ (forall j, j mod 4 = 3 -> vec_get (framebuffer pl') j = vec_get (framebuffer pl) j)
  /\ Forall2 depth_le (zbuffer pl') (zbuffer pl).
Proof.
  unfold rasterize.
  destruct (bounding_box pl _) as [box|]; [|discriminate]. cbn [mbind option_bind].
  rewrite for_loopM_run_all.
  apply (run_all_kept pipeline_kept); [apply pipeline_kept_refl|apply pipeline_kept_trans|].
  intros y s s'. rewrite for_loopM_run_all.
  apply (run_all_kept pipeline_kept); [apply pipeline_kept_refl|apply pipeline_kept_trans|].
  intros x s1 s1'. apply rasterize_pixel_kept.
Qed.

Lemma draw_triangle_kept (tri : Z * Z * Z) (st st' : RenderState) :
  draw_triangle tri st = Some st' -> pipeline_kept (snd st) (snd st').
Proof.
  destruct st as [[payload shader] pl], tri as [[a b] c]. unfold draw_triangle.
  destruct (prepareVertex _ _ _) as [payload1 shader1].
  destruct (rasterize payload1 shader1 pl) as [pl1|] eqn:E; [|discriminate].
  cbn [mbind option_bind]. intros H; inversion H. cbn [snd].
  apply rasterize_Some_kept in E. exact E.
Qed.

Lemma render_fan_kept (n : Z) (st st' : RenderState) :
  render_fan n st = Some st' -> pipeline_kept (snd st) (snd st').
Proof.
  unfold render_fan. rewrite for_loopM_run_all.
  apply (run_all_kept (fun s s' : RenderState => pipeline_kept (snd s) (snd s'))).
  - intros s. apply pipeline_kept_refl.
  - intros a b c. apply pipeline_kept_trans.
  - intros j s s'. apply draw_triangle_kept.
Qed.

Lemma render_face_kept (MINIMAL_VAL : float) (model : Model) (i : Z)
    (st st' : RenderState) :
  render_face MINIMAL_VAL model i st = Some st' -> pipeline_kept (snd st) (snd st').
Proof.
  destruct st as [[payload shader] pl]. unfold render_face.
  destruct (vec_get (faces model) i) as [face|]; [|discriminate].
  cbn [mbind option_bind].
  destruct (for_loopM 0 3 _ payload) as [payload1|]; [|discriminate].
  cbn [mbind option_bind].
  destruct (homogeneous_clip MINIMAL_VAL payload1) as [n payload2].
  intros H. apply render_fan_kept in H. exact H.
Qed.

Lemma face_loop_kept (MINIMAL_VAL : float) (model : Model) (last interval : Z) :
  forall fuel i st st',
    face_loop MINIMAL_VAL fuel model i last interval st = Done st' ->
    pipeline_kept (snd st) (snd st').
Proof.
  induction fuel as [|fuel IH]; intros i st st'; cbn [face_loop];
    destruct (i <? last).
  - discriminate.
  - intros H; inversion H. apply pipeline_kept_refl.
  - destruct (render_face MINIMAL_VAL model i st) as [st1|] eqn:E; [|discriminate].
    destruct (as_int (i + interval)) as [i'|]; [|discriminate].
    intros H. eapply pipeline_kept_trans; [eapply render_face_kept, E|eapply IH, H].
  - intros H; inversion H. apply pipeline_kept_refl.
Qed.

(** X8. The same holds for a whole run of [renderingTriangles], whatever
    the faces and the shader: dimensions and sizes are kept, the fourth
    byte of every pixel is untouched, no depth entry has grown. *)
Theorem renderingTriangles_kept (MINIMAL_VAL : float) (fuel : nat) (pl pl' : Pipeline)
    (first last interval : Z) (model : Model) (shader : Shader) :
  final_pipeline
    (renderingTriangles MINIMAL_VAL fuel pl first last interval model shader)
  = Some pl' ->
  pipeline_kept pl pl'.
Proof.
  unfold renderingTriangles, final_pipeline.
  destruct (face_loop _ _ _ _ _ _ _) as [st| |] eqn:E; try discriminate.
  intros H; inversion H; subst pl'.
  apply face_loop_kept in E. exact E.
Qed.

Lemma face_loop_run (MINIMAL_VAL : float) (model : Model) (last : Z) :
  last <= INT_MAX ->
  forall fuel i st,
    INT_MIN <= i -> i <= last ->
    (Z.to_nat (last - i) <= fuel)%nat ->
    face_loop MINIMAL_VAL fuel model i last 1 st
    = match run_all (render_face MINIMAL_VAL model) (seqZ i (last - i)) st with
      | Some st' => Done st'
      | None => Undefined
      end.
Proof.
  intros Hlast. induction fuel as [|fuel IH]; intros i st Hmin Hi Hfuel.
  - assert (i = last) as -> by lia. cbn [face_loop].
    rewrite Z.ltb_irrefl, Z.sub_diag. reflexivity.
  - cbn [face_loop]. destruct (i <? last) eqn:E.
    + apply Z.ltb_lt in E.
      rewrite (seqZ_cons i (last - i)) by lia. cbn [run_all].
      destruct (render_face MINIMAL_VAL model i st) as [st1|]; [|reflexivity].
      assert (Hint : as_int (i + 1) = Some (i + 1)).
      { unfold as_int, in_int, INT_MIN, INT_MAX in *.
        destruct (- 2 ^ 31 <=? i + 1) eqn:E1; destruct (i + 1 <=? 2 ^ 31 - 1) eqn:E2;
          try reflexivity; lia. }
      rewrite Hint. rewrite IH by lia.
      replace (Z.succ i) with (i + 1) by lia.
      replace (Z.pred (last - i)) with (last - (i + 1)) by lia. reflexivity.
    + apply Z.ltb_ge in E. assert (i = last) as -> by lia.
      rewrite Z.sub_diag. reflexivity.
Qed.

(** X9. [renderingModel] visits the faces 0, 1, ..., faces.size() - 1 once
    each and in this order, stopping at the first one that runs into
    undefined behaviour; fuel equal to the number of faces is enough. The
    number of faces is taken to fit an [int]. *)
Theorem renderingModel_faces (MINIMAL_VAL : float) (fuel : nat) (pl : Pipeline)
    (model : Model) (shader : Shader) :
  Z.of_nat (length (faces model)) <= INT_MAX ->
  (length (faces model) <= fuel)%nat ->
  renderingModel MINIMAL_VAL fuel pl model shader
  = match run_all (render_face MINIMAL_VAL model)
            (seqZ 0 (Z.of_nat (length (faces model)))) (zero_payload, shader, pl) with
    | Some st => Done st
    | None => Undefined
    end.
Proof.
  intros Hmax Hfuel. unfold renderingModel, renderingTriangles.
  rewrite face_loop_run; try lia.
  - rewrite Z.sub_0_r. reflexivity.
  - unfold INT_MIN. lia.
Qed.

(** ** When a draw is defined *)

Lemma digits2_pos_bound (m : positive) : Z.pos m < 2 ^ Z.pos (digits2_pos m).
Proof.
  induction m as [m IH|m IH|]; cbn [digits2_pos].
  - rewrite Pos2Z.inj_succ, Z.pow_succ_r by lia. lia.
  - rewrite Pos2Z.inj_succ, Z.pow_succ_r by lia. lia.
  - reflexivity.
Qed.

Lemma float_valid_mantissa (s : bool) (m : positive) (e : Z) :
  float_valid (S754_finite s m e) -> Z.pos m < 2 ^ 24.
Proof.
  unfold float_valid, valid_binary, bounded, canonical_mantissa, fexp, emin, prec32, emax32.
  intros H. apply andb_prop in H as [H _]. apply Z.eqb_eq in H.
  pose proof (digits2_pos_bound m) as Hd.
  assert (Z.pos (digits2_pos m) <= 24) by lia.
  eapply Z.lt_le_trans; [exact Hd|]. apply Z.pow_le_mono_r; lia.
Qed.

Lemma byte_of_clamp_channel (c : float) :
  float_valid c -> exists b, byte_of_float (clamp_channel c) = Some b /\ 0 <= b <= 255.
Proof.
  intros Hv. unfold clamp_channel, fmin, fmax.
  destruct (flt c (float_of_int 255)) eqn:E255.
  - destruct (flt (float_of_int 0) c) eqn:E0.
    + destruct c as [s|s| |s m e]; try destruct s; try discriminate.
      apply float_valid_mantissa in Hv.
      apply flt_key in E255 as (ka & kb & Ha & Hb & Hlt).
      change (order_key (float_of_int 255)) with (Some (1, -16, 16711680)) in Hb.
      cbn [order_key] in Ha. inversion Ha; inversion Hb; subst ka kb.
      cbn [key_lt] in Hlt.
      assert (He : e <= -16 /\ (e = -16 -> Z.pos m < 16711680)) by lia.
      destruct He as [He Hm].
      cbn [byte_of_float signed].
      replace (0 <=? e) with false by (symmetry; apply Z.leb_gt; lia).
      set (t := Z.quot (Z.pos m) (2 ^ (- e))).
      assert (Hp : 0 < 2 ^ (- e)) by (apply Z.pow_pos_nonneg; lia).
      assert (Ht : 0 <= t <= 255).
      { subst t. rewrite Z.quot_div_nonneg by lia. split.
        - apply Z.div_pos; lia.
        - assert (Z.pos m / 2 ^ (- e) < 256); [|lia].
          apply Z.div_lt_upper_bound; [lia|].
          destruct (Z.eq_dec e (-16)) as [->|Hne].
          + specialize (Hm eq_refl). change (2 ^ (- -16)) with 65536. lia.
          + assert (2 ^ 17 <= 2 ^ (- e)) by (apply Z.pow_le_mono_r; lia).
            change (2 ^ 17) with 131072 in *. change (2 ^ 24) with 16777216 in *. nia. }
      exists t. split; [|exact Ht].
      replace ((0 <=? t) && (t <=? 255)) with true; [reflexivity|].
      symmetry. apply andb_true_intro. split; apply Z.leb_le; lia.
    + exists 0. split; [reflexivity|lia].
  - change (flt (float_of_int 0) (float_of_int 255)) with true. cbv iota.
    exists 255. split; [reflexivity|lia].
Qed.

Lemma setColor_defined (pl : Pipeline) (x y : Z) (color : Vector3f) :
  0 <= x < width pl -> 0 <= y < height pl ->
  Z.of_nat (length (framebuffer pl)) = 4 * width pl * height pl ->
  (forall i, float_valid (v3_get color i)) ->
  exists pl', setColor pl x y (clamp_color color) = Some pl'.
Proof.
  intros Hx Hy Hlen Hv.
  pose proof (pixel_offset_range (width pl) (height pl) x y Hx Hy) as [Hlo Hhi].
  destruct (byte_of_clamp_channel _ (Hv 0)) as (r & Hr & _).
  destruct (byte_of_clamp_channel _ (Hv 1)) as (g & Hg & _).
  destruct (byte_of_clamp_channel _ (Hv 2)) as (b & Hb & _).
  unfold setColor.
  change (v3_get (clamp_color color) 0) with (clamp_channel (v3_get color 0)).
  change (v3_get (clamp_color color) 1) with (clamp_channel (v3_get color 1)).
  change (v3_get (clamp_color color) 2) with (clamp_channel (v3_get color 2)).
  rewrite Hr, Hg, Hb. cbn [mbind option_bind].
  rewrite vec_set_Some by lia. cbn [mbind option_bind].
  rewrite vec_set_Some by (rewrite length_insert; lia). cbn [mbind option_bind].
  rewrite vec_set_Some by (rewrite !length_insert; lia). cbn [mbind option_bind].
  eexists. reflexivity.
Qed.

Lemma vec_get_Some {A : Type} (v : list A) (i : Z) :
  0 <= i < Z.of_nat (length v) -> exists a, vec_get v i = Some a.
Proof.
  intros Hi. unfold vec_get.
  replace (0 <=? i) with true by (symmetry; apply Z.leb_le; lia).
  apply lookup_lt_is_Some_2. lia.
Qed.

Lemma rasterize_pixel_defined (payload : Payload) (shader : Shader)
    (screen_pos : Z -> Vector3f) (y x : Z) (pl : Pipeline) :
  0 <= x < width pl -> 0 <= y < height pl ->
  buffers_sized pl ->
  (forall a b c k i, float_valid (v3_get (fragmentShader shader (slots shader) a b c k) i)) ->
  exists pl', rasterize_pixel payload shader screen_pos y x pl = Some pl'.
Proof.
  intros Hx Hy [Hzb Hfb] Hv. unfold rasterize_pixel.
  destruct (computeBarycentricCoords2D _ _ _) as [[alpha beta] gamma].
  destruct (inside_triangle alpha beta gamma); [|eexists; reflexivity].
  assert (Hidx : 0 <= y * width pl + x < Z.of_nat (length (zbuffer pl))) by nia.
  destruct (vec_get_Some (zbuffer pl) _ Hidx) as [stored Hs].
  rewrite Hs. cbn [mbind option_bind].
  destruct (fgt stored _); [|eexists; reflexivity].
  rewrite vec_set_Some by exact Hidx. cbn [mbind option_bind].
  apply setColor_defined; cbn [with_zbuffer width height framebuffer]; auto.
Qed.

Lemma run_all_defined {A S : Type} (Inv : S -> Prop) (step : A -> S -> option S) :
  forall l s,
    Inv s ->
    (forall a s, In a l -> Inv s -> exists s', step a s = Some s' /\ Inv s') ->
    exists s', run_all step l s = Some s' /\ Inv s'.
Proof.
  induction l as [|a l IH]; intros s Hs Hstep; cbn [run_all].
  - exists s. auto.
  - destruct (Hstep a s (or_introl eq_refl) Hs) as (s1 & E & H1). rewrite E.
    apply IH; [exact H1|]. intros a' s' Ha'. apply Hstep. right. exact Ha'.
Qed.

Lemma In_seqZ (i lo len : Z) : In i (seqZ lo len) -> lo <= i < lo + len.
Proof.
  intros H. apply list_elem_of_In in H.
  apply elem_of_seqZ in H. exact H.
Qed.

(** X10. [rasterize] has defined behaviour when the bounding box of the
    three screen positions is defined and lies on the screen, the buffers
    have the sizes the constructor gives them, and the fragment shader
    returns binary32 numbers of the format: every index is in range and
    every clamped channel converts to a byte. *)
Theorem rasterize_defined (payload : Payload) (shader : Shader) (pl : Pipeline) (box : Box) :
  bounding_box pl (fun i => screen_position pl (homo_coords payload i)) = Some box ->
  box_on_screen pl box ->
  buffers_sized pl ->
  (forall a b c k i, float_valid (v3_get (fragmentShader shader (slots shader) a b c k) i)) ->
  exists pl', rasterize payload shader pl = Some pl'.
Proof.
  intros Hbox (Hx0 & Hx1 & Hy0 & Hy1) Hsized Hv.
  unfold rasterize. rewrite Hbox. cbn [mbind option_bind].
  rewrite for_loopM_run_all.
  set (Inv := fun s : Pipeline =>
                width s = width pl /\ height s = height pl /\ buffers_sized s).
  assert (Hkeep : forall s s', Inv s -> pipeline_kept s s' -> Inv s').
  { intros s s' (Hw & Hh & Hz & Hf) (Hw' & Hh' & Hz' & Hf' & _).
    unfold Inv, buffers_sized. rewrite Hw', Hh', Hz', Hf', Hw, Hh in *. auto. }
  destruct (run_all_defined Inv
              (fun y s => for_loopM (x_min box) (x_max box + 1)
                            (fun x s => rasterize_pixel payload shader
                               (fun i => screen_position pl (homo_coords payload i)) y x s) s)
              (seqZ (y_min box) (y_max box + 1 - y_min box)) pl) as (pl' & E & _).
  - unfold Inv. auto.
  - intros y s Hy Hs. apply In_seqZ in Hy. rewrite for_loopM_run_all.
    apply (run_all_defined Inv); [exact Hs|].
    intros x s1 Hx (Hw & Hh & Hs1). apply In_seqZ in Hx.
    destruct (rasterize_pixel_defined payload shader
                (fun i => screen_position pl (homo_coords payload i)) y x s1)
      as [s2 E2]; try lia; try assumption.
    exists s2. split; [exact E2|].
    apply (Hkeep s1); [unfold Inv; auto|]. eapply rasterize_pixel_kept, E2.
  - exists pl'. exact E.
Qed.

(** ** The decision at a pixel *)

Lemma setColor_written (pl pl' : Pipeline) (x y : Z) (color : Vector3f) :
  setColor pl x y color = Some pl' ->
  let offset := ((height pl - y - 1) * width pl + x) * 4 in
  exists r g b,
    byte_of_float (v3_x color) = Some r
    /\ byte_of_float (v3_y color) = Some g
    /\ byte_of_float (v3_z color) = Some b
    /\ vec_get (framebuffer pl') (offset + 2) = Some r
    /\ vec_get (framebuffer pl') (offset + 1) = Some g
    /\ vec_get (framebuffer pl') offset = Some b
    /\ (forall j, j <> offset -> j <> offset + 1 -> j <> offset + 2 ->
          vec_get (framebuffer pl') j = vec_get (framebuffer pl) j)
    /\ zbuffer pl' = zbuffer pl /\ width pl' = width pl /\ height pl' = height pl.
Proof.
  intros H offset. revert H. unfold setColor. fold offset.
  change (v3_get color 0) with (v3_x color).
  change (v3_get color 1) with (v3_y color).
  change (v3_get color 2) with (v3_z color).
  destruct (byte_of_float (v3_x color)) as [r|]; [|discriminate].
  cbn [mbind option_bind].
  destruct (vec_set (framebuffer pl) (offset + 2) r) as [fb1|] eqn:E1; [|discriminate].
  cbn [mbind option_bind].
  destruct (byte_of_float (v3_y color)) as [g|]; [|discriminate].
  cbn [mbind option_bind].
  destruct (vec_set fb1 (offset + 1) g) as [fb2|] eqn:E2; [|discriminate].
  cbn [mbind option_bind].
  destruct (byte_of_float (v3_z color)) as [b|]; [|discriminate].
  cbn [mbind option_bind].
  destruct (vec_set fb2 offset b) as [fb3|] eqn:E3; [|discriminate].
  cbn [mbind option_bind].
  intros H. inversion H; subst pl'. cbn [width height zbuffer framebuffer].
  exists r, g, b.
  assert (forall j, vec_get fb3 j
                    = if decide (offset = j) then Some b
                      else if decide (offset + 1 = j) then Some g
                      else if decide (offset + 2 = j) then Some r
                      else vec_get (framebuffer pl) j) as Hget.
  { intros j.
    destruct (vec_set_get _ _ _ j _ E1) as [_ G1].
    destruct (vec_set_get _ _ _ j _ E2) as [_ G2].
    destruct (vec_set_get _ _ _ j _ E3) as [_ G3].
    rewrite G3, G2, G1. reflexivity. }
  repeat split; try reflexivity.
  - rewrite Hget. repeat (destruct (decide _); [lia|]).
    destruct (decide _); [reflexivity|lia].
  - rewrite Hget. destruct (decide _); [lia|].
    destruct (decide _); [reflexivity|lia].
  - rewrite Hget. destruct (decide _); [reflexivity|lia].
  - intros j H0 H1 H2. rewrite Hget.
    repeat (destruct (decide _); [lia|]). reflexivity.
Qed.

Lemma fle_flt_false (a b : float) : fle a b = true -> flt b a = false.
Proof.
  unfold fle, flt, SFleb, SFltb. intros H.
  destruct (order_key a) as [ka|] eqn:Ha.
  2:{ destruct a; discriminate. }
  destruct (order_key b) as [kb|] eqn:Hb.
  2:{ destruct b; try discriminate. destruct a; discriminate. }
  rewrite (SFcompare_key a b ka kb Ha Hb) in H.
  rewrite (SFcompare_key b a kb ka Hb Ha).
  destruct ka as [[a1 a2] a3], kb as [[b1 b2] b3]. cbn [fst snd] in *.
  rewrite (Z.compare_antisym a1 b1), (Z.compare_antisym a2 b2), (Z.compare_antisym a3 b3).
  destruct (a1 ?= b1); destruct (a2 ?= b2); destruct (a3 ?= b3);
    cbn [CompOpp] in *; congruence.
Qed.

(** [std::max(0.f, std::min(255.f, c))], case by case. *)
Lemma clamp_cases (c : float) :
  let clamped := fmax (float_of_int 0) (fmin (float_of_int 255) c) in
  (fle c (float_of_int 0) = true -> clamped = float_of_int 0)
  /\ (flt (float_of_int 0) c = true -> flt c (float_of_int 255) = true -> clamped = c)
  /\ (fle (float_of_int 255) c = true -> clamped = float_of_int 255)
  /\ (is_nan c = true -> clamped = float_of_int 255).
Proof.
  cbv zeta. unfold fmax, fmin. repeat split.
  - intros H.
    assert (flt c (float_of_int 255) = true) as H255
        by (apply (fle_flt_trans c (float_of_int 0)); [exact H|reflexivity]).
    rewrite H255. rewrite (fle_flt_false _ _ H). reflexivity.
  - intros H0 H255. rewrite H255, H0. reflexivity.
  - intros H. rewrite (fle_flt_false _ _ H). reflexivity.
  - intros H. destruct c; try discriminate H. reflexivity.
Qed.

(** C1. [rasterize] runs [rasterize_pixel] on the pixels of the bounding
    box, row by row. At a pixel (x, y), with the weights taken at
    (x + 0.5, y + 0.5): if a weight is not greater than zero, or the stored
    depth is not greater than z = -corrector, the pipeline is returned as it
    is (the depth is read only when the weights are greater than zero, and a
    pixel outside the z-buffer is undefined behaviour); otherwise, in the pipeline that is returned, the depth entry of the
    pixel is z and the bytes at the offsets
    ((height - y - 1) * width + x) * 4 + 2, + 1 and + 0 are the channels
    0, 1 and 2 of the fragment shader's result on
    (alpha, beta, gamma, corrector), each clamped by
    max(0, min(255, c)) and then converted; every other depth entry and
    every other byte keep their values. Such a pipeline is returned when the
    pixel is on the screen, the framebuffer has 4 * width * height bytes and
    the shader's channels are numbers of the format. The clamp gives 0 for
    c <= 0, c for 0 < c < 255, and 255 for c >= 255 and for NaN. *)
Theorem rasterize_pixel_decision (payload : Payload) (shader : Shader)
    (screen_pos : Z -> Vector3f) (y x : Z) (pl : Pipeline) (alpha beta gamma : float) :
  computeBarycentricCoords2D (float_of_int_plus_half x) (float_of_int_plus_half y)
                             screen_pos = (alpha, beta, gamma) ->
  let corrector :=
    fdiv (float_of_int 1)
         (fadd (fadd (fdiv alpha (v4_w (homo_coords payload 0)))
                     (fdiv beta (v4_w (homo_coords payload 1))))
               (fdiv gamma (v4_w (homo_coords payload 2)))) in
  let z := fneg corrector in
  let index := y * width pl + x in
  let offset := ((height pl - y - 1) * width pl + x) * 4 in
  let covered :=
    fgt alpha (float_of_int 0) && fgt beta (float_of_int 0)
    && fgt gamma (float_of_int 0) in
  let color := fragmentShader shader (slots shader) alpha beta gamma corrector in
  let clamp := fun c => fmax (float_of_int 0) (fmin (float_of_int 255) c) in
  (rasterize payload shader pl
   = (box ← bounding_box pl (fun i => screen_position pl (homo_coords payload i));
      run_all (fun p => rasterize_pixel payload shader
                          (fun i => screen_position pl (homo_coords payload i))
                          (fst p) (snd p))
              (box_pixels box) pl))
  /\ (covered = false -> rasterize_pixel payload shader screen_pos y x pl = Some pl)
  /\ (covered = true -> vec_get (zbuffer pl) index = None ->
      rasterize_pixel payload shader screen_pos y x pl = None)
  /\ (forall stored,
        covered = true ->
        vec_get (zbuffer pl) index = Some stored ->
        (fgt stored z = false ->
           rasterize_pixel payload shader screen_pos y x pl = Some pl)
        /\ (fgt stored z = true ->
              exists zb,
                vec_set (zbuffer pl) index z = Some zb
                /\ vec_get zb index = Some z
                /\ (forall j, j <> index -> vec_get zb j = vec_get (zbuffer pl) j)
                /\ rasterize_pixel payload shader screen_pos y x pl
                   = setColor (with_zbuffer pl zb) x y (clamp_color color))
        /\ (fgt stored z = true ->
              forall pl',
                rasterize_pixel payload shader screen_pos y x pl = Some pl' ->
                vec_get (zbuffer pl') index = Some z
                /\ (forall j, j <> index ->
                      vec_get (zbuffer pl') j = vec_get (zbuffer pl) j)
                /\ (exists r g b,
                      byte_of_float (clamp (v3_get color 0)) = Some r
                      /\ byte_of_float (clamp (v3_get color 1)) = Some g
                      /\ byte_of_float (clamp (v3_get color 2)) = Some b
                      /\ vec_get (framebuffer pl') (offset + 2) = Some r
                      /\ vec_get (framebuffer pl') (offset + 1) = Some g
                      /\ vec_get (framebuffer pl') offset = Some b)
                /\ (forall j, j <> offset -> j <> offset + 1 -> j <> offset + 2 ->
                      vec_get (framebuffer pl') j = vec_get (framebuffer pl) j)
                /\ width pl' = width pl /\ height pl' = height pl)
        /\ (fgt stored z = true ->
            0 <= x < width pl -> 0 <= y < height pl ->
            Z.of_nat (length (framebuffer pl)) = 4 * width pl * height pl ->
            (forall i, float_valid (v3_get color i)) ->
            exists pl', rasterize_pixel payload shader screen_pos y x pl = Some pl'))
  /\ (forall c,
        (fle c (float_of_int 0) = true -> clamp c = float_of_int 0)
        /\ (flt (float_of_int 0) c = true -> flt c (float_of_int 255) = true ->
            clamp c = c)
        /\ (fle (float_of_int 255) c = true -> clamp c = float_of_int 255)
        /\ (is_nan c = true -> clamp c = float_of_int 255))
  /\ (forall c i,
        fle (float_of_int 0) (v3_get (clamp_color c) i) = true
        /\ fle (v3_get (clamp_color c) i) (float_of_int 255) = true).
Proof.
  intros Hw corrector z index offset covered color clamp.
  split; [|split; [|split; [|split; [|split]]]].
  - unfold rasterize. destruct (bounding_box _ _) as [box|]; [|reflexivity].
    cbn [mbind option_bind]. rewrite for_loopM_run_all.
    rewrite (run_all_ext _ (fun y s =>
               run_all (fun x s => rasterize_pixel payload shader
                          (fun i => screen_position pl (homo_coords payload i)) y x s)
                       (seqZ (x_min box) (x_max box + 1 - x_min box)) s))
      by (intros y' s; apply for_loopM_run_all).
    apply (run_all_nested
             (fun y x s => rasterize_pixel payload shader
                (fun i => screen_position pl (homo_coords payload i)) y x s)).
  - intros Hc. unfold rasterize_pixel. rewrite Hw.
    unfold inside_triangle. fold covered. now rewrite Hc.
  - intros Hc Hget. unfold rasterize_pixel. rewrite Hw.
    unfold inside_triangle. fold covered. rewrite Hc.
    fold index. rewrite Hget. reflexivity.
  - intros stored Hc Hget.
    pose proof (vec_get_range _ _ _ Hget) as Hrange.
    assert (forall (b : bool), fgt stored z = b ->
              rasterize_pixel payload shader screen_pos y x pl
              = if b then setColor (with_zbuffer pl (<[Z.to_nat index := z]> (zbuffer pl)))
                            x y (clamp_color color)
                else Some pl) as Hrun.
    { intros b Hb. unfold rasterize_pixel. rewrite Hw.
      unfold inside_triangle. fold covered. rewrite Hc.
      fold index. unfold corrector_of. fold corrector. fold z.
      rewrite Hget. cbn [mbind option_bind]. rewrite Hb. destruct b; [|reflexivity].
      rewrite vec_set_Some by exact Hrange. reflexivity. }
    split; [|split; [|split]].
    + intros Hz. apply (Hrun false Hz).
    + intros Hz. exists (<[Z.to_nat index := z]> (zbuffer pl)).
      split; [apply vec_set_Some; exact Hrange|].
      split; [|split; [|apply (Hrun true Hz)]].
      * rewrite vec_get_insert by exact Hrange.
        destruct (decide (index = index)); [reflexivity|lia].
      * intros j Hj. rewrite vec_get_insert by exact Hrange.
        destruct (decide (index = j)); [lia|reflexivity].
    + intros Hz pl' Hpl'. rewrite (Hrun true Hz) in Hpl'.
      apply setColor_written in Hpl'.
      cbn [with_zbuffer width height zbuffer framebuffer] in Hpl'. fold offset in Hpl'.
      destruct Hpl' as (r & g & b & Hr & Hg & Hb & H2 & H1 & H0 & Hrest & Hzb & Hwd & Hht).
      rewrite Hzb.
      split; [|split; [|split; [|split; [exact Hrest|split; assumption]]]].
      * rewrite vec_get_insert by exact Hrange.
        destruct (decide (index = index)); [reflexivity|lia].
      * intros j Hj. rewrite vec_get_insert by exact Hrange.
        destruct (decide (index = j)); [lia|reflexivity].
      * exists r, g, b. repeat split; assumption.
    + intros Hz Hx Hy Hlen Hvalid. rewrite (Hrun true Hz).
      apply setColor_defined; cbn [with_zbuffer width height framebuffer]; assumption.
  - intros c. apply clamp_cases.
  - intros c i. unfold clamp_color, v3_get. cbn [v3_x v3_y v3_z].
    destruct (i =? 0); [|destruct (i =? 1)]; apply clamp_channel_range.
Qed.

(** ** The fan and the polygon *)

Lemma prepareVertex_kept (tri_index : Z -> Z) (payload : Payload) (shader : Shader) :
  let r := prepareVertex tri_index payload shader in
  side_a (fst r) = side_a payload /\ side_b (fst r) = side_b payload
  /\ vertexShader (snd r) = vertexShader shader
  /\ fragmentShader (snd r) = fragmentShader shader
  /\ (forall i, 0 <= i < 3 ->
        homo_coords (fst r) i = clipped_coords_b payload (tri_index i)
        /\ sh_homo_coords (slots (snd r)) i = clipped_coords_b payload (tri_index i)
        /\ sh_world_coords (slots (snd r)) i = clipped_world_coords_b payload (tri_index i)
        /\ sh_normals (slots (snd r)) i = clipped_normals_b payload (tri_index i)
        /\ sh_uvs (slots (snd r)) i = clipped_uvs_b payload (tri_index i)).
Proof.
  cbv zeta. unfold prepareVertex, for_loop. change (Z.to_nat (3 - 0)) with 3%nat.
  destruct payload as [ca wa na ua cb wb nb ub hc], shader as [sh vs fs].
  cbn [iterate prepare_slot].
  cbn [fst snd with_slots slots vertexShader fragmentShader side_a side_b
       clipped_coords_a clipped_world_coords_a clipped_normals_a clipped_uvs_a
       clipped_coords_b clipped_world_coords_b clipped_normals_b clipped_uvs_b
       homo_coords sh_homo_coords sh_world_coords sh_normals sh_uvs].
  repeat split; try reflexivity;
    assert (i = 0 \/ i = 1 \/ i = 2) as Hi by lia;
    destruct Hi as [Hi|[Hi|Hi]]; subst i; reflexivity.
Qed.

Lemma polygon_kept_refl (st : RenderState) : polygon_kept st st.
Proof. repeat split; reflexivity. Qed.

Lemma polygon_kept_trans (a b c : RenderState) :
  polygon_kept a b -> polygon_kept b c -> polygon_kept a c.
Proof.
  intros (A1 & B1 & V1 & F1) (A2 & B2 & V2 & F2). repeat split; congruence.
Qed.

Lemma draw_triangle_polygon (tri : Z * Z * Z) (st st' : RenderState) :
  draw_triangle tri st = Some st' -> polygon_kept st st'.
Proof.
  destruct st as [[payload shader] pl], tri as [[a b] c]. unfold draw_triangle.
  pose proof (prepareVertex_kept (array3 a b c) payload shader) as H. cbv zeta in H.
  destruct (prepareVertex _ _ _) as [payload1 shader1].
  destruct (rasterize payload1 shader1 pl) as [pl1|]; [|discriminate].
  cbn [mbind option_bind]. intros E; inversion E.
  cbn [fst snd] in H. destruct H as (A & B & V & F & _).
  repeat split; assumption.
Qed.

(** X11. The fan loop changes neither side of the payload and neither
    function of the shader: every sub-triangle is taken from the polygon
    the clipper left in side b. *)
Theorem render_fan_polygon (n : Z) (st st' : RenderState) :
  render_fan n st = Some st' ->
  side_a (fst (fst st')) = side_a (fst (fst st))
  /\ side_b (fst (fst st')) = side_b (fst (fst st))
  /\ vertexShader (snd (fst st')) = vertexShader (snd (fst st))
  /\ fragmentShader (snd (fst st')) = fragmentShader (snd (fst st)).
Proof.
  unfold render_fan. rewrite for_loopM_run_all.
  apply (run_all_kept polygon_kept);
    [apply polygon_kept_refl|apply polygon_kept_trans|].
  intros j s s'. apply draw_triangle_polygon.
Qed.

Lemma render_fan_example :
  render_fan 3 example_state = Some example_state_drawn.
Proof. vm_compute. reflexivity. Qed.

(** ** Degenerate triangles *)

Lemma fsub_diag (r : float) : zero_or_nan (fsub r r) = true.
Proof.
  destruct r as [s|s| |s m e]; try destruct s; try reflexivity;
    unfold fsub, SFsub; cbv zeta; rewrite Z.sub_diag; reflexivity.
Qed.

Lemma fmul_zero_or_nan_r (a z : float) :
  zero_or_nan z = true -> zero_or_nan (fmul a z) = true.
Proof. destruct z; try discriminate; destruct a; reflexivity. Qed.

Lemma fmul_zero_or_nan_l (a z : float) :
  zero_or_nan z = true -> zero_or_nan (fmul z a) = true.
Proof. destruct z; try discriminate; destruct a; reflexivity. Qed.

Lemma fadd_zero_or_nan (a b : float) :
  zero_or_nan a = true -> zero_or_nan b = true -> zero_or_nan (fadd a b) = true.
Proof.
  destruct a as [sa|sa| |sa ma ea]; try discriminate;
    destruct b as [sb|sb| |sb mb eb]; try discriminate;
    try destruct sa; try destruct sb; reflexivity.
Qed.

Lemma fadd_fsub_zero_or_nan (z r : float) :
  zero_or_nan z = true -> zero_or_nan (fsub (fadd z r) r) = true.
Proof.
  intros Hz. destruct z as [sz|sz| |sz mz ez]; try discriminate.
  - destruct r as [s|s| |s m e].
    + destruct sz, s; reflexivity.
    + apply (fsub_diag (S754_infinity s)).
    + reflexivity.
    + apply (fsub_diag (S754_finite s m e)).
  - reflexivity.
Qed.

Lemma fdiv_zero_or_nan (a b : float) :
  zero_or_nan a = true -> zero_or_nan b = true -> fdiv a b = S754_nan.
Proof.
  destruct a as [sa|sa| |sa ma ea]; try discriminate;
    destruct b as [sb|sb| |sb mb eb]; try discriminate; reflexivity.
Qed.

Lemma degenerate_quotient (x y a b p q : float) :
  fdiv (fsub (fadd (fadd (fmul x (fsub b b)) (fmul (fsub a a) y)) (fmul a b)) (fmul a b))
       (fsub (fadd (fadd (fmul p (fsub b b)) (fmul (fsub a a) q)) (fmul a b)) (fmul a b))
  = S754_nan.
Proof.
  apply fdiv_zero_or_nan; apply fadd_fsub_zero_or_nan; apply fadd_zero_or_nan;
    first [apply fmul_zero_or_nan_r; apply fsub_diag
          | apply fmul_zero_or_nan_l; apply fsub_diag].
Qed.

Lemma inside_triangle_nan (alpha beta gamma : float) :
  is_nan alpha = true \/ is_nan beta = true \/ is_nan gamma = true ->
  inside_triangle alpha beta gamma = false.
Proof.
  unfold inside_triangle.
  intros [H|[H|H]].
  - destruct alpha; try discriminate. reflexivity.
  - destruct beta; try discriminate. apply andb_false_iff. left.
    apply andb_false_iff. right. reflexivity.
  - destruct gamma; try discriminate. apply andb_false_iff. right. reflexivity.
Qed.

Lemma rasterize_pixel_degenerate (payload : Payload) (shader : Shader)
    (screen_pos : Z -> Vector3f) (y x : Z) (pl : Pipeline) :
  screen_pos 1 = screen_pos 2 \/ screen_pos 0 = screen_pos 2 ->
  rasterize_pixel payload shader screen_pos y x pl = Some pl.
Proof.
  intros H. unfold rasterize_pixel, computeBarycentricCoords2D. cbv zeta.
  rewrite inside_triangle_nan; [reflexivity|].
  destruct H as [H|H]; rewrite H.
  - left. rewrite degenerate_quotient. reflexivity.
  - right; left. rewrite degenerate_quotient. reflexivity.
Qed.

Lemma run_all_id {A S : Type} (step : A -> S -> option S) (s : S) :
  (forall a, step a s = Some s) -> forall l, run_all step l s = Some s.
Proof.
  intros H. induction l as [|a l IH]; cbn [run_all]; [reflexivity|].
  rewrite H. exact IH.
Qed.

(** X12. A degenerate triangle whose second and third vertices, or first
    and third vertices, have the same [homo_coords] (in particular a
    triangle shrunk to a point) draws nothing: a weight is NaN at every
    pixel, so [rasterize] returns the pipeline as it was whenever its
    bounding box is defined. *)
Theorem rasterize_degenerate (payload : Payload) (shader : Shader) (pl : Pipeline) :
  homo_coords payload 1 = homo_coords payload 2
  \/ homo_coords payload 0 = homo_coords payload 2 ->
  rasterize payload shader pl
  = (box ← bounding_box pl (fun i => screen_position pl (homo_coords payload i));
     Some pl).
Proof.
  intros H. unfold rasterize.
  destruct (bounding_box pl _) as [box|]; [|reflexivity]. cbn [mbind option_bind].
  rewrite for_loopM_run_all. apply run_all_id. intros y.
  rewrite for_loopM_run_all. apply run_all_id. intros x.
  apply rasterize_pixel_degenerate.
  destruct H as [H|H]; rewrite H; auto.
Qed.

(** ** Byte order *)

Lemma testbit_u32 (a n : Z) : Z.testbit (u32 a) n = (n <? 32) && Z.testbit a n.
Proof.
  unfold u32. destruct (Z.ltb_spec n 32) as [Hlt|Hge]; cbn [andb].
  - destruct (Z.lt_ge_cases n 0) as [Hneg|Hpos].
    + now rewrite !Z.testbit_neg_r.
    + apply Z.mod_pow2_bits_low. lia.
  - apply Z.mod_pow2_bits_high. lia.
Qed.

Lemma testbit_u64 (a n : Z) : Z.testbit (u64 a) n = (n <? 64) && Z.testbit a n.
Proof.
  unfold u64. destruct (Z.ltb_spec n 64) as [Hlt|Hge]; cbn [andb].
  - destruct (Z.lt_ge_cases n 0) as [Hneg|Hpos].
    + now rewrite !Z.testbit_neg_r.
    + apply Z.mod_pow2_bits_low. lia.
  - apply Z.mod_pow2_bits_high. lia.
Qed.

Lemma testbit_shiftl (a k n : Z) :
  0 <= k -> Z.testbit (Z.shiftl a k) n = Z.testbit a (n - k).
Proof.
  intros Hk. destruct (Z.lt_ge_cases n 0) as [Hneg|Hpos].
  - now rewrite !Z.testbit_neg_r by lia.
  - apply Z.shiftl_spec. exact Hpos.
Qed.

Lemma testbit_shiftr (a k n : Z) :
  Z.testbit (Z.shiftr a k) n = (0 <=? n) && Z.testbit a (n + k).
Proof.
  destruct (Z.leb_spec 0 n) as [Hpos|Hneg]; cbn [andb].
  - apply Z.shiftr_spec. exact Hpos.
  - now rewrite Z.testbit_neg_r.
Qed.

Ltac bit_rewrite :=
  repeat first
    [ rewrite Z.lor_spec | rewrite Z.land_spec | rewrite testbit_u32
    | rewrite testbit_u64 | rewrite testbit_shiftr
    | rewrite testbit_shiftl by lia ].

Ltac bit_case x :=
  let f := fresh "f" in
  set (f := Z.testbit x); clearbody f; vm_compute;
  repeat match goal with |- context [f ?k] => destruct (f k) end; reflexivity.

Lemma reverseEndian32_bits (x n : Z) :
  Z.testbit (reverseEndian32 x) n
  = (0 <=? n) && (n <? 32) && Z.testbit x (n + 24 - 16 * (n / 8)).
Proof.
  destruct (Z.lt_ge_cases n 0) as [Hneg|Hpos].
  { rewrite Z.testbit_neg_r by lia.
    replace (0 <=? n) with false by (symmetry; apply Z.leb_gt; lia). reflexivity. }
  unfold reverseEndian32. cbv zeta. bit_rewrite.
  destruct (Z.lt_ge_cases n 32) as [Hlt|Hge].
  - assert (Hk : exists k : nat, n = Z.of_nat k /\ (k < 32)%nat).
    { exists (Z.to_nat n). lia. }
    destruct Hk as (k & -> & Hk). clear Hpos Hlt.
    do 32 (destruct k as [|k]; [bit_case x|]). lia.
  - replace (n <? 32) with false by (symmetry; apply Z.ltb_ge; lia).
    replace (0 <=? n) with true by (symmetry; apply Z.leb_le; lia).
    cbn [andb orb].
    replace (n + 16 <? 32) with false by (symmetry; apply Z.ltb_ge; lia).
    cbn [andb orb]. apply andb_false_r.
Qed.

Lemma reverseEndian64_bits (x n : Z) :
  Z.testbit (reverseEndian64 x) n
  = (0 <=? n) && (n <? 64) && Z.testbit x (n + 56 - 16 * (n / 8)).
Proof.
  destruct (Z.lt_ge_cases n 0) as [Hneg|Hpos].
  { rewrite Z.testbit_neg_r by lia.
    replace (0 <=? n) with false by (symmetry; apply Z.leb_gt; lia). reflexivity. }
  unfold reverseEndian64. cbv zeta. bit_rewrite.
  destruct (Z.lt_ge_cases n 64) as [Hlt|Hge].
  - assert (Hk : exists k : nat, n = Z.of_nat k /\ (k < 64)%nat).
    { exists (Z.to_nat n). lia. }
    destruct Hk as (k & -> & Hk). clear Hpos Hlt.
    do 64 (destruct k as [|k]; [bit_case x|]). lia.
  - replace (n <? 64) with false by (symmetry; apply Z.ltb_ge; lia).
    replace (0 <=? n) with true by (symmetry; apply Z.leb_le; lia).
    cbn [andb orb].
    replace (n + 32 <? 64) with false by (symmetry; apply Z.ltb_ge; lia).
    cbn [andb orb]. apply andb_false_r.
Qed.

Lemma testbit_above (x k n : Z) : 0 <= k -> 0 <= x < 2 ^ k -> k <= n -> Z.testbit x n = false.
Proof.
  intros Hk Hx Hn. rewrite <- (Z.mod_small x (2 ^ k)) by exact Hx.
  apply Z.mod_pow2_bits_high. lia.
Qed.

Lemma reverseEndian32_range (x : Z) : 0 <= reverseEndian32 x < 2 ^ 32.
Proof.
  assert (H : reverseEndian32 x = u32 (reverseEndian32 x)).
  { apply Z.bits_inj'. intros n Hn. rewrite testbit_u32, reverseEndian32_bits.
    destruct (n <? 32); [reflexivity|]. now rewrite andb_false_r. }
  rewrite H. unfold u32. apply Z.mod_pos_bound. reflexivity.
Qed.

Lemma reverseEndian64_range (x : Z) : 0 <= reverseEndian64 x < 2 ^ 64.
Proof.
  assert (H : reverseEndian64 x = u64 (reverseEndian64 x)).
  { apply Z.bits_inj'. intros n Hn. rewrite testbit_u64, reverseEndian64_bits.
    destruct (n <? 64); [reflexivity|]. now rewrite andb_false_r. }
  rewrite H. unfold u64. apply Z.mod_pos_bound. reflexivity.
Qed.

Lemma byte_index_32 (n : Z) :
  0 <= n < 32 ->
  0 <= n + 24 - 16 * (n / 8) < 32
  /\ (n + 24 - 16 * (n / 8)) + 24 - 16 * ((n + 24 - 16 * (n / 8)) / 8) = n.
Proof.
  intros Hn. pose proof (Z.div_mod n 8 ltac:(lia)) as Hd.
  pose proof (Z.mod_pos_bound n 8 ltac:(lia)) as Hm.
  assert (Hq : 0 <= n / 8 <= 3).
  { split; [apply Z.div_pos; lia|]. apply Z.lt_succ_r, Z.div_lt_upper_bound; lia. }
  assert (Hi : (n + 24 - 16 * (n / 8)) / 8 = 3 - n / 8).
  { symmetry. apply (Z.div_unique _ 8 _ (n mod 8)); lia. }
  rewrite Hi. lia.
Qed.

Lemma byte_index_64 (n : Z) :
  0 <= n < 64 ->
  0 <= n + 56 - 16 * (n / 8) < 64
  /\ (n + 56 - 16 * (n / 8)) + 56 - 16 * ((n + 56 - 16 * (n / 8)) / 8) = n.
Proof.
  intros Hn. pose proof (Z.div_mod n 8 ltac:(lia)) as Hd.
  pose proof (Z.mod_pos_bound n 8 ltac:(lia)) as Hm.
  assert (Hq : 0 <= n / 8 <= 7).
  { split; [apply Z.div_pos; lia|]. apply Z.lt_succ_r, Z.div_lt_upper_bound; lia. }
  assert (Hi : (n + 56 - 16 * (n / 8)) / 8 = 7 - n / 8).
  { symmetry. apply (Z.div_unique _ 8 _ (n mod 8)); lia. }
  rewrite Hi. lia.
Qed.

Lemma reverseEndian32_involutive (x : Z) :
  0 <= x < 2 ^ 32 -> reverseEndian32 (reverseEndian32 x) = x.
Proof.
  intros Hx. apply Z.bits_inj'. intros n Hn.
  rewrite !reverseEndian32_bits.
  destruct (Z.lt_ge_cases n 32) as [Hlt|Hge].
  - destruct (byte_index_32 n ltac:(lia)) as [Hr Hback]. rewrite Hback.
    replace (0 <=? n) with true by (symmetry; apply Z.leb_le; lia).
    replace (n <? 32) with true by (symmetry; apply Z.ltb_lt; lia).
    replace (0 <=? n + 24 - 16 * (n / 8)) with true by (symmetry; apply Z.leb_le; lia).
    replace (n + 24 - 16 * (n / 8) <? 32) with true by (symmetry; apply Z.ltb_lt; lia).
    reflexivity.
  - replace (n <? 32) with false by (symmetry; apply Z.ltb_ge; lia).
    rewrite andb_false_r. cbn [andb]. symmetry.
    apply (testbit_above x 32); lia.
Qed.

Lemma reverseEndian64_involutive (x : Z) :
  0 <= x < 2 ^ 64 -> reverseEndian64 (reverseEndian64 x) = x.
Proof.
  intros Hx. apply Z.bits_inj'. intros n Hn.
  rewrite !reverseEndian64_bits.
  destruct (Z.lt_ge_cases n 64) as [Hlt|Hge].
  - destruct (byte_index_64 n ltac:(lia)) as [Hr Hback]. rewrite Hback.
    replace (0 <=? n) with true by (symmetry; apply Z.leb_le; lia).
    replace (n <? 64) with true by (symmetry; apply Z.ltb_lt; lia).
    replace (0 <=? n + 56 - 16 * (n / 8)) with true by (symmetry; apply Z.leb_le; lia).
    replace (n + 56 - 16 * (n / 8) <? 64) with true by (symmetry; apply Z.ltb_lt; lia).
    reflexivity.
  - replace (n <? 64) with false by (symmetry; apply Z.ltb_ge; lia).
    rewrite andb_false_r. cbn [andb]. symmetry.
    apply (testbit_above x 64); lia.
Qed.

Lemma testbit_byte_cons (b r n : Z) :
  is_byte b -> 0 <= n ->
  Z.testbit (b + 256 * r) n = if n <? 8 then Z.testbit b n else Z.testbit r (n - 8).
Proof.
  intros Hb Hn. destruct (Z.ltb_spec n 8) as [Hlt|Hge].
  - rewrite <- (Z.mod_pow2_bits_low (b + 256 * r) 8 n) by lia.
    change (2 ^ 8) with 256.
    replace (b + 256 * r) with (b + r * 256) by lia.
    rewrite Z.mod_add by lia.
    rewrite Z.mod_small by exact Hb. reflexivity.
  - replace n with ((n - 8) + 8) at 1 by lia.
    rewrite <- Z.div_pow2_bits by lia. change (2 ^ 8) with 256.
    replace (b + 256 * r) with (b + r * 256) by lia.
    rewrite Z.div_add by lia.
    rewrite (Z.div_small b 256) by exact Hb. rewrite Z.add_0_l. reflexivity.
Qed.

Lemma le_word_bits (bs : list Z) : forall n,
  Forall is_byte bs -> 0 <= n ->
  Z.testbit (le_word bs) n
  = match bs !! Z.to_nat (n / 8) with
    | Some b => Z.testbit b (n mod 8)
    | None => false
    end.
Proof.
  induction bs as [|b bs IH]; intros n Hbs Hn.
  - cbn. apply Z.testbit_0_l.
  - inversion Hbs as [|? ? Hb Hbs']; subst.
    change (le_word (b :: bs)) with (b + 256 * le_word bs).
    rewrite testbit_byte_cons by assumption.
    destruct (Z.ltb_spec n 8) as [Hlt|Hge].
    + rewrite Z.div_small, Z.mod_small by lia. reflexivity.
    + rewrite IH by (try assumption; lia).
      assert (Hq : n / 8 = (n - 8) / 8 + 1).
      { replace n with ((n - 8) + 1 * 8) at 1 by lia. rewrite Z.div_add by lia. reflexivity. }
      assert (Hr : n mod 8 = (n - 8) mod 8).
      { replace n with ((n - 8) + 1 * 8) at 1 by lia. rewrite Z.mod_add by lia. reflexivity. }
      assert (0 <= (n - 8) / 8) by (apply Z.div_pos; lia).
      rewrite Hq, Hr. replace (Z.to_nat ((n - 8) / 8 + 1)) with (S (Z.to_nat ((n - 8) / 8))) by lia.
      reflexivity.
Qed.

Lemma le_word_range (bs : list Z) :
  Forall is_byte bs -> 0 <= le_word bs < 256 ^ Z.of_nat (length bs).
Proof.
  induction 1 as [|b bs Hb Hbs IH].
  - cbn. lia.
  - change (le_word (b :: bs)) with (b + 256 * le_word bs).
    rewrite length_cons, Nat2Z.inj_succ, Z.pow_succ_r by lia.
    unfold is_byte in Hb. nia.
Qed.

Lemma le_word_snoc (l : list Z) (x : Z) :
  le_word (l ++ [x]) = le_word l + 256 ^ Z.of_nat (length l) * x.
Proof.
  induction l as [|y l IHl].
  - cbn. lia.
  - change (le_word ((y :: l) ++ [x])) with (y + 256 * le_word (l ++ [x])).
    change (le_word (y :: l)) with (y + 256 * le_word l).
    rewrite IHl, length_cons, Nat2Z.inj_succ, Z.pow_succ_r by lia. lia.
Qed.

Lemma fold_left_be_word (bs : list Z) : forall acc,
  fold_left (fun acc b => 256 * acc + b) bs acc
  = acc * 256 ^ Z.of_nat (length bs) + le_word (reverse bs).
Proof.
  induction bs as [|b bs IH]; intros acc.
  - cbn. lia.
  - cbn [fold_left]. rewrite reverse_cons, IH, le_word_snoc, length_reverse, length_cons,
      Nat2Z.inj_succ, Z.pow_succ_r by lia. lia.
Qed.

Lemma le_word_reverse (bs : list Z) : le_word (reverse bs) = be_word bs.
Proof. unfold be_word. rewrite fold_left_be_word. lia. Qed.

Lemma byte_index_div (w n : Z) :
  0 < w -> 0 <= n < 8 * w ->
  0 <= n / 8 < w
  /\ (n + 8 * (w - 1) - 16 * (n / 8)) / 8 = w - 1 - n / 8
  /\ (n + 8 * (w - 1) - 16 * (n / 8)) mod 8 = n mod 8
  /\ 0 <= n + 8 * (w - 1) - 16 * (n / 8).
Proof.
  intros Hw Hn. pose proof (Z.div_mod n 8 ltac:(lia)) as Hd.
  pose proof (Z.mod_pos_bound n 8 ltac:(lia)) as Hm.
  assert (Hq : 0 <= n / 8 < w).
  { split; [apply Z.div_pos; lia|]. apply Z.div_lt_upper_bound; lia. }
  split; [exact Hq|]. split; [|split].
  - symmetry. apply (Z.div_unique _ 8 _ (n mod 8)); lia.
  - symmetry. apply (Z.mod_unique _ 8 (w - 1 - n / 8)); lia.
  - lia.
Qed.

Lemma rev_lookup_bytes (bs : list Z) (q : Z) :
  0 <= q < Z.of_nat (length bs) ->
  reverse bs !! Z.to_nat q = bs !! Z.to_nat (Z.of_nat (length bs) - 1 - q).
Proof.
  intros Hq. rewrite reverse_lookup by lia.
  f_equal. lia.
Qed.

(** X13. [reverseEndian] on 32 bits decodes a big-endian field: for four
    bytes read from the file into a [std::uint32_t] on a little-endian
    host, the result is the value the bytes denote with the most
    significant byte first. *)
Theorem reverseEndian32_big_endian (bytes : list Z) :
  length bytes = 4%nat -> Forall is_byte bytes ->
  reverseEndian32 (le_word bytes) = be_word bytes.
Proof.
  intros Hlen Hb. rewrite <- le_word_reverse.
  assert (Hb' : Forall is_byte (reverse bytes)).
  { apply Forall_reverse. exact Hb. }
  apply Z.bits_inj'. intros n Hn.
  rewrite reverseEndian32_bits, (le_word_bits (reverse bytes)) by assumption.
  replace (0 <=? n) with true by (symmetry; apply Z.leb_le; lia). cbn [andb].
  destruct (Z.ltb_spec n 32) as [Hlt|Hge]; cbn [andb].
  - destruct (byte_index_div 4 n ltac:(lia) ltac:(lia)) as (Hq & Hdiv & Hmod & Hpos).
    change (8 * (4 - 1)) with 24 in *.
    rewrite le_word_bits by assumption. rewrite Hdiv, Hmod.
    rewrite rev_lookup_bytes by lia. rewrite Hlen.
    change (Z.of_nat 4 - 1) with (4 - 1). reflexivity.
  - rewrite lookup_ge_None_2; [reflexivity|].
    rewrite length_reverse, Hlen.
    assert (4 <= n / 8) by (apply Z.div_le_lower_bound; lia). lia.
Qed.

Lemma reverseEndian64_bytes (bytes : list Z) :
  length bytes = 8%nat -> Forall is_byte bytes ->
  reverseEndian64 (le_word bytes) = be_word bytes.
Proof.
  intros Hlen Hb. rewrite <- le_word_reverse.
  assert (Hb' : Forall is_byte (reverse bytes)).
  { apply Forall_reverse. exact Hb. }
  apply Z.bits_inj'. intros n Hn.
  rewrite reverseEndian64_bits, (le_word_bits (reverse bytes)) by assumption.
  replace (0 <=? n) with true by (symmetry; apply Z.leb_le; lia). cbn [andb].
  destruct (Z.ltb_spec n 64) as [Hlt|Hge]; cbn [andb].
  - destruct (byte_index_div 8 n ltac:(lia) ltac:(lia)) as (Hq & Hdiv & Hmod & Hpos).
    change (8 * (8 - 1)) with 56 in *.
    rewrite le_word_bits by assumption. rewrite Hdiv, Hmod.
    rewrite rev_lookup_bytes by lia. rewrite Hlen.
    change (Z.of_nat 8 - 1) with (8 - 1). reflexivity.
  - rewrite lookup_ge_None_2; [reflexivity|].
    rewrite length_reverse, Hlen.
    assert (8 <= n / 8) by (apply Z.div_le_lower_bound; lia). lia.
Qed.

(** X14. [reverseEndian] is its own inverse on the 32-bit and on the
    64-bit values: applied twice it gives back the argument (reduced to the
    width of the type). *)
Theorem reverseEndian_involutive (x : Z) :
  reverseEndian32 (reverseEndian32 x) = u32 x
  /\ reverseEndian64 (reverseEndian64 x) = u64 x.
Proof.
  split; apply Z.bits_inj'; intros n Hn.
  - rewrite testbit_u32, !reverseEndian32_bits.
    replace (0 <=? n) with true by (symmetry; apply Z.leb_le; lia). cbn [andb].
    destruct (Z.ltb_spec n 32) as [Hlt|Hge]; cbn [andb]; [|reflexivity].
    destruct (byte_index_32 n ltac:(lia)) as [Hr Hback]. rewrite Hback.
    replace (0 <=? n + 24 - 16 * (n / 8)) with true by (symmetry; apply Z.leb_le; lia).
    replace (n + 24 - 16 * (n / 8) <? 32) with true by (symmetry; apply Z.ltb_lt; lia).
    reflexivity.
  - rewrite testbit_u64, !reverseEndian64_bits.
    replace (0 <=? n) with true by (symmetry; apply Z.leb_le; lia). cbn [andb].
    destruct (Z.ltb_spec n 64) as [Hlt|Hge]; cbn [andb]; [|reflexivity].
    destruct (byte_index_64 n ltac:(lia)) as [Hr Hback]. rewrite Hback.
    replace (0 <=? n + 56 - 16 * (n / 8)) with true by (symmetry; apply Z.leb_le; lia).
    replace (n + 56 - 16 * (n / 8) <? 64) with true by (symmetry; apply Z.ltb_lt; lia).
    reflexivity.
Qed.

(** X15. The signature test of [readPNG] accepts eight bytes exactly when
    they are 89 50 4E 47 0D 0A 1A 0A, in this order. *)
Theorem signature_check (bytes : list Z) :
  length bytes = 8%nat -> Forall is_byte bytes ->
  (signature_ok bytes = true <-> bytes = png_signature).
Proof.
  intros Hlen Hb. unfold signature_ok.
  rewrite reverseEndian64_bytes by assumption. rewrite Z.eqb_eq.
  split; [|intros ->; reflexivity].
  destruct bytes as [|b0 [|b1 [|b2 [|b3 [|b4 [|b5 [|b6 [|b7 [|? ?]]]]]]]]];
    try discriminate.
  repeat match goal with H : Forall _ (_ :: _) |- _ => inversion_clear H end.
  unfold is_byte in *. unfold be_word, kPngSign, png_signature. cbn [fold_left].
  intros Heq.
  assert (b7 = 10) by lia. assert (b6 = 26) by lia. assert (b5 = 10) by lia.
  assert (b4 = 13) by lia. assert (b3 = 71) by lia. assert (b2 = 78) by lia.
  assert (b1 = 80) by lia. assert (b0 = 137) by lia. subst. reflexivity.
Qed.

(** ** The size of the pixel buffer *)

Lemma iterateR_inv {S : Type} (Inv : S -> Prop) (Q : Z -> Prop)
    (body : Z -> S -> Result S) :
  (forall i s s', body i s = Ok s' -> Inv s -> Inv s' /\ Q i) ->
  forall n i s s',
    Inv s -> iterateR n i body s = Ok s' ->
    Inv s' /\ forall j, i <= j < i + Z.of_nat n -> Q j.
Proof.
  intros Hbody. induction n as [|n IH]; intros i s s' Hs; cbn [iterateR].
  - intros H; inversion H; subst. split; [exact Hs|]. intros j Hj. lia.
  - destruct (body i s) as [s1| |] eqn:E; cbn [mbind result_bind]; try discriminate.
    intros H. destruct (Hbody i s s1 E Hs) as [H1 Hq].
    destruct (IH (i + 1) s1 s' H1 H) as [H' Hqs].
    split; [exact H'|]. intros j Hj.
    destruct (decide (j = i)) as [->|Hne]; [exact Hq|apply Hqs; lia].
Qed.

Lemma for_loopR_inv {S : Type} (Inv : S -> Prop) (Q : Z -> Prop)
    (body : Z -> S -> Result S) (lo hi : Z) (s s' : S) :
  (forall i s s', body i s = Ok s' -> Inv s -> Inv s' /\ Q i) ->
  Inv s -> for_loopR lo hi body s = Ok s' ->
  Inv s' /\ forall j, lo <= j < hi -> Q j.
Proof.
  intros Hbody Hs H. unfold for_loopR in H.
  destruct (iterateR_inv Inv Q body Hbody _ _ _ _ Hs H) as [H' Hq].
  split; [exact H'|]. intros j Hj. apply Hq. lia.
Qed.

Lemma buf_set_inv (buf buf' : list Z) (i b : Z) :
  buf_set buf i b = Ok buf' ->
  0 <= i < Z.of_nat (length buf) /\ buf' = <[Z.to_nat i := b]> buf.
Proof.
  unfold buf_set. destruct (vec_set buf i b) as [v|] eqn:E; [|discriminate].
  intros H; inversion H; subst. apply vec_set_inv. exact E.
Qed.

Lemma buf_get_inv (buf : list Z) (i b : Z) :
  buf_get buf i = Ok b -> 0 <= i < Z.of_nat (length buf) /\ buf !! Z.to_nat i = Some b.
Proof.
  unfold buf_get. destruct (vec_get buf i) as [v|] eqn:E; [|discriminate].
  intros H; inversion H; subst. split; [eapply vec_get_range, E|].
  unfold vec_get in E. destruct (0 <=? i); [exact E|discriminate].
Qed.

Lemma buf_set_shape (len : nat) (buf buf' : list Z) (i b : Z) :
  is_byte b -> buf_set buf i b = Ok buf' -> same_shape len buf -> same_shape len buf'.
Proof.
  intros Hb H [Hl Hf]. apply buf_set_inv in H as [Hi ->]. split.
  - rewrite length_insert. exact Hl.
  - apply Forall_insert; assumption.
Qed.

Lemma u8_byte (n : Z) : is_byte (u8 n).
Proof. unfold is_byte, u8. apply Z.mod_pos_bound. lia. Qed.

Lemma copy_row_shape (len : nat) filtered fb db dw data data' :
  Forall is_byte filtered ->
  copy_row filtered fb db dw data = Ok data' ->
  same_shape len data ->
  same_shape len data' /\ forall t, 0 <= t < dw -> 0 <= db + t < Z.of_nat len.
Proof.
  intros Hf H Hs. unfold copy_row in H.
  apply (for_loopR_inv (same_shape len) (fun t => 0 <= db + t < Z.of_nat len) _ _ _ _ _)
    in H; [exact H| |exact Hs].
  intros t s s' E Hsh. cbn beta in E.
  destruct (buf_get filtered (fb + 1 + t)) as [b| |] eqn:Eg;
    cbn [mbind result_bind] in E; try discriminate.
  apply buf_get_inv in Eg as [_ Eg].
  assert (Hb : is_byte b).
  { eapply Forall_lookup_1; eassumption. }
  split; [eapply buf_set_shape; eassumption|].
  apply buf_set_inv in E as [Hi _]. destruct Hsh as [Hl _]. lia.
Qed.

Ltac loop_shape len :=
  match goal with
  | H : for_loopR _ _ _ _ = Ok _ |- _ =>
      apply (for_loopR_inv (same_shape len) (fun _ => True) _ _ _ _ _) in H;
      [exact (proj1 H)| |assumption];
      let k := fresh "k" in let s := fresh "s" in let s' := fresh "s'" in
      let E := fresh "E" in let Hsh := fresh "Hsh" in
      intros k s s' E Hsh; cbn beta in E;
      repeat match type of E with
             | context [buf_get ?b ?i] =>
                 destruct (buf_get b i); cbn [mbind result_bind] in E; try discriminate
             end;
      split; [eapply buf_set_shape; [apply u8_byte|exact E|exact Hsh]|exact I]
  end.

Lemma unfilter_row_shape (len : nat) bpp dw filtered i data data' :
  Forall is_byte filtered ->
  unfilter_row bpp dw filtered i data = Ok data' ->
  same_shape len data ->
  same_shape len data'
  /\ forall t, 0 <= t < dw -> 0 <= u32 (i * dw) + t < Z.of_nat len.
Proof.
  intros Hf H Hs. unfold unfilter_row in H.
  destruct (copy_row filtered _ _ dw data) as [d1| |] eqn:Ec;
    cbn [mbind result_bind] in H; try discriminate.
  destruct (copy_row_shape len _ _ _ _ _ _ Hf Ec Hs) as [Hs1 Hrange].
  split; [|exact Hrange].
  destruct (buf_get filtered _) as [filter| |];
    cbn [mbind result_bind] in H; try discriminate.
  destruct (filter =? 0); [inversion H; subst; exact Hs1|].
  destruct (filter =? 1); [loop_shape len|].
  destruct (filter =? 2); [destruct (i =? 0); [discriminate|loop_shape len]|].
  destruct (filter =? 3); [destruct (i =? 0); [discriminate|loop_shape len]|].
  destruct (filter =? 4); [destruct (i =? 0); [discriminate|loop_shape len]|].
  discriminate.
Qed.

Lemma rows_fit (dw h S : Z) :
  0 <= h -> 1 <= dw -> 0 <= S < 2 ^ 32 ->
  (forall i, 0 <= i < h -> u32 (i * dw) + (dw - 1) < S) ->
  dw * h <= S.
Proof.
  intros Hh Hdw HS Hrows.
  assert (Hind : forall n : nat, Z.of_nat n <= h -> Z.of_nat n * dw <= S).
  { induction n as [|n IH]; intros Hn.
    - lia.
    - specialize (IH ltac:(lia)).
      pose proof (Hrows (Z.of_nat n) ltac:(lia)) as Hr.
      unfold u32 in Hr. rewrite Z.mod_small in Hr by nia. nia. }
  specialize (Hind (Z.to_nat h) ltac:(lia)). rewrite Z2Nat.id in Hind by lia. lia.
Qed.

(** X16. When the scanline loop of [readPNG] ends well, the size of the
    pixel buffer, data_width * data_height, did not wrap at 32 bits, the
    buffer has exactly this many bytes, and every byte of it is in 0..255.
    For dimensions whose product wraps, the loop never ends well: it fails
    or it leaves the bounds of a buffer. *)
Theorem unfilter_size (true_color : bool) (image_width image_height : Z)
    (filtered data : list Z) :
  0 <= image_height ->
  Forall is_byte filtered ->
  unfilter true_color image_width image_height filtered = Ok data ->
  let data_width := u32 (image_width * (if true_color then 3 else 4)) in
  data_width * image_height < 2 ^ 32
  /\ Z.of_nat (length data) = data_width * image_height
  /\ Forall is_byte data.
Proof.
  intros Hh Hf H. cbv zeta. unfold unfilter in H. cbv zeta in H.
  set (bpp := if true_color then 3 else 4) in *.
  set (dw := u32 (image_width * bpp)) in *.
  set (len := Z.to_nat (u32 (dw * image_height))) in *.
  assert (Hdw : 0 <= dw < 2 ^ 32) by (apply Z.mod_pos_bound; reflexivity).
  assert (HS : 0 <= u32 (dw * image_height) < 2 ^ 32) by (apply Z.mod_pos_bound; reflexivity).
  apply (for_loopR_inv (same_shape len)
           (fun i => forall t, 0 <= t < dw -> 0 <= u32 (i * dw) + t < Z.of_nat len)
           _ _ _ _ _) in H.
  - destruct H as [[Hlen Hbytes] Hrows].
    assert (Hfit : dw * image_height <= u32 (dw * image_height)).
    { destruct (Z.eq_dec dw 0) as [->|Hne].
      - rewrite Z.mul_0_l. reflexivity.
      - apply rows_fit; try lia. intros i Hi.
        specialize (Hrows i Hi (dw - 1) ltac:(lia)). lia. }
    assert (Hnowrap : dw * image_height < 2 ^ 32) by lia.
    split; [exact Hnowrap|]. split; [|exact Hbytes].
    rewrite Hlen. subst len. unfold u32. rewrite Z.mod_small by nia. lia.
  - intros i s s' E Hs. eapply unfilter_row_shape; eassumption.
  - split; [apply length_replicate|]. apply Forall_replicate. unfold is_byte. lia.
Qed.

(** ** The filters None, Sub and Up against the PNG standard *)

Lemma vec_get_app_l {A : Type} (l1 l2 : list A) (j : Z) :
  0 <= j < Z.of_nat (length l1) -> vec_get (l1 ++ l2) j = vec_get l1 j.
Proof.
  intros Hj. unfold vec_get.
  replace (0 <=? j) with true by (symmetry; apply Z.leb_le; lia).
  apply lookup_app_l. lia.
Qed.

Lemma vec_get_app_r {A : Type} (l1 l2 : list A) (j : Z) :
  Z.of_nat (length l1) <= j ->
  vec_get (l1 ++ l2) j = vec_get l2 (j - Z.of_nat (length l1)).
Proof.
  intros Hj. unfold vec_get.
  replace (0 <=? j) with true by (symmetry; apply Z.leb_le; lia).
  replace (0 <=? j - Z.of_nat (length l1)) with true by (symmetry; apply Z.leb_le; lia).
  rewrite lookup_app_r by lia. f_equal. lia.
Qed.

Lemma vec_get_head {A : Type} (x : A) (l : list A) : vec_get (x :: l) 0 = Some x.
Proof. reflexivity. Qed.

Lemma buf_get_middle (l1 l2 : list Z) (x k : Z) :
  k = Z.of_nat (length l1) -> buf_get (l1 ++ x :: l2) k = Ok x.
Proof.
  intros ->. unfold buf_get. rewrite vec_get_app_r by lia.
  rewrite Z.sub_diag. reflexivity.
Qed.

Lemma buf_set_middle (l1 l2 : list Z) (x y k : Z) :
  k = Z.of_nat (length l1) -> buf_set (l1 ++ x :: l2) k y = Ok (l1 ++ y :: l2).
Proof.
  intros ->. unfold buf_set.
  rewrite vec_set_Some by (rewrite length_app, length_cons; lia).
  rewrite Nat2Z.id. f_equal.
  rewrite insert_app_r_alt by lia. rewrite Nat.sub_diag. reflexivity.
Qed.

Lemma buf_get_at (l : list Z) (j x : Z) :
  vec_get l j = Some x -> buf_get l j = Ok x.
Proof. unfold buf_get. now intros ->. Qed.

Section Scanline.

Variables (bpp dw : Z) (filtered : list Z).

(** The row copy. *)
Lemma copy_row_steps (fpre fpost pre post : list Z) (f : Z) :
  forall rem donel seg,
    filtered = fpre ++ f :: (donel ++ rem) ++ fpost ->
    length seg = length rem ->
    iterateR (length rem) (Z.of_nat (length donel))
      (fun t data =>
         b ← buf_get filtered (Z.of_nat (length fpre) + 1 + t);
         buf_set data (Z.of_nat (length pre) + t) b)
      (pre ++ donel ++ seg ++ post)
    = Ok (pre ++ donel ++ rem ++ post).
Proof.
  induction rem as [|x rem IH]; intros donel seg Hf Hlen.
  - destruct seg; [reflexivity|discriminate].
  - destruct seg as [|y seg]; [discriminate|].
    cbn [length iterateR].
    assert (Hget : buf_get filtered
                     (Z.of_nat (length fpre) + 1 + Z.of_nat (length donel)) = Ok x).
    { rewrite Hf.
      replace (fpre ++ f :: (donel ++ x :: rem) ++ fpost)
        with ((fpre ++ f :: donel) ++ x :: rem ++ fpost)
        by (rewrite <- !app_assoc; reflexivity).
      apply buf_get_middle. rewrite length_app, length_cons. lia. }
    rewrite Hget. cbn [mbind result_bind].
    replace (pre ++ donel ++ (y :: seg) ++ post)
      with ((pre ++ donel) ++ y :: seg ++ post)
      by (rewrite <- !app_assoc; reflexivity).
    rewrite buf_set_middle by (rewrite length_app; lia).
    cbn [mbind result_bind].
    replace ((pre ++ donel) ++ x :: seg ++ post)
      with (pre ++ (donel ++ [x]) ++ seg ++ post)
      by (rewrite <- !app_assoc; reflexivity).
    replace (Z.of_nat (length donel) + 1) with (Z.of_nat (length (donel ++ [x])))
      by (rewrite length_app; cbn; lia).
    rewrite IH.
    + rewrite <- !app_assoc. reflexivity.
    + rewrite Hf. rewrite <- !app_assoc. reflexivity.
    + injection Hlen as Hlen. exact Hlen.
Qed.

Lemma copy_row_line (fpre fpost pre post seg line : list Z) (f : Z) :
  filtered = fpre ++ f :: line ++ fpost ->
  length seg = length line ->
  copy_row filtered (Z.of_nat (length fpre)) (Z.of_nat (length pre))
    (Z.of_nat (length line)) (pre ++ seg ++ post)
  = Ok (pre ++ line ++ post).
Proof.
  intros Hf Hlen. unfold copy_row, for_loopR.
  rewrite Z.sub_0_r, Nat2Z.id.
  apply (copy_row_steps fpre fpost pre post f line [] seg); assumption.
Qed.


(** The loop of filter 1 (Sub) from a place where [bpp] bytes or more of
    the row are reconstructed: it computes what [png_recon_row] does. *)
Lemma sub_loop_steps (prior pre post : list Z) :
  0 < bpp ->
  Z.of_nat (length (pre ++ post)) + dw < 2 ^ 32 ->
  forall rem doner,
    bpp <= Z.of_nat (length doner) ->
    Z.of_nat (length doner) + Z.of_nat (length rem) <= dw ->
    exists R,
      png_recon_row bpp 1 prior rem doner = Some R
      /\ length R = (length doner + length rem)%nat
      /\ (Forall is_byte doner -> Forall is_byte R)
      /\ iterateR (length rem) (Z.of_nat (length pre) + Z.of_nat (length doner))
           (fun k data =>
              cur ← buf_get data k;
              left ← buf_get data (u32 (k - bpp));
              buf_set data k (u8 (cur + left)))
           (pre ++ doner ++ rem ++ post)
         = Ok (pre ++ R ++ post).
Proof.
  intros Hbpp Htotal.
  induction rem as [|x rem IH]; intros doner Hdone Hdw.
  - exists doner. cbn [png_recon_row length iterateR].
    split; [reflexivity|]. split; [lia|]. split; [auto|].
    rewrite app_nil_l. reflexivity.
  - cbn [length] in Hdw.
    remember (Z.of_nat (length doner)) as t eqn:Ht.
    assert (Hleft : exists a, vec_get doner (t - bpp) = Some a).
    { apply vec_get_Some. lia. }
    destruct Hleft as [a Ha].
    destruct (IH (doner ++ [u8 (x + a)])) as (R & Href & Hlen & Hbytes & Hloop).
    { rewrite length_app. cbn [length]. lia. }
    { rewrite length_app. cbn [length]. lia. }
    exists R. split; [|split; [|split]].
    + cbn [png_recon_row]. rewrite <- Ht. unfold row_byte. rewrite Ha.
      unfold png_recon. cbn [Z.eqb]. exact Href.
    + rewrite Hlen, length_app. cbn [length]. lia.
    + intros Hd. apply Hbytes. apply Forall_app. split; [exact Hd|].
      constructor; [apply u8_byte|constructor].
    + cbn [length iterateR].
      rewrite length_app in Htotal.
      replace (pre ++ doner ++ (x :: rem) ++ post)
        with ((pre ++ doner) ++ x :: rem ++ post)
        by (rewrite <- !app_assoc; reflexivity).
      rewrite (buf_get_middle (pre ++ doner) (rem ++ post) x (Z.of_nat (length pre) + t))
        by (rewrite length_app; lia).
      cbn [mbind result_bind].
      assert (Hk : u32 (Z.of_nat (length pre) + t - bpp) = Z.of_nat (length pre) + (t - bpp)).
      { unfold u32. rewrite Z.mod_small; lia. }
      rewrite Hk.
      assert (Hgl : buf_get ((pre ++ doner) ++ x :: rem ++ post)
                      (Z.of_nat (length pre) + (t - bpp)) = Ok a).
      { apply buf_get_at. rewrite <- app_assoc.
        rewrite vec_get_app_r by lia.
        replace (Z.of_nat (length pre) + (t - bpp) - Z.of_nat (length pre))
          with (t - bpp) by lia.
        rewrite vec_get_app_l by lia. exact Ha. }
      rewrite Hgl. cbn [mbind result_bind].
      rewrite buf_set_middle by (rewrite length_app; lia).
      cbn [mbind result_bind].
      replace ((pre ++ doner) ++ u8 (x + a) :: rem ++ post)
        with (pre ++ (doner ++ [u8 (x + a)]) ++ rem ++ post)
        by (rewrite <- !app_assoc; reflexivity).
      replace (Z.of_nat (length pre) + t + 1)
        with (Z.of_nat (length pre) + Z.of_nat (length (doner ++ [u8 (x + a)])))
        by (rewrite length_app; cbn [length]; lia).
      exact Hloop.
Qed.

(** The first [bpp] bytes of a row of filter 1 have no byte to their left:
    the standard leaves them as they are. *)
Lemma sub_first_bytes (prior : list Z) :
  forall l1 l2 doner,
    Forall is_byte l1 ->
    Z.of_nat (length doner) + Z.of_nat (length l1) <= bpp ->
    png_recon_row bpp 1 prior (l1 ++ l2) doner
    = png_recon_row bpp 1 prior l2 (doner ++ l1).
Proof.
  induction l1 as [|x l1 IH]; intros l2 doner Hb Hlen.
  - rewrite app_nil_r. reflexivity.
  - inversion Hb as [|? ? Hx Hb']; subst. cbn [length] in Hlen.
    cbn [app png_recon_row].
    assert (Hleft : row_byte doner (Z.of_nat (length doner) - bpp) = 0).
    { unfold row_byte, vec_get.
      replace (0 <=? Z.of_nat (length doner) - bpp) with false
        by (symmetry; apply Z.leb_gt; lia).
      reflexivity. }
    rewrite Hleft.
    change (png_recon 1 x 0 (row_byte prior (Z.of_nat (length doner)))
                      (row_byte prior (Z.of_nat (length doner) - bpp)))
      with (Some (u8 (x + 0))).
    rewrite Z.add_0_r. unfold u8. rewrite Z.mod_small by exact Hx.
    rewrite IH by (try assumption; rewrite length_app; cbn [length]; lia).
    rewrite <- app_assoc. reflexivity.
Qed.

(** The loop of filter 2 (Up), with the row above just before the row. *)
Lemma up_loop_steps (prior pre post : list Z) :
  Z.of_nat (length prior) = dw ->
  Z.of_nat (length (pre ++ prior ++ post)) + dw < 2 ^ 32 ->
  forall rem doner,
    Z.of_nat (length doner) + Z.of_nat (length rem) <= dw ->
    exists R,
      png_recon_row bpp 2 prior rem doner = Some R
      /\ length R = (length doner + length rem)%nat
      /\ (Forall is_byte doner -> Forall is_byte R)
      /\ iterateR (length rem)
           (Z.of_nat (length pre) + dw + Z.of_nat (length doner))
           (fun k data =>
              cur ← buf_get data k;
              up ← buf_get data (u32 (k - dw));
              buf_set data k (u8 (cur + up)))
           (pre ++ prior ++ doner ++ rem ++ post)
         = Ok (pre ++ prior ++ R ++ post).
Proof.
  intros Hprior Htotal.
  induction rem as [|x rem IH]; intros doner Hdw.
  - exists doner. cbn [png_recon_row length iterateR].
    split; [reflexivity|]. split; [lia|]. split; [auto|].
    rewrite app_nil_l. reflexivity.
  - cbn [length] in Hdw.
    remember (Z.of_nat (length doner)) as t eqn:Ht.
    assert (Hup : exists b, vec_get prior t = Some b).
    { apply vec_get_Some. lia. }
    destruct Hup as [b Hb].
    destruct (IH (doner ++ [u8 (x + b)])) as (R & Href & Hlen & Hbytes & Hloop).
    { rewrite length_app. cbn [length]. lia. }
    exists R. split; [|split; [|split]].
    + cbn [png_recon_row]. rewrite <- Ht. unfold row_byte at 2. rewrite Hb.
      unfold png_recon. cbn [Z.eqb]. exact Href.
    + rewrite Hlen, length_app. cbn [length]. lia.
    + intros Hd. apply Hbytes. apply Forall_app. split; [exact Hd|].
      constructor; [apply u8_byte|constructor].
    + cbn [length iterateR].
      rewrite !length_app in Htotal.
      replace (pre ++ prior ++ doner ++ (x :: rem) ++ post)
        with ((pre ++ prior ++ doner) ++ x :: rem ++ post)
        by (rewrite <- !app_assoc; reflexivity).
      rewrite (buf_get_middle (pre ++ prior ++ doner) (rem ++ post) x
                 (Z.of_nat (length pre) + dw + t))
        by (rewrite !length_app; lia).
      cbn [mbind result_bind].
      assert (Hk : u32 (Z.of_nat (length pre) + dw + t - dw) = Z.of_nat (length pre) + t).
      { unfold u32. rewrite Z.mod_small; lia. }
      rewrite Hk.
      assert (Hgu : buf_get ((pre ++ prior ++ doner) ++ x :: rem ++ post)
                      (Z.of_nat (length pre) + t) = Ok b).
      { apply buf_get_at. rewrite <- !app_assoc.
        rewrite vec_get_app_r by lia.
        replace (Z.of_nat (length pre) + t - Z.of_nat (length pre)) with t by lia.
        rewrite vec_get_app_l by lia. exact Hb. }
      rewrite Hgu. cbn [mbind result_bind].
      rewrite buf_set_middle by (rewrite !length_app; lia).
      cbn [mbind result_bind].
      replace ((pre ++ prior ++ doner) ++ u8 (x + b) :: rem ++ post)
        with (pre ++ prior ++ (doner ++ [u8 (x + b)]) ++ rem ++ post)
        by (rewrite <- !app_assoc; reflexivity).
      replace (Z.of_nat (length pre) + dw + t + 1)
        with (Z.of_nat (length pre) + dw + Z.of_nat (length (doner ++ [u8 (x + b)])))
        by (rewrite length_app; cbn [length]; lia).
      exact Hloop.
Qed.

(** A row of filter 0 is taken as it is. *)
Lemma none_row (prior : list Z) :
  forall rem doner, png_recon_row bpp 0 prior rem doner = Some (doner ++ rem).
Proof.
  induction rem as [|x rem IH]; intros doner.
  - rewrite app_nil_r. reflexivity.
  - cbn [png_recon_row].
    change (png_recon 0 x (row_byte doner (Z.of_nat (length doner) - bpp))
                      (row_byte prior (Z.of_nat (length doner)))
                      (row_byte prior (Z.of_nat (length doner) - bpp)))
      with (Some x).
    cbv beta iota. rewrite IH, <- app_assoc. reflexivity.
Qed.

End Scanline.

Lemma u32_small (n : Z) : 0 <= n < 2 ^ 32 -> u32 n = n.
Proof. intros H. unfold u32. apply Z.mod_small. exact H. Qed.

(** One row: the loop body against [png_recon_row]. *)
Lemma unfilter_row_conforms (bpp w : Z) (filtered fpre fpost done prior seg rest line : list Z)
    (f i : Z) :
  bpp = 3 \/ bpp = 4 ->
  0 <= w -> 0 <= i ->
  filtered = fpre ++ f :: line ++ fpost ->
  Z.of_nat (length filtered) < 2 ^ 32 ->
  Z.of_nat (length (done ++ seg ++ rest)) < 2 ^ 32 ->
  Z.of_nat (length fpre) = i * (w * bpp + 1) ->
  Z.of_nat (length done) = i * (w * bpp) ->
  Z.of_nat (length line) = w * bpp ->
  length seg = length line ->
  Forall is_byte line ->
  0 <= f <= 2 ->
  (f = 2 -> i <> 0 /\ exists done', done = done' ++ prior
                                   /\ Z.of_nat (length prior) = w * bpp) ->
  exists R,
    png_recon_row bpp f prior line [] = Some R
    /\ length R = length line
    /\ Forall is_byte R
    /\ unfilter_row bpp (w * bpp) filtered i (done ++ seg ++ rest)
       = Ok (done ++ R ++ rest).
Proof.
  intros Hbpp Hw Hi Hf Hflen Hdlen Hfpre Hdone Hline Hseg Hbytes Hfilter Hup.
  set (dw := w * bpp) in *.
  assert (Hdw : 0 <= dw) by (subst dw; destruct Hbpp as [Hb|Hb]; rewrite Hb; lia).
  rewrite !length_app in Hdlen.
  assert (Hfl : Z.of_nat (length fpre) + 1 + dw <= Z.of_nat (length filtered)).
  { rewrite Hf, length_app, length_cons, length_app. lia. }
  assert (Hget : buf_get filtered (Z.of_nat (length fpre)) = Ok f).
  { rewrite Hf. apply buf_get_middle. reflexivity. }
  unfold unfilter_row.
  rewrite (u32_small (i * dw)) by lia.
  rewrite (u32_small (i * (dw + 1))) by lia.
  rewrite <- Hfpre, <- Hdone, <- Hline.
  rewrite (copy_row_line filtered fpre fpost done rest seg line f Hf Hseg).
  cbn [mbind result_bind].
  rewrite Hget. cbn [mbind result_bind].
  assert (Hcases : f = 0 \/ f = 1 \/ f = 2) by lia.
  destruct Hcases as [Hf0|[Hf1|Hf2]]; subst f.
  - (* None *)
    exists line. rewrite (none_row bpp prior line []).
    change (0 =? 0) with true. cbv iota.
    repeat split; auto.
  - (* Sub *)
    change (1 =? 0) with false. change (1 =? 1) with true. cbv iota.
    destruct (Z.eq_dec w 0) as [Hw0|Hw0].
    + assert (dw = 0) by (subst dw; lia).
      assert (line = []) by (destruct line; [reflexivity|cbn [length] in Hline; lia]).
      subst line. exists []. split; [reflexivity|]. split; [reflexivity|].
      split; [constructor|].
      unfold for_loopR.
      replace (Z.to_nat (u32 (Z.of_nat (length done) + Z.of_nat (length (@nil Z)))
                         - u32 (Z.of_nat (length done) + bpp))) with 0%nat.
      * reflexivity.
      * cbn [length]. rewrite !u32_small by lia. lia.
    + assert (Hge : bpp <= dw) by (subst dw; destruct Hbpp as [Hb|Hb]; rewrite Hb; lia).
      set (l1 := take (Z.to_nat bpp) line).
      set (l2 := drop (Z.to_nat bpp) line).
      assert (Hsplit : line = l1 ++ l2) by (symmetry; apply take_drop).
      assert (Hl1 : Z.of_nat (length l1) = bpp).
      { subst l1. rewrite length_take. lia. }
      assert (Hl2 : Z.of_nat (length l2) = dw - bpp).
      { subst l2. rewrite length_drop. lia. }
      assert (Hb1 : Forall is_byte l1) by (subst l1; apply Forall_take; exact Hbytes).
      clearbody l1 l2. subst line.
      rewrite length_app in Hline, Hseg.
      destruct (sub_loop_steps bpp dw prior done rest ltac:(lia)
                  ltac:(rewrite length_app; lia) l2 l1 ltac:(lia) ltac:(lia))
        as (R & Href & Hlen & HRb & Hloop).
      exists R. split; [|split; [|split]].
      * rewrite (sub_first_bytes bpp prior l1 l2 []) by (try assumption; cbn [length]; lia).
        exact Href.
      * rewrite Hlen, length_app. reflexivity.
      * apply HRb. exact Hb1.
      * unfold for_loopR. rewrite !u32_small by (rewrite ?length_app; lia).
        replace (Z.to_nat (Z.of_nat (length done) + Z.of_nat (length (l1 ++ l2))
                           - (Z.of_nat (length done) + bpp))) with (length l2)
          by (rewrite length_app; lia).
        replace (Z.of_nat (length done) + bpp)
          with (Z.of_nat (length done) + Z.of_nat (length l1)) by lia.
        rewrite <- (app_assoc l1 l2 rest). exact Hloop.
  - (* Up *)
    change (2 =? 0) with false. change (2 =? 1) with false.
    change (2 =? 2) with true. cbv iota.
    destruct (Hup eq_refl) as (Hi0 & done' & -> & Hprior).
    replace (i =? 0) with false by (symmetry; apply Z.eqb_neq; exact Hi0).
    rewrite length_app in Hdlen, Hdone.
    destruct (up_loop_steps bpp dw prior done' rest Hprior
                ltac:(rewrite !length_app; lia) line [] ltac:(cbn [length]; lia))
      as (R & Href & Hlen & HRb & Hloop).
    exists R. split; [exact Href|]. split; [exact Hlen|].
    split; [apply HRb; constructor|].
    unfold for_loopR. rewrite !u32_small by (rewrite ?length_app; lia).
    replace (Z.to_nat (Z.of_nat (length (done' ++ prior)) + Z.of_nat (length line)
                       - Z.of_nat (length (done' ++ prior)))) with (length line) by lia.
    rewrite Hline.
    replace (Z.of_nat (length (done' ++ prior)))
      with (Z.of_nat (length done') + dw + Z.of_nat (length (@nil Z)))
      by (rewrite length_app; cbn [length]; lia).
    rewrite <- !app_assoc. exact Hloop.
Qed.

Lemma length_scanlines (dw : Z) (rows : list (Z * list Z)) :
  Forall (fun r => Z.of_nat (length (snd r)) = dw) rows ->
  Z.of_nat (length (scanlines rows)) = Z.of_nat (length rows) * (dw + 1).
Proof.
  induction 1 as [|[f line] rows Hr Hrows IH]; [reflexivity|].
  cbn [scanlines snd] in *. rewrite !length_cons, length_app. lia.
Qed.

(** The rows from row [i] on, as many as [rem] has. *)
Lemma unfilter_rows_conform (bpp w : Z) (filtered : list Z) :
  bpp = 3 \/ bpp = 4 ->
  0 <= w ->
  Z.of_nat (length filtered) < 2 ^ 32 ->
  forall rem i fpre fpost done prior rest post,
    filtered = fpre ++ scanlines rem ++ fpost ->
    0 <= i ->
    Z.of_nat (length fpre) = i * (w * bpp + 1) ->
    Z.of_nat (length done) = i * (w * bpp) ->
    Z.of_nat (length rest) = Z.of_nat (length rem) * (w * bpp) ->
    Z.of_nat (length (done ++ rest ++ post)) < 2 ^ 32 ->
    Forall (fun r => Z.of_nat (length (snd r)) = w * bpp /\ Forall is_byte (snd r)
                     /\ 0 <= fst r <= 2) rem ->
    (i = 0 -> match rem with r :: _ => fst r <> 2 | [] => True end) ->
    (i <> 0 -> exists done', done = done' ++ prior
                             /\ Z.of_nat (length prior) = w * bpp) ->
    exists out,
      png_unfilter bpp prior rem = Some out
      /\ Z.of_nat (length out) = Z.of_nat (length rem) * (w * bpp)
      /\ iterateR (length rem) i (unfilter_row bpp (w * bpp) filtered)
           (done ++ rest ++ post)
         = Ok (done ++ out ++ post).
Proof.
  intros Hbpp Hw Hflen.
  induction rem as [|[f line] rem IH];
    intros i fpre fpost done prior rest post Hf Hi Hfpre Hdone Hrest Htotal Hrows
           Hfirst Hprior.
  - exists []. split; [reflexivity|]. split; [reflexivity|]. cbn [length iterateR].
    destruct rest; [reflexivity|cbn [length] in Hrest; lia].
  - apply Forall_cons_1 in Hrows as [(Hline & Hbytes & Hfilter) Hrows'].
    cbn [fst snd] in Hline, Hbytes, Hfilter.
    cbn [scanlines] in Hf. cbn [length] in Hrest.
    assert (Hdw : 0 <= w * bpp) by (destruct Hbpp as [Hb|Hb]; rewrite Hb; lia).
    assert (Hmore : 0 <= Z.of_nat (length rem) * (w * bpp))
      by (apply Z.mul_nonneg_nonneg; lia).
    rewrite Nat2Z.inj_succ, Z.mul_succ_l in Hrest.
    set (seg := take (length line) rest).
    set (rest' := drop (length line) rest).
    assert (Hsplit : rest = seg ++ rest') by (symmetry; apply take_drop).
    assert (Hseg : length seg = length line).
    { subst seg. rewrite length_take. lia. }
    assert (Hrest' : Z.of_nat (length rest') = Z.of_nat (length rem) * (w * bpp)).
    { subst rest'. rewrite length_drop. lia. }
    clearbody seg rest'. subst rest.
    assert (Hf' : filtered = fpre ++ f :: line ++ scanlines rem ++ fpost).
    { rewrite Hf. cbn [app]. rewrite <- app_assoc. reflexivity. }
    rewrite <- (app_assoc seg rest' post) in *.
    destruct (unfilter_row_conforms bpp w filtered fpre (scanlines rem ++ fpost) done prior
                seg (rest' ++ post) line f i Hbpp Hw Hi Hf' Hflen Htotal Hfpre Hdone Hline
                Hseg Hbytes Hfilter)
      as (R & Href & HRlen & HRbytes & Hrow).
    { intros ->. split.
      - intros ->. apply (Hfirst eq_refl). reflexivity.
      - apply Hprior. intros ->. apply (Hfirst eq_refl). reflexivity. }
    destruct (IH (i + 1) (fpre ++ f :: line) fpost (done ++ R) R rest' post)
      as (out & Hout & Houtlen & Hloop).
    + rewrite Hf', <- app_assoc. reflexivity.
    + lia.
    + rewrite length_app, length_cons. lia.
    + rewrite length_app. lia.
    + exact Hrest'.
    + rewrite !length_app in *. lia.
    + exact Hrows'.
    + intros H0. lia.
    + intros _. exists done. split; [reflexivity|]. lia.
    + exists (R ++ out). split; [|split].
      * cbn [png_unfilter]. rewrite Href, Hout. reflexivity.
      * rewrite length_app. cbn [length]. lia.
      * cbn [length iterateR]. rewrite Hrow. cbn [mbind result_bind].
        rewrite <- !app_assoc in Hloop. rewrite <- app_assoc. exact Hloop.
Qed.

Lemma iterateR_app {T : Type} (body : Z -> T -> Result T) (n m : nat) : forall i s,
  iterateR (n + m) i body s
  = (s' ← iterateR n i body s; iterateR m (i + Z.of_nat n) body s').
Proof.
  induction n as [|n IH]; intros i s.
  - cbn [Nat.add iterateR mbind result_bind]. rewrite Z.add_0_r. reflexivity.
  - cbn [Nat.add iterateR]. destruct (body i s) as [s1| |]; cbn [mbind result_bind];
      try reflexivity.
    rewrite IH. replace (i + 1 + Z.of_nat n) with (i + Z.of_nat (S n)) by lia.
    reflexivity.
Qed.

(** X17. On an image whose rows have the filters 0 (None), 1 (Sub) and 2
    (Up), the first row not 2, the scanline loop of [readPNG] ends well
    and returns exactly the bytes the reconstruction of the PNG standard
    gives. The sizes are taken not to wrap at 32 bits. *)
Theorem unfilter_conforms (true_color : bool) (image_width : Z)
    (rows : list (Z * list Z)) :
  let bpp := if true_color then 3 else 4 in
  let data_width := image_width * bpp in
  let data_height := Z.of_nat (length rows) in
  0 <= image_width ->
  (data_width + 1) * data_height < 2 ^ 32 ->
  Forall (fun r => Z.of_nat (length (snd r)) = data_width /\ Forall is_byte (snd r)
                   /\ 0 <= fst r <= 2) rows ->
  match rows with r :: _ => fst r <> 2 | [] => True end ->
  exists data,
    png_unfilter bpp [] rows = Some data
    /\ unfilter true_color image_width data_height (scanlines rows) = Ok data.
Proof.
  intros bpp dw h Hw Hsize Hrows Hfirst.
  assert (Hbpp : bpp = 3 \/ bpp = 4) by (subst bpp; destruct true_color; auto).
  assert (Hdw : 0 <= dw) by (subst dw; destruct Hbpp as [Hb|Hb]; rewrite Hb; lia).
  destruct rows as [|r rows'].
  { exists []. split; [reflexivity|]. unfold unfilter. cbv zeta.
    cbn [length]. change (Z.of_nat 0) with 0. rewrite Z.mul_0_r. reflexivity. }
  assert (Hh : 1 <= h) by (subst h; cbn [length]; lia).
  set (rows := r :: rows') in *.
  assert (Hlen : Z.of_nat (length (scanlines rows)) = h * (dw + 1)).
  { apply length_scanlines. revert Hrows. apply Forall_impl. intros x Hx. apply Hx. }
  assert (Hprod : (dw + 1) * h = dw + dw * (h - 1) + h) by ring.
  assert (Hprod' : dw * h = dw + dw * (h - 1)) by ring.
  assert (Hpos : 0 <= dw * (h - 1)) by (apply Z.mul_nonneg_nonneg; lia).
  assert (Hflen : Z.of_nat (length (scanlines rows)) < 2 ^ 32).
  { rewrite Hlen, Z.mul_comm. exact Hsize. }
  unfold unfilter. cbv zeta. fold bpp. fold dw.
  rewrite (u32_small dw) by lia. rewrite (u32_small (dw * h)) by lia.
  unfold for_loopR. rewrite Z.sub_0_r.
  replace (Z.to_nat h) with (length rows) by (subst h; lia).
  set (data0 := replicate (Z.to_nat (dw * h)) 0).
  assert (Hdata0 : Z.of_nat (length data0) = Z.of_nat (length rows) * (image_width * bpp)).
  { subst data0. rewrite length_replicate, Z2Nat.id by lia. fold dw. fold h.
    apply Z.mul_comm. }
  assert (Htot : Z.of_nat (length (@nil Z ++ data0 ++ [])) < 2 ^ 32).
  { cbn [app]. rewrite app_nil_r. rewrite Hdata0. fold dw. fold h.
    rewrite Z.mul_comm. lia. }
  assert (Hnz : 0 <> 0 -> exists done', @nil Z = done' ++ []
                                        /\ Z.of_nat (length (@nil Z)) = image_width * bpp).
  { intros H0. contradiction. }
  assert (Hscan : scanlines rows = [] ++ scanlines rows ++ []).
  { cbn [app]. rewrite app_nil_r. reflexivity. }
  destruct (unfilter_rows_conform bpp image_width (scanlines rows) Hbpp Hw Hflen
              rows 0 [] [] [] [] data0 [] Hscan (Z.le_refl 0) eq_refl eq_refl Hdata0 Htot
              Hrows (fun _ => Hfirst) Hnz)
    as (out & Hout & Houtlen & Hloop).
  exists out. split; [exact Hout|]. cbn [app] in Hloop.
  rewrite !app_nil_r in Hloop. exact Hloop.
Qed.

Lemma scanlines_app (rows1 rows2 : list (Z * list Z)) :
  scanlines (rows1 ++ rows2) = scanlines rows1 ++ scanlines rows2.
Proof.
  induction rows1 as [|[f line] rows1 IH]; [reflexivity|].
  cbn [app scanlines]. rewrite IH, <- app_assoc. reflexivity.
Qed.

(** X18. The scanline loop fails on the first row whose filter byte is not
    one of 0..4, and on a first row of filter 2, 3 or 4, the rows before it
    having the filters 0, 1 and 2: the result is [Failed], which [readPNG]
    returns as false, and not a fault. *)
Theorem unfilter_rejects (true_color : bool) (image_width : Z)
    (good later : list (Z * list Z)) (filter : Z) (line : list Z) :
  let bpp := if true_color then 3 else 4 in
  let data_width := image_width * bpp in
  let rows := good ++ (filter, line) :: later in
  let data_height := Z.of_nat (length rows) in
  0 <= image_width ->
  data_width * data_height < 2 ^ 32 ->
  Z.of_nat (length (scanlines rows)) < 2 ^ 32 ->
  Forall (fun r => Z.of_nat (length (snd r)) = data_width /\ Forall is_byte (snd r)
                   /\ 0 <= fst r <= 2) good ->
  match good with r :: _ => fst r <> 2 | [] => True end ->
  Z.of_nat (length line) = data_width ->
  filter < 0 \/ 4 < filter \/ (good = [] /\ 2 <= filter <= 4) ->
  unfilter true_color image_width data_height (scanlines rows) = Failed.
Proof.
  intros bpp dw rows h Hw Hsize Hflen Hgood Hfirst Hline Hbad.
  assert (Hbpp : bpp = 3 \/ bpp = 4) by (subst bpp; destruct true_color; auto).
  assert (Hdw : 0 <= dw) by (subst dw; destruct Hbpp as [Hb|Hb]; rewrite Hb; lia).
  assert (Hh : h = Z.of_nat (length good) + 1 + Z.of_nat (length later)).
  { subst h rows. rewrite length_app, length_cons. lia. }
  assert (Hglen : Z.of_nat (length (scanlines good)) = Z.of_nat (length good) * (dw + 1)).
  { apply length_scanlines. revert Hgood. apply Forall_impl. intros x Hx. apply Hx. }
  assert (Hscan : scanlines rows
                  = scanlines good ++ filter :: line ++ scanlines later).
  { subst rows. rewrite scanlines_app. reflexivity. }
  assert (Hgl : Z.of_nat (length (scanlines good)) + 1 + dw
                <= Z.of_nat (length (scanlines rows))).
  { rewrite Hscan, length_app, length_cons, length_app. lia. }
  assert (HGd : 0 <= Z.of_nat (length good) * dw) by (apply Z.mul_nonneg_nonneg; lia).
  assert (HLd : 0 <= Z.of_nat (length later) * dw) by (apply Z.mul_nonneg_nonneg; lia).
  assert (Hprod : dw * h = Z.of_nat (length good) * dw
                           + (dw + Z.of_nat (length later) * dw)).
  { rewrite Hh. ring. }
  unfold unfilter. cbv zeta. fold bpp. fold dw.
  rewrite (u32_small dw) by lia. rewrite (u32_small (dw * h)) by lia.
  unfold for_loopR. rewrite Z.sub_0_r.
  replace (Z.to_nat h) with (length good + S (length later))%nat by lia.
  rewrite Hprod, !Z2Nat.inj_add by lia.
  rewrite !replicate_add. rewrite iterateR_app.
  set (rest := replicate (Z.to_nat (Z.of_nat (length good) * dw)) 0).
  set (seg := replicate (Z.to_nat dw) 0).
  set (post := replicate (Z.to_nat (Z.of_nat (length later) * dw)) 0).
  assert (Hrest : Z.of_nat (length rest) = Z.of_nat (length good) * dw).
  { subst rest. rewrite length_replicate. lia. }
  assert (Hseg : length seg = length line).
  { subst seg. rewrite length_replicate. lia. }
  assert (Hpost : Z.of_nat (length post) = Z.of_nat (length later) * dw).
  { subst post. rewrite length_replicate. lia. }
  assert (Htot : Z.of_nat (length (@nil Z ++ rest ++ seg ++ post)) < 2 ^ 32).
  { cbn [app]. rewrite !length_app. lia. }
  assert (Hnz : 0 <> 0 -> exists done', @nil Z = done' ++ []
                                        /\ Z.of_nat (length (@nil Z)) = image_width * bpp).
  { intros H0. contradiction. }
  destruct (unfilter_rows_conform bpp image_width (scanlines rows) Hbpp Hw Hflen
              good 0 [] (filter :: line ++ scanlines later) [] [] rest (seg ++ post)
              Hscan (Z.le_refl 0) eq_refl eq_refl Hrest Htot Hgood (fun _ => Hfirst) Hnz)
    as (out & Hout & Houtlen & Hloop).
  cbn [app] in Hloop. fold dw in Hloop. rewrite Hloop.
  cbn [mbind result_bind]. cbn [iterateR].
  rewrite (unfilter_row_rejects bpp dw (scanlines rows) (0 + Z.of_nat (length good))
             (out ++ seg ++ post) (out ++ line ++ post) filter).
  + reflexivity.
  + rewrite Z.add_0_l. fold dw in Houtlen.
    rewrite (u32_small (Z.of_nat (length good) * (dw + 1))) by lia.
    rewrite (u32_small (Z.of_nat (length good) * dw)) by lia.
    rewrite <- Hglen, <- Houtlen, <- Hline.
    apply (copy_row_line (scanlines rows) (scanlines good) (scanlines later)
             out post seg line filter Hscan Hseg).
  + rewrite Z.add_0_l.
    rewrite (u32_small (Z.of_nat (length good) * (dw + 1))) by lia.
    rewrite <- Hglen, Hscan. apply buf_get_middle. reflexivity.
  + destruct Hbad as [Hb|[Hb|[Hb1 Hb2]]]; [left; exact Hb|right; left; exact Hb|].
    right; right. split; [|exact Hb2]. rewrite Hb1. reflexivity.
Qed.

(** ** The scanline loop stays within its buffers *)

Lemma iterateR_no_fault {T : Type} (Inv : T -> Prop) (body : Z -> T -> Result T) :
  forall n i s,
    (forall j s, i <= j < i + Z.of_nat n -> Inv s -> no_fault Inv (body j s)) ->
    Inv s -> no_fault Inv (iterateR n i body s).
Proof.
  induction n as [|n IH]; intros i s Hbody Hs; cbn [iterateR].
  - right. exists s. auto.
  - destruct (Hbody i s ltac:(lia) Hs) as [E|(s1 & E & H1)]; rewrite E;
      cbn [mbind result_bind].
    + left. reflexivity.
    + apply IH; [|exact H1]. intros j s' Hj. apply Hbody. lia.
Qed.

Lemma for_loopR_no_fault {T : Type} (Inv : T -> Prop) (body : Z -> T -> Result T)
    (lo hi : Z) (s : T) :
  (forall j s, lo <= j < hi -> Inv s -> no_fault Inv (body j s)) ->
  Inv s -> no_fault Inv (for_loopR lo hi body s).
Proof.
  intros Hbody Hs. unfold for_loopR. apply iterateR_no_fault; [|exact Hs].
  intros j s' Hj. apply Hbody. lia.
Qed.

Lemma buf_get_in_range (buf : list Z) (i : Z) :
  0 <= i < Z.of_nat (length buf) -> exists b, buf_get buf i = Ok b.
Proof.
  intros Hi. destruct (vec_get_Some buf i Hi) as [b Hb].
  exists b. unfold buf_get. rewrite Hb. reflexivity.
Qed.

Lemma buf_set_in_range (len : nat) (buf : list Z) (i b : Z) :
  length buf = len -> 0 <= i < Z.of_nat len ->
  no_fault (fun d => length d = len) (buf_set buf i b).
Proof.
  intros Hl Hi. right. exists (<[Z.to_nat i := b]> buf). split.
  - unfold buf_set. rewrite vec_set_Some by lia. reflexivity.
  - rewrite length_insert. exact Hl.
Qed.

Ltac read_byte H :=
  match goal with
  | |- context [buf_get ?buf ?i] =>
      let b := fresh "b" in
      let E := fresh "E" in
      destruct (buf_get_in_range buf i) as [b E];
      [rewrite ?H; try lia | rewrite E; cbn [mbind result_bind]]
  end.

Lemma unfilter_row_no_fault (bpp w h : Z) (filtered : list Z) (i : Z) (data : list Z) :
  bpp = 3 \/ bpp = 4 ->
  0 <= w -> 0 <= i < h ->
  (w * bpp + 1) * h < 2 ^ 32 ->
  Z.of_nat (length filtered) = (w * bpp + 1) * h ->
  length data = Z.to_nat (w * bpp * h) ->
  no_fault (fun d => length d = Z.to_nat (w * bpp * h))
    (unfilter_row bpp (w * bpp) filtered i data).
Proof.
  intros Hbpp Hw Hi Hsize Hflen Hdata.
  set (dw := w * bpp) in *.
  set (len := Z.to_nat (dw * h)) in *.
  assert (Hdw : 0 <= dw) by (subst dw; destruct Hbpp as [Hb|Hb]; rewrite Hb; lia).
  assert (Hwz : dw = 0 \/ bpp <= dw).
  { destruct (Z.eq_dec w 0) as [->|Hne]; [left; reflexivity|right].
    subst dw. destruct Hbpp as [Hb|Hb]; rewrite Hb; lia. }
  assert (Hid : 0 <= i * dw) by (apply Z.mul_nonneg_nonneg; lia).
  assert (Hrd : 0 <= (h - 1 - i) * dw) by (apply Z.mul_nonneg_nonneg; lia).
  assert (Hprod : dw * h = i * dw + dw + (h - 1 - i) * dw) by ring.
  assert (Hprod' : (dw + 1) * h = i * (dw + 1) + (dw + 1) + (h - 1 - i) * (dw + 1)) by ring.
  assert (Hif : 0 <= i * (dw + 1)) by (apply Z.mul_nonneg_nonneg; lia).
  assert (Hrf : 0 <= (h - 1 - i) * (dw + 1)) by (apply Z.mul_nonneg_nonneg; lia).
  assert (Hh1 : (dw + 1) * h = dw * h + h) by ring.
  assert (Hlen : Z.of_nat len = dw * h) by (subst len; lia).
  unfold unfilter_row.
  rewrite (u32_small (i * dw)) by lia.
  rewrite (u32_small (i * (dw + 1))) by lia.
  (* the row copy *)
  assert (Hcopy : no_fault (fun d => length d = len)
                    (copy_row filtered (i * (dw + 1)) (i * dw) dw data)).
  { unfold copy_row. apply for_loopR_no_fault; [|exact Hdata].
    intros t s Ht Hs. read_byte Hflen. apply buf_set_in_range; [exact Hs|lia]. }
  destruct Hcopy as [E|(d1 & E & Hd1)]; rewrite E; cbn [mbind result_bind];
    [left; reflexivity|].
  read_byte Hflen.
  assert (Hlo : u32 (i * dw + bpp) = i * dw + bpp).
  { apply u32_small. destruct Hwz as [H0|Hge]; [|lia].
    rewrite H0, Z.mul_0_r in *. destruct Hbpp as [Hb|Hb]; rewrite Hb; lia. }
  assert (Hhi : u32 (i * dw + dw) = i * dw + dw) by (apply u32_small; lia).
  rewrite Hlo, Hhi.
  destruct (b =? 0); [right; exists d1; auto|].
  destruct (b =? 1).
  { apply for_loopR_no_fault; [|exact Hd1].
    intros k s Hk Hs. rewrite (u32_small (k - bpp)) by lia.
    read_byte Hs. read_byte Hs. apply buf_set_in_range; [exact Hs|lia]. }
  destruct (b =? 2).
  { destruct (Z.eqb_spec i 0) as [Hi0|Hi0]; [left; reflexivity|].
    assert (dw <= i * dw) by (replace (i * dw) with (dw + (i - 1) * dw) by ring;
                              pose proof (Z.mul_nonneg_nonneg (i - 1) dw); lia).
    apply for_loopR_no_fault; [|exact Hd1].
    intros k s Hk Hs. rewrite (u32_small (k - dw)) by lia.
    read_byte Hs. read_byte Hs. apply buf_set_in_range; [exact Hs|lia]. }
  destruct (b =? 3).
  { destruct (Z.eqb_spec i 0) as [Hi0|Hi0]; [left; reflexivity|].
    assert (dw <= i * dw) by (replace (i * dw) with (dw + (i - 1) * dw) by ring;
                              pose proof (Z.mul_nonneg_nonneg (i - 1) dw); lia).
    apply for_loopR_no_fault; [|exact Hd1].
    intros k s Hk Hs. rewrite (u32_small (k - bpp)) by lia.
    rewrite (u32_small (k - dw)) by lia.
    read_byte Hs. read_byte Hs. read_byte Hs. apply buf_set_in_range; [exact Hs|lia]. }
  destruct (b =? 4).
  { destruct (Z.eqb_spec i 0) as [Hi0|Hi0]; [left; reflexivity|].
    assert (dw <= i * dw) by (replace (i * dw) with (dw + (i - 1) * dw) by ring;
                              pose proof (Z.mul_nonneg_nonneg (i - 1) dw); lia).
    apply for_loopR_no_fault; [|exact Hd1].
    intros k s Hk Hs. rewrite (u32_small (k - bpp)) by lia.
    rewrite (u32_small (k - dw)) by lia. rewrite (u32_small (k - dw - bpp)) by lia.
    read_byte Hs. read_byte Hs. read_byte Hs. read_byte Hs.
    apply buf_set_in_range; [exact Hs|lia]. }
  left. reflexivity.
Qed.

(** X19. The scanline loop of [readPNG] never leaves a buffer, whatever
    the filter bytes: when the inflated stream has (data_width + 1) *
    data_height bytes and this size does not wrap at 32 bits, the loop
    fails or ends well with a pixel buffer of data_width * data_height
    bytes. *)
Theorem unfilter_no_fault (true_color : bool) (image_width image_height : Z)
    (filtered : list Z) :
  let bpp := if true_color then 3 else 4 in
  let data_width := image_width * bpp in
  0 <= image_width -> 0 <= image_height ->
  (data_width + 1) * image_height < 2 ^ 32 ->
  Z.of_nat (length filtered) = (data_width + 1) * image_height ->
  unfilter true_color image_width image_height filtered = Failed
  \/ exists data,
       unfilter true_color image_width image_height filtered = Ok data
       /\ Z.of_nat (length data) = data_width * image_height.
Proof.
  intros bpp dw Hw Hh Hsize Hflen.
  assert (Hbpp : bpp = 3 \/ bpp = 4) by (subst bpp; destruct true_color; auto).
  assert (Hdw : 0 <= dw) by (subst dw; destruct Hbpp as [Hb|Hb]; rewrite Hb; lia).
  assert (Hpos : 0 <= dw * image_height) by (apply Z.mul_nonneg_nonneg; lia).
  destruct (Z.eq_dec image_height 0) as [->|Hne].
  { right. exists []. split; [|cbn; lia]. unfold unfilter. cbv zeta.
    rewrite Z.mul_0_r. reflexivity. }
  assert (Hprod : (dw + 1) * image_height
                  = dw + dw * (image_height - 1) + image_height) by ring.
  assert (Hprod' : dw * image_height = dw + dw * (image_height - 1)) by ring.
  assert (Hpos' : 0 <= dw * (image_height - 1)) by (apply Z.mul_nonneg_nonneg; lia).
  unfold unfilter. cbv zeta. fold bpp. fold dw.
  rewrite (u32_small dw) by lia. rewrite (u32_small (dw * image_height)) by lia.
  destruct (for_loopR_no_fault (fun d => length d = Z.to_nat (dw * image_height))
              (unfilter_row bpp dw filtered) 0 image_height
              (replicate (Z.to_nat (dw * image_height)) 0)) as [E|(data & E & Hd)].
  - intros i s Hi Hs.
    apply (unfilter_row_no_fault bpp image_width image_height filtered i s);
      try assumption.
  - apply length_replicate.
  - left. exact E.
  - right. exists data. split; [exact E|]. rewrite Hd. lia.
Qed.

(** ** The faces a run visits *)

Lemma stride_faces_nil (first last interval : Z) :
  1 <= interval -> last <= first -> stride_faces first last interval = [].
Proof.
  intros Hint Hle. unfold stride_faces. rewrite seqZ_nil; [reflexivity|].
  assert ((last - first + interval - 1) / interval < 1); [|lia].
  apply Z.div_lt_upper_bound; lia.
Qed.

Lemma stride_faces_cons (first last interval : Z) :
  1 <= interval -> first < last ->
  stride_faces first last interval
  = first :: stride_faces (first + interval) last interval.
Proof.
  intros Hint Hlt. unfold stride_faces.
  replace (last - first + interval - 1)
    with ((last - (first + interval) + interval - 1) + 1 * interval) by lia.
  rewrite Z.div_add by lia.
  set (q := (last - (first + interval) + interval - 1) / interval).
  assert (Hq : 0 <= q) by (subst q; apply Z.div_pos; lia).
  rewrite seqZ_cons by lia. cbn [fmap list_fmap].
  f_equal; [lia|].
  replace (Z.succ 0) with (1 + 0) by lia. replace (Z.pred (q + 1)) with q by lia.
  rewrite <- fmap_add_seqZ, <- list_fmap_compose.
  apply list_fmap_ext. intros _ k _. cbn. lia.
Qed.

Lemma face_loop_stride (MINIMAL_VAL : float) (model : Model) (last interval : Z) :
  1 <= interval ->
  last - 1 + interval <= INT_MAX ->
  forall fuel i st,
    INT_MIN <= i ->
    (length (stride_faces i last interval) <= fuel)%nat ->
    face_loop MINIMAL_VAL fuel model i last interval st
    = match run_all (render_face MINIMAL_VAL model) (stride_faces i last interval) st with
      | Some st' => Done st'
      | None => Undefined
      end.
Proof.
  intros Hint Hmax. induction fuel as [|fuel IH]; intros i st Hmin Hfuel.
  - destruct (Z.ltb_spec i last) as [Hlt|Hge].
    + rewrite stride_faces_cons in Hfuel by lia. cbn [length] in Hfuel. lia.
    + rewrite stride_faces_nil by lia. cbn [face_loop run_all].
      replace (i <? last) with false by (symmetry; apply Z.ltb_ge; lia). reflexivity.
  - cbn [face_loop]. destruct (Z.ltb_spec i last) as [Hlt|Hge].
    + rewrite stride_faces_cons in * by lia. cbn [run_all length] in *.
      destruct (render_face MINIMAL_VAL model i st) as [st1|]; [|reflexivity].
      assert (Hi : as_int (i + interval) = Some (i + interval)).
      { unfold as_int, in_int, INT_MIN, INT_MAX in *.
        destruct (- 2 ^ 31 <=? i + interval) eqn:E1;
          destruct (i + interval <=? 2 ^ 31 - 1) eqn:E2; try reflexivity; lia. }
      rewrite Hi. apply IH; lia.
    + rewrite stride_faces_nil by lia. reflexivity.
Qed.

(** X20. [renderingTriangles] with an interval of at least 1 visits the
    faces begin, begin + interval, begin + 2 * interval, ... below end, once
    each and in this order, stopping at the first one that runs into
    undefined behaviour; the counter is taken not to overflow
    (end - 1 + interval fits an [int]). *)
Theorem renderingTriangles_stride (MINIMAL_VAL : float) (fuel : nat) (pl : Pipeline)
    (first last interval : Z) (model : Model) (shader : Shader) :
  1 <= interval ->
  INT_MIN <= first ->
  last - 1 + interval <= INT_MAX ->
  (length (stride_faces first last interval) <= fuel)%nat ->
  renderingTriangles MINIMAL_VAL fuel pl first last interval model shader
  = match run_all (render_face MINIMAL_VAL model) (stride_faces first last interval)
            (zero_payload, shader, pl) with
    | Some st => Done st
    | None => Undefined
    end.
Proof.
  intros Hint Hmin Hmax Hfuel. unfold renderingTriangles.
  apply face_loop_stride; assumption.
Qed.

(** ** Rounding never turns a number into zero *)








(** ** Two numbers of the format with the same value are the same *)








(** ** A difference or a sum that is zero *)



(** ** An edge whose ratio would be 0/0 *)









(** ** The theorems at concrete inputs *)

Ltac three_cases j Hj :=
  let H := fresh "H" in
  assert (j = 0 \/ j = 1 \/ j = 2) as H by lia;
  destruct H as [H|[H|H]]; subst j.

Lemma clipWithPlane_all_inside_witness :
  let r := clipWithPlane MINIMAL_VAL_f32 MINIMAL 3 s1_triangle_neg_w in
  fst r = 3
  /\ forall k, 0 <= k < 3 ->
       vertex_at (write_side MINIMAL (snd r)) k
       = vertex_at (read_side MINIMAL s1_triangle_neg_w) (Z.rem (k + 1) 3).
Proof.
  apply (clipWithPlane_all_inside MINIMAL_VAL_f32 MINIMAL 3 s1_triangle_neg_w); [lia|].
  intros j Hj. three_cases j Hj; vm_compute; reflexivity.
Defined.

Lemma clipWithPlane_all_outside_witness :
  clipWithPlane MINIMAL_VAL_f32 MINIMAL 3 s1_triangle = (0, s1_triangle).
Proof.
  apply (clipWithPlane_all_outside MINIMAL_VAL_f32 MINIMAL 3 s1_triangle).
  intros j Hj. three_cases j Hj; vm_compute; reflexivity.
Defined.

Lemma homogeneous_clip_behind_minimal_witness :
  homogeneous_clip MINIMAL_VAL_f32 s1_triangle = (0, s1_triangle).
Proof.
  apply (homogeneous_clip_behind_minimal MINIMAL_VAL_f32 s1_triangle).
  intros j Hj. three_cases j Hj; vm_compute; reflexivity.
Defined.

Lemma inside_all_planes_no_nan_witness :
  let v := clipped_coords_a s1_triangle_neg_w 0 in
  flt (float_of_int 0) MINIMAL_VAL_f32 = true
  /\ is_nan (v4_x v) = false /\ is_nan (v4_y v) = false
  /\ is_nan (v4_z v) = false /\ is_nan (v4_w v) = false
  /\ flt (v4_w v) (float_of_int 0) = true.
Proof.
  cbv zeta.
  destruct (inside_all_planes_no_nan MINIMAL_VAL_f32
              (clipped_coords_a s1_triangle_neg_w 0)) as (Hx & Hy & Hz & Hw & Hneg).
  - intros p. destruct p; vm_compute; reflexivity.
  - split; [vm_compute; reflexivity|].
    repeat (split; [assumption|]). apply Hneg. vm_compute. reflexivity.
Defined.

Lemma rasterize_kept_witness :
  width example_drawn = width example_pipeline
  /\ height example_drawn = height example_pipeline
  /\ length (zbuffer example_drawn) = length (zbuffer example_pipeline)
  /\ length (framebuffer example_drawn) = length (framebuffer example_pipeline)
  /\ (forall j, j mod 4 = 3 ->
        vec_get (framebuffer example_drawn) j = vec_get (framebuffer example_pipeline) j)
  /\ Forall2 depth_le (zbuffer example_drawn) (zbuffer example_pipeline).
Proof.
  apply (rasterize_kept example_payload example_shader example_pipeline example_drawn).
  vm_compute. reflexivity.
Defined.

Lemma renderingTriangles_kept_witness :
  pipeline_kept example_pipeline example_drawn.
Proof.
  apply (renderingTriangles_kept MINIMAL_VAL_f32 1 example_pipeline example_drawn 0 1 1
           example_model example_shader).
  vm_compute. reflexivity.
Defined.

Lemma renderingModel_faces_witness :
  renderingModel MINIMAL_VAL_f32 1 example_pipeline example_model example_shader
  = match run_all (render_face MINIMAL_VAL_f32 example_model)
            (seqZ 0 (Z.of_nat (length (faces example_model))))
            (zero_payload, example_shader, example_pipeline) with
    | Some st => Done st
    | None => Undefined
    end.
Proof.
  apply (renderingModel_faces MINIMAL_VAL_f32 1 example_pipeline example_model example_shader).
  - vm_compute. discriminate.
  - cbn. lia.
Defined.

Lemma rasterize_defined_witness :
  exists pl', rasterize example_payload example_shader example_pipeline = Some pl'.
Proof.
  apply (rasterize_defined example_payload example_shader example_pipeline (mkBox 0 1 0 1)).
  - vm_compute. reflexivity.
  - unfold box_on_screen. cbn. lia.
  - unfold buffers_sized. cbn. lia.
  - intros a b c k i. unfold v3_get. cbn [example_shader fragmentShader].
    destruct (i =? 0); [|destruct (i =? 1)]; vm_compute; reflexivity.
Defined.

Lemma render_fan_polygon_witness :
  side_a (fst (fst example_state_drawn)) = side_a (fst (fst example_state))
  /\ side_b (fst (fst example_state_drawn)) = side_b (fst (fst example_state))
  /\ vertexShader (snd (fst example_state_drawn)) = vertexShader (snd (fst example_state))
  /\ fragmentShader (snd (fst example_state_drawn))
     = fragmentShader (snd (fst example_state)).
Proof.
  apply (render_fan_polygon 3 example_state example_state_drawn).
  vm_compute. reflexivity.
Defined.

Lemma rasterize_degenerate_witness :
  rasterize point_payload example_shader example_pipeline
  = (box ← bounding_box example_pipeline
             (fun i => screen_position example_pipeline (homo_coords point_payload i));
     Some example_pipeline).
Proof.
  apply (rasterize_degenerate point_payload example_shader example_pipeline).
  left. reflexivity.
Defined.

Lemma reverseEndian32_big_endian_witness :
  reverseEndian32 (le_word [0; 0; 1; 2]) = be_word [0; 0; 1; 2].
Proof.
  apply (reverseEndian32_big_endian [0; 0; 1; 2]); [reflexivity|].
  repeat constructor; unfold is_byte; lia.
Defined.

Lemma signature_check_witness :
  length png_signature = 8%nat
  /\ (signature_ok png_signature = true <-> png_signature = png_signature).
Proof.
  split; [reflexivity|].
  apply (signature_check png_signature); [reflexivity|].
  repeat constructor; unfold is_byte; lia.
Defined.

Lemma unfilter_size_witness :
  let data_width := u32 (1 * 3) in
  data_width * 2 < 2 ^ 32
  /\ Z.of_nat (length [10; 20; 30; 11; 22; 33]) = data_width * 2
  /\ Forall is_byte [10; 20; 30; 11; 22; 33].
Proof.
  apply (unfilter_size true 1 2 [0; 10; 20; 30; 2; 1; 2; 3] [10; 20; 30; 11; 22; 33]).
  - lia.
  - repeat constructor; unfold is_byte; lia.
  - vm_compute. reflexivity.
Defined.

Lemma unfilter_conforms_witness :
  exists data,
    png_unfilter 3 []
      [(1, [10; 20; 30; 40; 50; 60]); (2, [1; 2; 3; 4; 5; 6]); (0, [7; 8; 9; 7; 8; 9])]
    = Some data
    /\ unfilter true 2 3
         (scanlines [(1, [10; 20; 30; 40; 50; 60]); (2, [1; 2; 3; 4; 5; 6]);
                     (0, [7; 8; 9; 7; 8; 9])])
       = Ok data.
Proof.
  apply (unfilter_conforms true 2
           [(1, [10; 20; 30; 40; 50; 60]); (2, [1; 2; 3; 4; 5; 6]); (0, [7; 8; 9; 7; 8; 9])]).
  - lia.
  - vm_compute. reflexivity.
  - repeat constructor; unfold is_byte; cbn; lia.
  - cbn. lia.
Defined.

Lemma unfilter_rejects_witness :
  unfilter true 1 2 (scanlines ([(0, [10; 20; 30])] ++ (5, [1; 2; 3]) :: [])) = Failed.
Proof.
  apply (unfilter_rejects true 1 [(0, [10; 20; 30])] [] 5 [1; 2; 3]).
  - lia.
  - vm_compute. reflexivity.
  - vm_compute. reflexivity.
  - repeat constructor; unfold is_byte; cbn; lia.
  - cbn. lia.
  - reflexivity.
  - right. left. lia.
Defined.

Lemma unfilter_no_fault_witness :
  unfilter true 1 2 [0; 10; 20; 30; 4; 1; 2; 3] = Failed
  \/ exists data,
       unfilter true 1 2 [0; 10; 20; 30; 4; 1; 2; 3] = Ok data
       /\ Z.of_nat (length data) = 1 * 3 * 2.
Proof.
  apply (unfilter_no_fault true 1 2 [0; 10; 20; 30; 4; 1; 2; 3]).
  - lia.
  - lia.
  - vm_compute. reflexivity.
  - reflexivity.
Defined.


Lemma renderingTriangles_stride_witness :
  stride_faces 0 1 2 = [0]
  /\ renderingTriangles MINIMAL_VAL_f32 1 example_pipeline 0 1 2 example_model example_shader
     = match run_all (render_face MINIMAL_VAL_f32 example_model) (stride_faces 0 1 2)
               (zero_payload, example_shader, example_pipeline) with
       | Some st => Done st
       | None => Undefined
       end.
Proof.
  split; [reflexivity|].
  apply (renderingTriangles_stride MINIMAL_VAL_f32 1 example_pipeline 0 1 2
           example_model example_shader).
  - lia.
  - vm_compute. discriminate.
  - vm_compute. discriminate.
  - change (1 <= 1)%nat. lia.
Defined.

(** C1, a witness: pixel (0, 0) of [example_pipeline] under the example
    triangle; the weights are (1/4, 1/4, 1/2), the stored depth is 1000 and
    z is 1, so the fragment is accepted: the depth entry 0 becomes 1 and the
    shader's (300, -5, 128) is written as the bytes 255, 0, 128 at the
    offsets 10, 9 and 8. *)
Lemma rasterize_pixel_decision_witness :
  rasterize_pixel example_payload example_shader example_screen 0 0 example_pipeline
  = Some example_drawn
  /\ vec_get (zbuffer example_drawn) 0 = Some (float_of_int 1)
  /\ (forall j, j <> 0 ->
        vec_get (zbuffer example_drawn) j = vec_get (zbuffer example_pipeline) j)
  /\ vec_get (framebuffer example_drawn) 10 = Some 255
  /\ vec_get (framebuffer example_drawn) 9 = Some 0
  /\ vec_get (framebuffer example_drawn) 8 = Some 128
  /\ (forall j, j <> 8 -> j <> 9 -> j <> 10 ->
        vec_get (framebuffer example_drawn) j = vec_get (framebuffer example_pipeline) j)
  /\ width example_drawn = 2 /\ height example_drawn = 2.
Proof.
  assert (rasterize_pixel example_payload example_shader example_screen 0 0
            example_pipeline = Some example_drawn) as Hrun by (vm_compute; reflexivity).
  split; [exact Hrun|].
  assert (computeBarycentricCoords2D (float_of_int_plus_half 0) (float_of_int_plus_half 0)
            example_screen
          = (float_of_dyadic 1 (-2), float_of_dyadic 1 (-2), float_of_dyadic 1 (-1)))
    as Hw by (vm_compute; reflexivity).
  destruct (proj1 (proj2 (proj2 (proj1 (proj2 (proj2 (proj2
              (rasterize_pixel_decision example_payload example_shader example_screen
                 0 0 example_pipeline _ _ _ Hw))))
              (float_of_int 1000) eq_refl eq_refl))) eq_refl example_drawn Hrun)
    as (Hz & Hzrest & (r & g & b & Hr & Hg & Hb & H2 & H1 & H0) & Hrest & Hwd & Hht).
  split; [exact Hz|]. split; [exact Hzrest|].
  split; [exact (eq_trans H2 (eq_sym Hr))|].
  split; [exact (eq_trans H1 (eq_sym Hg))|].
  split; [exact (eq_trans H0 (eq_sym Hb))|].
  split; [exact Hrest|]. split; [exact Hwd|exact Hht].
Defined.


(** X22, a witness: the triangle (-2, 0, 0, -2), (0, 0, 0, -2),
    (-2, 0, 0, -1); only RIGHT cuts it, in two edges, and the count is 4. *)
Lemma homogeneous_clip_few_crossings_witness :
  few_crossings MINIMAL_VAL_f32 all_planes (3, thirds_triangle)
  /\ fst (homogeneous_clip MINIMAL_VAL_f32 thirds_triangle) = 4
  /\ (fst (homogeneous_clip MINIMAL_VAL_f32 thirds_triangle) = 0
      \/ 3 <= fst (homogeneous_clip MINIMAL_VAL_f32 thirds_triangle) <= 10).
Proof.
  assert (few_crossings MINIMAL_VAL_f32 all_planes (3, thirds_triangle)) as Hfew.
  { cbn [few_crossings all_planes]. repeat split; vm_compute; discriminate. }
  split; [exact Hfew|]. split; [vm_compute; reflexivity|].
  apply (homogeneous_clip_few_crossings MINIMAL_VAL_f32 thirds_triangle Hfew).
Defined.
